(** * Image Converter Pro / Conversor WebP: the batch-conversion pipeline

    A shallow embedding of the two applications of the repository,
    [src/image_converter.py] (PyQt5) and [src/conversor_webp.py] (Tkinter),
    and the properties of their conversion pipeline.

    Conventions of the embedding.
    - A Python [str] is a [string]: a sequence of bytes (the UTF-8 encoding).
      Case mapping is the ASCII one; every literal the programs compare
      against ([".png"], ["RGBA"], ...) is ASCII.
    - A [pathlib.Path] is its [parts] tuple (POSIX flavour): the anchor
      (["/"] or ["//"]) first when the path is absolute, then the components.
      Equality, hashing and ordering of paths are those of the tuple.
    - A Python [int] is a [Z]; a [float] is a binary64 [spec_float].
    - Calls that leave the program (file system, image library, clock) are
      answered by an environment of oracles; every call is recorded in the
      history the computation threads through, and an oracle sees the
      history so far.  An oracle either returns or raises.
*)

From Stdlib Require Import ZArith Lia Ascii.
From Stdlib Require Import SpecFloat.
From stdpp Require Import base strings list gmap sorting pretty.

Local Open Scope Z_scope.
Set Warnings "-register-all".

(** ** Python strings *)

Module Py.

Definition is_ascii_lower (c : ascii) : bool :=
  (97 <=? nat_of_ascii c)%nat && (nat_of_ascii c <=? 122)%nat.
Definition is_ascii_upper (c : ascii) : bool :=
  (65 <=? nat_of_ascii c)%nat && (nat_of_ascii c <=? 90)%nat.

Definition ascii_upper (c : ascii) : ascii :=
  if is_ascii_lower c then ascii_of_nat (nat_of_ascii c - 32) else c.
Definition ascii_lower (c : ascii) : ascii :=
  if is_ascii_upper c then ascii_of_nat (nat_of_ascii c + 32) else c.

(** [s.upper()], [s.lower()] *)
Fixpoint upper (s : string) : string :=
  match s with
  | EmptyString => EmptyString
  | String c s' => String (ascii_upper c) (upper s')
  end.
Fixpoint lower (s : string) : string :=
  match s with
  | EmptyString => EmptyString
  | String c s' => String (ascii_lower c) (lower s')
  end.

(** [bool(s)]: a string is true when it is not empty *)
Definition truthy (s : string) : bool :=
  match s with EmptyString => false | String _ _ => true end.

Definition eqb (s t : string) : bool := bool_decide (s = t).

(** [x in xs] for a list of strings *)
Definition in_list (x : string) (xs : list string) : bool :=
  bool_decide (x ∈ xs).

(** [s.startswith(p)] *)
Fixpoint startswith (s p : string) : bool :=
  match p, s with
  | EmptyString, _ => true
  | String _ _, EmptyString => false
  | String a p', String b s' => bool_decide (a = b) && startswith s' p'
  end.

(** [s.endswith(p)] *)
Fixpoint endswith (s p : string) : bool :=
  bool_decide (s = p) ||
  match s with
  | EmptyString => false
  | String _ s' => endswith s' p
  end.

(** [s.replace(old, new)] for a non-empty [old]: the occurrences of [old]
    are replaced from left to right, without overlap.  [skip] counts the
    characters of an occurrence still to be dropped. *)
Fixpoint replace_from (old new s : string) (skip : nat) : string :=
  match s with
  | EmptyString => EmptyString
  | String c s' =>
      match skip with
      | S k => replace_from old new s' k
      | O =>
          if startswith s old
          then new +:+ replace_from old new s' (String.length old - 1)
          else String c (replace_from old new s' 0)
      end
  end.
Definition replace (s old new : string) : string := replace_from old new s 0.

(** [s.split(sep)] for a one-character separator *)
Fixpoint split (sep : ascii) (s : string) : list string :=
  match s with
  | EmptyString => [EmptyString]
  | String c s' =>
      if bool_decide (c = sep) then EmptyString :: split sep s'
      else match split sep s' with
           | [] => [String c EmptyString]
           | w :: ws => String c w :: ws
           end
  end.

(** [s.rfind(c)]: the index of the last occurrence, or [None] for -1 *)
Fixpoint rfind (c : ascii) (s : string) : option nat :=
  match s with
  | EmptyString => None
  | String a s' =>
      match rfind c s' with
      | Some i => Some (S i)
      | None => if bool_decide (a = c) then Some O else None
      end
  end.

(** [s[:i]] and [s[i:]] *)
Fixpoint take (i : nat) (s : string) : string :=
  match i, s with
  | S k, String c s' => String c (take k s')
  | _, _ => EmptyString
  end.
Fixpoint drop (i : nat) (s : string) : string :=
  match i, s with
  | S k, String _ s' => drop k s'
  | _, _ => s
  end.

(** [c in s] for a character *)
Fixpoint contains (c : ascii) (s : string) : bool :=
  match s with
  | EmptyString => false
  | String a s' => bool_decide (a = c) || contains c s'
  end.

End Py.

(** ** [fnmatch]: shell-style patterns, as [pathlib] globbing applies them
       to one path component (case-sensitive: POSIX flavour).  [*] matches any
       run of characters, [?] one character, anything else itself.  Bracket
       classes are left out: no pattern of the programs contains a bracket. *)

Module fnmatch.

Fixpoint fnmatchcase (pat : string) : string → bool :=
  match pat with
  | EmptyString => fun name => negb (Py.truthy name)
  | String c pat' =>
      if bool_decide (c = "*"%char) then
        fix star (name : string) : bool :=
          fnmatchcase pat' name ||
          match name with
          | EmptyString => false
          | String _ name' => star name'
          end
      else if bool_decide (c = "?"%char) then
        fun name =>
          match name with
          | EmptyString => false
          | String _ name' => fnmatchcase pat' name'
          end
      else
        fun name =>
          match name with
          | EmptyString => false
          | String d name' => bool_decide (c = d) && fnmatchcase pat' name'
          end
  end.

(** a pattern character that stands for itself *)
Definition literal_char (c : ascii) : bool :=
  negb (bool_decide (c = "*"%char)) && negb (bool_decide (c = "?"%char)).
Fixpoint literal (s : string) : bool :=
  match s with
  | EmptyString => true
  | String c s' => literal_char c && literal s'
  end.

End fnmatch.

(** ** [pathlib]: pure paths *)

Module pathlib.

(** A path is its [parts] tuple. *)
Abbreviation Path := (list string).

Definition is_anchor (part : string) : bool := Py.startswith part "/".

(** the root of a POSIX path string: exactly two leading slashes are kept,
    any other number of them is one *)
Definition posix_root (s : string) : string :=
  if Py.startswith s "/" then
    if Py.startswith s "//" && negb (Py.startswith s "///") then "//" else "/"
  else "".

(** the components of a path string: empty ones and ["."] are dropped *)
Definition components (s : string) : list string :=
  filter (λ x, x ≠ "" ∧ x ≠ ".") (Py.split "/" s).

(** [Path(s)] *)
Definition of_str (s : string) : Path :=
  (if Py.truthy (posix_root s) then [posix_root s] else []) ++ components s.

(** [p / s] for a string [s]: an absolute [s] replaces [p] *)
Definition joinpath (p : Path) (s : string) : Path :=
  if Py.startswith s "/" then of_str s else p ++ components s.

(** [p / q] for a path [q] *)
Definition join (p q : Path) : Path :=
  match q with
  | a :: _ => if is_anchor a then q else p ++ q
  | [] => p
  end.

(** [p.name]: the last component, empty for a bare anchor or [Path('.')] *)
Definition name (p : Path) : string :=
  match last p with
  | Some x => if is_anchor x then "" else x
  | None => ""
  end.

(** [p.parent] *)
Definition parent (p : Path) : Path :=
  match p with
  | [a] => if is_anchor a then p else []
  | _ => removelast p
  end.

(** [p.suffix] and [p.stem]: split at the last dot of the name, unless it
    is the first or the last character *)
Definition suffix_of_name (nm : string) : string :=
  match Py.rfind "." nm with
  | Some i =>
      if (0 <? i)%nat && (i <? String.length nm - 1)%nat then Py.drop i nm else ""
  | None => ""
  end.
Definition stem_of_name (nm : string) : string :=
  match Py.rfind "." nm with
  | Some i =>
      if (0 <? i)%nat && (i <? String.length nm - 1)%nat then Py.take i nm else nm
  | None => nm
  end.
Definition suffix (p : Path) : string := suffix_of_name (name p).
Definition stem (p : Path) : string := stem_of_name (name p).

(** [p.with_suffix(ext)]: [None] stands for the [ValueError] raised when
    [p] has an empty name *)
Definition with_suffix (p : Path) (ext : string) : option Path :=
  if Py.truthy (name p) then Some (removelast p ++ [stem p +:+ ext]) else None.

(** [p.relative_to(other)]: [None] stands for the [ValueError] raised when
    [other] is not a prefix of [p]; an absolute path is not relative to
    [Path('.')] *)
Fixpoint strip_prefix (p other : Path) : option Path :=
  match other, p with
  | [], _ => Some p
  | o :: other', x :: p' => if decide (o = x) then strip_prefix p' other' else None
  | _ :: _, [] => None
  end.
Definition relative_to (p other : Path) : option Path :=
  match other, p with
  | [], a :: _ => if is_anchor a then None else Some p
  | _, _ => strip_prefix p other
  end.

(** [p <= q]: tuples compare lexicographically, strings by code point *)
Fixpoint leb (p q : Path) : bool :=
  match p, q with
  | [], _ => true
  | _ :: _, [] => false
  | x :: p', y :: q' =>
      if decide (x = y) then leb p' q' else bool_decide (String.le x y)
  end.
Definition le (p q : Path) : Prop := leb p q = true.
Definition lt (p q : Path) : Prop := le p q ∧ p ≠ q.

#[global] Instance le_dec : RelDecision le.
Proof. intros p q. unfold le. apply _. Defined.

End pathlib.

Import pathlib.

(** ** The file system seen by the programs: a directory tree *)

Module fs.

(** What [open(path, 'rb')] finds: the bytes of a regular file, or an
    [OSError] (a file that cannot be read). *)
Inductive file_data :=
  | Readable (content : string)
  | Unreadable (why : string).

Inductive entry :=
  | File (name : string) (data : file_data)
  | Dir (name : string) (children : list entry).

Definition entry_name (e : entry) : string :=
  match e with File n _ => n | Dir n _ => n end.

(** [Path.is_file()] on a listed entry *)
Definition is_file (e : entry) : bool :=
  match e with File _ _ => true | Dir _ _ => false end.

(** the entries of a directory, each with its path *)
Definition listdir (base : Path) (children : list entry) : list (Path * entry) :=
  map (λ c, (base ++ [entry_name c], c)) children.

(** everything strictly below entry [e] of directory [base], a directory
    before its subdirectories ([**] walks top-down) *)
Fixpoint below (base : Path) (e : entry) : list (Path * entry) :=
  match e with
  | File _ _ => []
  | Dir n children =>
      listdir (base ++ [n]) children ++ flat_map (below (base ++ [n])) children
  end.

(** every entry under the directory [base] whose content is [children] *)
Definition walk (base : Path) (children : list entry) : list (Path * entry) :=
  listdir base children ++ flat_map (below base) children.

(** [base.glob(pattern)] and [base.rglob(pattern)] for a one-component
    pattern: files and directories alike are matched by name *)
Definition glob_entries (base : Path) (children : list entry) (pattern : string)
    : list (Path * entry) :=
  filter (λ pe, fnmatch.fnmatchcase pattern (entry_name pe.2) = true)
         (listdir base children).
Definition rglob_entries (base : Path) (children : list entry) (pattern : string)
    : list (Path * entry) :=
  filter (λ pe, fnmatch.fnmatchcase pattern (entry_name pe.2) = true)
         (walk base children).

Definition glob base children pattern : list Path :=
  (glob_entries base children pattern).*1.
Definition rglob base children pattern : list Path :=
  (rglob_entries base children pattern).*1.

End fs.

(** ** Exceptions and the computation monad *)

Module exc.

(** The classes the programs' [except] clauses tell apart.  A class stands
    for itself and its subclasses: [OSError] for [FileNotFoundError],
    [IsADirectoryError], [PIL.UnidentifiedImageError], ...; [NonException]
    for the [BaseException]s outside [Exception] ([KeyboardInterrupt],
    [SystemExit]). *)
Inductive exc_class :=
  | OSError | ValueError | KeyError | ZeroDivisionError | OverflowError
  | OtherException | NonException.

(** an exception: its class and [str(e)] *)
Record exn := Exn { exn_class : exc_class; exn_str : string }.

(** [except Exception] *)
Definition is_Exception (e : exn) : bool :=
  match exn_class e with NonException => false | _ => true end.
(** [except (OSError, ValueError)] *)
Definition is_OSError_or_ValueError (e : exn) : bool :=
  match exn_class e with OSError | ValueError => true | _ => false end.

Inductive result (A : Type) :=
  | Ok (a : A)
  | Raise (e : exn).
Arguments Ok {A} a.
Arguments Raise {A} e.

#[global] Instance result_ret : MRet result := λ A a, Ok a.
#[global] Instance result_bind : MBind result := λ A B f r,
  match r with Ok a => f a | Raise e => Raise e end.

#[global] Instance exc_class_eq_dec : EqDecision exc_class.
Proof. solve_decision. Defined.
#[global] Instance exn_eq_dec : EqDecision exn.
Proof. solve_decision. Defined.

End exc.

Import exc.

(** ** Floating point: binary64, rounding to nearest even *)

Module float.

Abbreviation float := spec_float.
Definition prec : Z := 53.
Definition emax : Z := 1024.

(** an integer as the unrounded float of mantissa [z] and exponent 0 *)
Definition raw (z : Z) : float :=
  match z with
  | Z0 => S754_zero false
  | Zpos m => S754_finite false m 0
  | Zneg m => S754_finite true m 0
  end.

Definition overflow (x : float) : bool :=
  match x with S754_infinity _ => true | _ => false end.

(** [float(z)] *)
Definition of_int (z : Z) : result float :=
  let x := binary_normalize prec emax z 0 false in
  if overflow x then Raise (Exn OverflowError "int too large to convert to float")
  else Ok x.

(** [a / b] on two ints: the correctly rounded quotient *)
Definition int_truediv (a b : Z) : result float :=
  if b =? 0 then Raise (Exn ZeroDivisionError "division by zero")
  else
    let q := SFdiv prec emax (raw a) (raw b) in
    if overflow q
    then Raise (Exn OverflowError "integer division result too large for a float")
    else Ok q.

Definition mul (x y : float) : float := SFmul prec emax x y.

(** [x * n] and [n * x] for a float and an int *)
Definition mul_int (x : float) (n : Z) : result float :=
  y ← of_int n; Ok (mul x y).

(** [min(x, y)]: the second argument only when it is smaller *)
Definition min (x y : float) : float :=
  if SFltb y x then y else x.

(** [int(x)]: truncation towards zero *)
Definition to_int (x : float) : result Z :=
  match x with
  | S754_zero _ => Ok 0
  | S754_finite s m e =>
      let a := match e with
               | Zneg _ => Z.shiftr (Zpos m) (- e)
               | _ => Z.shiftl (Zpos m) e
               end in
      Ok (if s then - a else a)
  | S754_infinity _ =>
      Raise (Exn OverflowError "cannot convert float infinity to integer")
  | S754_nan => Raise (Exn ValueError "cannot convert float NaN to integer")
  end.

Definition zero : float := S754_zero false.
Definition hundred : float := binary_normalize prec emax 100 0 false.

End float.

(** ** Data classes of [image_converter.py] *)

Record ConversionResult := {
  source_path : Path;
  output_path : option Path;
  success : bool;
  original_size : Z;
  new_size : Z;
  error_message : string;
}.

Definition size_saved (r : ConversionResult) : Z :=
  Z.max 0 (original_size r - new_size r).

Definition compression_ratio (r : ConversionResult) : result float.float :=
  if original_size r =? 0 then Ok float.zero
  else
    q ← float.int_truediv (size_saved r) (original_size r);
    Ok (float.mul q float.hundred).

Record ConversionSettings := {
  input_format : string;
  output_format : string;
  quality : Z;
  recursive : bool;
  delete_original : bool;
  preserve_metadata : bool;
  resize_enabled : bool;
  resize_width : Z;
  resize_height : Z;
  maintain_aspect_ratio : bool;
  apply_optimization : bool;
  rename_pattern : string;
  add_suffix : string;
  output_directory : string;
  max_workers : Z;
}.

(** the defaults of the dataclass *)
Definition default_settings : ConversionSettings := {|
  input_format := "All Images";
  output_format := "WebP";
  quality := 80;
  recursive := true;
  delete_original := false;
  preserve_metadata := true;
  resize_enabled := false;
  resize_width := 0;
  resize_height := 0;
  maintain_aspect_ratio := true;
  apply_optimization := true;
  rename_pattern := "";
  add_suffix := "";
  output_directory := "";
  max_workers := 4;
|}.

(** ** Constants of [image_converter.py] *)

Definition INPUT_FORMATS : gmap string (list string) :=
  list_to_map [
    ("PNG", [".png"]);
    ("JPEG", [".jpg"; ".jpeg"]);
    ("WebP", [".webp"]);
    ("BMP", [".bmp"]);
    ("GIF", [".gif"]);
    ("TIFF", [".tiff"; ".tif"]);
    ("ICO", [".ico"]);
    ("All Images",
       [".png"; ".jpg"; ".jpeg"; ".webp"; ".bmp"; ".gif"; ".tiff"; ".tif"])
  ].

Record format_config := {
  ext : string;
  fc_quality : bool;
  fc_optimize : bool;
}.

Definition OUTPUT_FORMATS : gmap string format_config :=
  list_to_map [
    ("WebP", {| ext := ".webp"; fc_quality := true; fc_optimize := true |});
    ("PNG", {| ext := ".png"; fc_quality := false; fc_optimize := true |});
    ("JPEG", {| ext := ".jpg"; fc_quality := true; fc_optimize := true |});
    ("BMP", {| ext := ".bmp"; fc_quality := false; fc_optimize := false |});
    ("GIF", {| ext := ".gif"; fc_quality := false; fc_optimize := true |});
    ("TIFF", {| ext := ".tiff"; fc_quality := true; fc_optimize := false |});
    ("ICO", {| ext := ".ico"; fc_quality := false; fc_optimize := false |})
  ].

(** [OUTPUT_FORMATS[key]]: a missing key raises [KeyError] *)
Definition OUTPUT_FORMATS_getitem (key : string) : result format_config :=
  match OUTPUT_FORMATS !! key with
  | Some c => Ok c
  | None => Raise (Exn KeyError key)
  end.

(** ** Calls that leave the program *)

Record image := { mode : string; size : Z * Z }.

Inductive kwarg := kw_int (n : Z) | kw_bool (b : bool).

(** what the PyQt worker writes to its log, before formatting *)
Inductive log_text :=
  | Scanning (directory : Path)
  | NoImagesFound
  | FoundImages (total : nat)
  | OutputFormatLine (fmt : string) (q : Z)
  | Rule
  | Cancelled
  | ConvertedLine (r : ConversionResult)
  | FailedLine (source_name : string) (message : string).

Inductive signal :=
  | progress (current total : nat)
  | log_message (text : log_text) (type : string)
  | conversion_complete (results : list ConversionResult)
  | file_converted (r : ConversionResult).

(** what the Tkinter application writes to its log, before formatting *)
Inductive mensagem :=
  | Iniciando (origem : Path)
  | QualidadeConfigurada (q : Z)
  | Linha
  | Convertido (relativo : Path) (saida : string) (tamanho_novo : Z)
               (economia : option Z)
  | ErroAoConverter (nome : string) (erro : string)
  | Finalizada
  | ResumoConvertidos (convertidos : Z)
  | ResumoErros (erros : Z)
  | ResumoEconomia (total_economia : Z)
  | ErroFatal (erro : string).

Inductive call :=
  (* file system and clock *)
  | stat (p : Path)
  | mkdir (p : Path)
  | unlink (p : Path)
  | strftime (fmt : string)
  (* Pillow *)
  | Image_open (p : Path)
  | Image_new (md : string) (sz : Z * Z)
  | Image_split
  | Image_paste
  | Image_convert (md : string)
  | Image_resize (sz : Z * Z)
  | Image_save (p : Path) (fmt : string) (kwargs : list (string * kwarg))
  (* the worker thread of the PyQt application *)
  | emit (s : signal)
  | ThreadPoolExecutor (workers : Z)
  | submit (img : Path)
  | completed (img : Path)
  | read_is_cancelled
  (* the Tkinter application *)
  | adicionar_log (m : mensagem) (tipo : string)
  | restaurar_interface.

(** The environment: what each call returns, given everything that was
    called before it. *)
Record Env := {
  st_size : list call → Path → result Z;
  do_mkdir : list call → Path → result unit;
  do_unlink : list call → Path → result unit;
  clock : list call → string → string;
  pil_open : list call → Path → result image;
  pil : list call → call → result unit;
}.

(** A computation reads the history, extends it and returns or raises. *)
Definition M (A : Type) : Type := list call → result A * list call.

#[global] Instance M_ret : MRet M := λ A a h, (Ok a, h).
#[global] Instance M_bind : MBind M := λ A B f m h,
  match m h with
  | (Ok a, h') => f a h'
  | (Raise e, h') => (Raise e, h')
  end.

(** perform call [c], answered by [answer] *)
Definition perform {A} (c : call) (answer : list call → result A) : M A :=
  λ h, (answer h, h ++ [c]).

(** lift a computation that calls nothing *)
Definition pure {A} (r : result A) : M A := λ h, (r, h).

(** [try: body  except <classes> as e: handler e] *)
Definition try_except {A} (body : M A) (classes : exn → bool)
    (handler : exn → M A) : M A :=
  λ h, match body h with
       | (Ok a, h') => (Ok a, h')
       | (Raise e, h') => if classes e then handler e h' else (Raise e, h')
       end.

(** ** [ConversionWorker] *)

Record ConversionWorker := {
  directory : Path;
  settings : ConversionSettings;
  _is_cancelled : bool;
}.

(** [ConversionWorker(directory, settings)] *)
Definition new_worker (dir : string) (s : ConversionSettings) : ConversionWorker :=
  {| directory := pathlib.of_str dir; settings := s; _is_cancelled := false |}.

Definition cancel (w : ConversionWorker) : ConversionWorker :=
  {| directory := directory w; settings := settings w; _is_cancelled := true |}.

Definition get_input_extensions (w : ConversionWorker) : list string :=
  default (INPUT_FORMATS !!! "All Images")
          (INPUT_FORMATS !! input_format (settings w)).

(** the list [images] before duplicates are removed; [tree] is the content
    of [self.directory] when it is scanned *)
Definition globbed_images (w : ConversionWorker) (tree : list fs.entry) : list Path :=
  let extensions := get_input_extensions w in
  if recursive (settings w) then
    flat_map (λ ext, fs.rglob (directory w) tree ("*" +:+ ext) ++
                     fs.rglob (directory w) tree ("*" +:+ Py.upper ext))
             extensions
  else
    flat_map (λ ext, fs.glob (directory w) tree ("*" +:+ ext) ++
                     fs.glob (directory w) tree ("*" +:+ Py.upper ext))
             extensions.

Definition find_images (w : ConversionWorker) (tree : list fs.entry) : list Path :=
  let images := globbed_images w tree in
  (* images = list(set(images)) *)
  let images := elements (list_to_set images : gset Path) in
  (* images.sort() *)
  merge_sort pathlib.le images.

(** the stem of the output file: rename pattern, then suffix *)
Definition output_stem (env : Env) (w : ConversionWorker) (source : Path) : M string :=
  let stem := pathlib.stem source in
  stem ← (if Py.truthy (rename_pattern (settings w)) then
            let pattern := rename_pattern (settings w) in
            let pattern := Py.replace pattern "{name}" stem in
            date ← perform (strftime "%Y%m%d") (λ h, Ok (clock env h "%Y%m%d"));
            let pattern := Py.replace pattern "{date}" date in
            time ← perform (strftime "%H%M%S") (λ h, Ok (clock env h "%H%M%S"));
            let pattern := Py.replace pattern "{time}" time in
            mret pattern
          else mret stem);
  mret (if Py.truthy (add_suffix (settings w))
        then stem +:+ add_suffix (settings w) else stem).

(** the directory the output goes to; it is created when it is configured *)
Definition output_dir_of (env : Env) (w : ConversionWorker) (source : Path) : M Path :=
  if Py.truthy (output_directory (settings w)) then
    let output_dir := pathlib.of_str (output_directory (settings w)) in
    relative ← pure (match pathlib.relative_to (pathlib.parent source) (directory w) with
                     | Some r => Ok r
                     | None => Raise (Exn ValueError "is not in the subpath of")
                     end);
    let output_dir := pathlib.join output_dir relative in
    perform (mkdir output_dir) (λ h, do_mkdir env h output_dir);;
    mret output_dir
  else mret (pathlib.parent source).

Definition generate_output_path (env : Env) (w : ConversionWorker) (source : Path)
    : M Path :=
  cfg ← pure (OUTPUT_FORMATS_getitem (output_format (settings w)));
  let output_ext := ext cfg in
  stem ← output_stem env w source;
  output_dir ← output_dir_of env w source;
  mret (pathlib.joinpath output_dir (stem +:+ output_ext)).

(** [a or b] on ints *)
Definition int_or (a b : Z) : Z := if a =? 0 then b else a.
Definition int_truthy (a : Z) : bool := negb (a =? 0).

Definition calculate_resize (w : ConversionWorker) (original : Z * Z)
    : result (Z * Z) :=
  let s := settings w in
  let '(width, height) := original in
  let new_width := int_or (resize_width s) width in
  let new_height := int_or (resize_height s) height in
  if maintain_aspect_ratio s then
    if int_truthy (resize_width s) && negb (int_truthy (resize_height s)) then
      ratio ← float.int_truediv new_width width;
      scaled ← float.mul_int ratio height;
      new_height ← float.to_int scaled;
      Ok (new_width, new_height)
    else if int_truthy (resize_height s) && negb (int_truthy (resize_width s)) then
      ratio ← float.int_truediv new_height height;
      scaled ← float.mul_int ratio width;
      new_width ← float.to_int scaled;
      Ok (new_width, new_height)
    else if int_truthy (resize_width s) && int_truthy (resize_height s) then
      rw ← float.int_truediv new_width width;
      rh ← float.int_truediv new_height height;
      let ratio := float.min rw rh in
      scaled_w ← float.mul_int ratio width;
      new_width ← float.to_int scaled_w;
      scaled_h ← float.mul_int ratio height;
      new_height ← float.to_int scaled_h;
      Ok (new_width, new_height)
    else Ok (new_width, new_height)
  else Ok (new_width, new_height).

(** the keyword arguments of [img.save], in insertion order *)
Definition save_kwargs (s : ConversionSettings) (cfg : format_config)
    : list (string * kwarg) :=
  let fmt := output_format s in
  (if fc_quality cfg && negb (Py.eqb fmt "PNG")
   then [("quality", kw_int (quality s))] else []) ++
  (if fc_optimize cfg && apply_optimization s
   then [("optimize", kw_bool true)] else []) ++
  (if Py.eqb fmt "WebP" then [("method", kw_int 6)] else []) ++
  (if Py.eqb fmt "PNG" then [("compress_level", kw_int 9)] else []).

(** the body of the [with Image.open(source) as img:] block *)
Definition transcode (env : Env) (w : ConversionWorker) (source output_path : Path)
    : M unit :=
  let s := settings w in
  img ← perform (Image_open source) (λ h, pil_open env h source);
  let fmt := output_format s in
  img ← (if Py.eqb (mode img) "RGBA" && Py.in_list fmt ["JPEG"; "BMP"] then
           let new := Image_new "RGB" (size img) in
           perform new (λ h, pil env h new);;
           perform Image_split (λ h, pil env h Image_split);;
           perform Image_paste (λ h, pil env h Image_paste);;
           mret {| mode := "RGB"; size := size img |}
         else if Py.eqb (mode img) "P" && Py.in_list fmt ["JPEG"] then
           perform (Image_convert "RGB") (λ h, pil env h (Image_convert "RGB"));;
           mret {| mode := "RGB"; size := size img |}
         else mret img);
  img ← (if resize_enabled s then
           new_size ← pure (calculate_resize w (size img));
           if bool_decide (new_size ≠ size img) then
             perform (Image_resize new_size) (λ h, pil env h (Image_resize new_size));;
             mret {| mode := mode img; size := new_size |}
           else mret img
         else mret img);
  format_config ← pure (OUTPUT_FORMATS_getitem fmt);
  let kwargs := save_kwargs s format_config in
  let save := Image_save output_path (Py.upper (Py.drop 1 (ext format_config))) kwargs in
  perform save (λ h, pil env h save).

(** everything inside the [try:] of [convert_single_image] *)
Definition convert_body (env : Env) (w : ConversionWorker)
    (source output_path : Path) (original : Z) : M ConversionResult :=
  transcode env w source output_path;;
  new ← perform (stat output_path) (λ h, st_size env h output_path);
  (if delete_original (settings w) && negb (bool_decide (source = output_path))
   then perform (unlink source) (λ h, do_unlink env h source)
   else mret ());;
  mret {| source_path := source; output_path := Some output_path;
          success := true; original_size := original; new_size := new;
          error_message := "" |}.

Definition convert_single_image (env : Env) (w : ConversionWorker) (source : Path)
    : M ConversionResult :=
  original ← perform (stat source) (λ h, st_size env h source);
  output_path ← generate_output_path env w source;
  try_except (convert_body env w source output_path original)
    is_Exception
    (λ e, mret {| source_path := source; output_path := None;
                  success := false; original_size := original; new_size := 0;
                  error_message := exn_str e |}).

(** *** [ConversionWorker.run]

    The worker thread and the pool.  What the worker thread does is a
    computation in [M]; the tasks run on the pool's threads, each against
    the environment it meets, and the worker only sees what
    [future.result()] gives.  Three things are not decided by the program
    and are parameters: the order in which the futures complete
    ([choices]), what the GUI thread does to the worker object between two
    reads of the flag ([clicked]: whether it calls [cancel()]), and the
    environments of the tasks ([envs]).

    The call [completed img] marks the point where the worker thread knows
    that the task of [img] is over: its future is handed out by
    [as_completed], or the pool is shut down with [wait=True] when the
    [with] block is left. *)

(** [future.result()]: what [convert_single_image] returned or raised on the
    pool thread *)
Definition future_result (envs : Path → Env) (w : ConversionWorker) (img : Path)
    : result ConversionResult :=
  (convert_single_image (envs img) w img []).1.

(** [as_completed(futures)]: every future, in the order of completion; each
    choice picks the next one among those still pending *)
Fixpoint as_completed (choices : list nat) (pending : list Path) : list Path :=
  match choices with
  | [] => pending
  | c :: choices' =>
      match pending !! (c mod length pending)%nat with
      | Some img => img :: as_completed choices' (delete (c mod length pending)%nat pending)
      | None => pending
      end
  end.

Definition emit_signal (s : signal) : M unit := perform (emit s) (λ _, Ok ()).

(** the log line of a finished conversion *)
Definition result_line (r : ConversionResult) : result (log_text * string) :=
  if success r then
    match output_path r with
    | Some _ =>
        _ ← float.int_truediv (new_size r) 1024;
        _ ← compression_ratio r;
        Ok (ConvertedLine r, "success")
    | None => Raise (Exn OtherException "'NoneType' object has no attribute 'name'")
    end
  else Ok (FailedLine (pathlib.name (source_path r)) (error_message r), "error").

(** the loop [for i, future in enumerate(as_completed(futures))], from its
    [i]-th round on; it returns [results] *)
Fixpoint collect (outcome : Path → result ConversionResult) (clicked : nat → bool)
    (total : nat) (i : nat) (w : ConversionWorker) (order : list Path)
    (results : list ConversionResult) : M (list ConversionResult) :=
  match order with
  | [] => mret results
  | img :: order' =>
      perform (completed img) (λ _, Ok ());;
      let w := if clicked i then cancel w else w in
      flag ← perform read_is_cancelled (λ _, Ok (_is_cancelled w));
      if flag : bool then
        emit_signal (log_message Cancelled "warning");;
        mret results
      else
        result ← pure (outcome img);
        let results := results ++ [result] in
        line ← pure (result_line result);
        emit_signal (log_message line.1 line.2);;
        emit_signal (file_converted result);;
        emit_signal (progress (i + 1) total);;
        collect outcome clicked total (S i) w order' results
  end.

(** the images submitted so far and not known to be complete *)
Definition submitted (h : list call) : list Path :=
  omap (λ c, match c with submit img => Some img | _ => None end) h.
Definition known_complete (h : list call) : list Path :=
  omap (λ c, match c with completed img => Some img | _ => None end) h.
Definition outstanding (h : list call) : list Path :=
  filter (λ img, img ∉ known_complete h) (submitted h).

(** [with ThreadPoolExecutor(max_workers=n) as executor: body]: leaving the
    block, normally or not, waits for every submitted task *)
Definition with_executor {A} (n : Z) (body : M A) : M A :=
  perform (ThreadPoolExecutor n)
    (λ _, if n <=? 0
          then Raise (Exn ValueError "max_workers must be greater than 0")
          else Ok ());;
  ((λ h, let '(r, h') := body h in
         (r, h' ++ map completed (outstanding h'))) : M A).

Fixpoint submit_all (images : list Path) : M unit :=
  match images with
  | [] => mret ()
  | img :: images' => perform (submit img) (λ _, Ok ());; submit_all images'
  end.

Definition run (envs : Path → Env) (choices : list nat) (clicked : nat → bool)
    (w : ConversionWorker) (tree : list fs.entry) : M unit :=
  let results := [] in
  emit_signal (log_message (Scanning (directory w)) "info");;
  let images := find_images w tree in
  if bool_decide (images = []) then
    emit_signal (log_message NoImagesFound "warning");;
    emit_signal (conversion_complete results)
  else
    let total := length images in
    emit_signal (log_message (FoundImages total) "info");;
    emit_signal (log_message
      (OutputFormatLine (output_format (settings w)) (quality (settings w))) "info");;
    emit_signal (log_message Rule "info");;
    results ← with_executor (max_workers (settings w))
      (submit_all images;;
       collect (future_result envs w) clicked total 0 w
               (as_completed choices images) results);
    emit_signal (conversion_complete results).

(** ** Duplicate detection ([ImageConverterPro.find_duplicates]) *)

(** [hashlib.md5]: the digest function is a parameter *)
Record Hasher := {
  hstate : Type;
  md5_new : hstate;
  md5_update : hstate → string → hstate;
  md5_hexdigest : hstate → string;
}.

(** what a hash object promises: feeding data in pieces is feeding it whole *)
Record HasherLaws (H : Hasher) : Prop := {
  update_empty : ∀ s, md5_update H s "" = s;
  update_app : ∀ s a b, md5_update H (md5_update H s a) b = md5_update H s (a +:+ b);
}.

(** the MD5 digest of a whole byte string *)
Definition md5 (H : Hasher) (content : string) : string :=
  md5_hexdigest H (md5_update H (md5_new H) content).

Definition chunk_size : nat := 4096.

(** [for chunk in iter(lambda: f.read(4096), b""): hasher.update(chunk)];
    [f] is what is left to read, [fuel] bounds the number of rounds *)
Fixpoint read_chunks (H : Hasher) (fuel : nat) (hasher : hstate H) (f : string)
    : hstate H :=
  match fuel with
  | O => hasher
  | S fuel' =>
      let chunk := Py.take chunk_size f in
      if Py.truthy chunk
      then read_chunks H fuel' (md5_update H hasher chunk) (Py.drop chunk_size f)
      else hasher
  end.

Definition get_file_hash (H : Hasher) (file : fs.entry) : result string :=
  match file with
  | fs.File _ (fs.Readable content) =>
      Ok (md5_hexdigest H (read_chunks H (S (String.length content)) (md5_new H) content))
  | fs.File _ (fs.Unreadable why) => Raise (Exn OSError why)
  | fs.Dir _ _ => Raise (Exn OSError "[Errno 21] Is a directory")
  end.

Definition duplicate_extensions : list string :=
  [".png"; ".jpg"; ".jpeg"; ".webp"; ".bmp"; ".gif"; ".tiff"].

(** [hash_dict]: a dict in insertion order.
    [if k in d: d[k].append(v) else: d[k] = [v]] *)
Fixpoint dict_append (k : string) (v : Path) (d : list (string * list Path))
    : list (string * list Path) :=
  match d with
  | [] => [(k, [v])]
  | (k', vs) :: d' =>
      if decide (k = k') then (k', vs ++ [v]) :: d'
      else (k', vs) :: dict_append k v d'
  end.

(** the entries [find_duplicates] hashes *)
Definition scanned (dir : Path) (tree : list fs.entry) : list (Path * fs.entry) :=
  filter (λ pe, Py.in_list (Py.lower (pathlib.suffix pe.1)) duplicate_extensions = true)
         (fs.rglob_entries dir tree "*").

(** the first loop: fill [hash_dict] *)
Fixpoint fill_hash_dict (H : Hasher) (files : list (Path * fs.entry))
    (hash_dict : list (string * list Path)) : result (list (string * list Path)) :=
  match files with
  | [] => Ok hash_dict
  | (file, e) :: files' =>
      file_hash ← get_file_hash H e;
      fill_hash_dict H files' (dict_append file_hash file hash_dict)
  end.

Inductive list_item :=
  | GroupHeader (n : nat)
  | FileItem (name : string) (tooltip : Path)
  | NoDuplicatesFound
  | FoundGroups (n : nat).

(** the second loop: the items of the groups with more than one file *)
Fixpoint group_items (groups : list (list Path)) (duplicates_found : nat)
    : list list_item * nat :=
  match groups with
  | [] => ([], duplicates_found)
  | files :: groups' =>
      if (1 <? length files)%nat then
        let duplicates_found := S duplicates_found in
        let '(items, n) := group_items groups' duplicates_found in
        (GroupHeader duplicates_found :: map (λ f, FileItem (pathlib.name f) f) files
           ++ items, n)
      else group_items groups' duplicates_found
  end.

(** what the window shows after [find_duplicates] on a valid directory: the
    items of [duplicate_list] and the text of the error box, if any *)
Definition find_duplicates (H : Hasher) (dir : Path) (tree : list fs.entry)
    : result (list list_item * option string) :=
  match fill_hash_dict H (scanned dir tree) [] with
  | Ok hash_dict =>
      let '(items, duplicates_found) := group_items hash_dict.*2 0 in
      if (duplicates_found =? 0)%nat then Ok (items ++ [NoDuplicatesFound], None)
      else Ok (FoundGroups duplicates_found :: items, None)
  | Raise e =>
      if is_Exception e then Ok ([], Some ("Search failed: " +:+ exn_str e))
      else Raise e
  end.

(** the items that display a list of groups, numbered from [n + 1] *)
Fixpoint group_display (n : nat) (groups : list (list Path)) : list list_item :=
  match groups with
  | [] => []
  | files :: groups' =>
      GroupHeader (S n) :: map (λ f, FileItem (pathlib.name f) f) files
        ++ group_display (S n) groups'
  end.

(** ** [conversor_webp.py]: the Tkinter application *)

Module conversor_webp.

(** the counters of [converter_imagens] *)
Record contadores := {
  convertidos : Z;
  erros : Z;
  total_economia : Z;
}.

(** A computation that also updates the counters; they keep what was
    assigned before an exception is raised. *)
Definition Tk (A : Type) : Type :=
  contadores → list call → result A * contadores * list call.

#[global] Instance Tk_ret : MRet Tk := λ A a c h, (Ok a, c, h).
#[global] Instance Tk_bind : MBind Tk := λ A B f m c h,
  match m c h with
  | (Ok a, c', h') => f a c' h'
  | (Raise e, c', h') => (Raise e, c', h')
  end.

Definition lift {A} (m : M A) : Tk A :=
  λ c h, let '(r, h') := m h in (r, c, h').
Definition get : Tk contadores := λ c h, (Ok c, c, h).
Definition put (c : contadores) : Tk unit := λ _ h, (Ok (), c, h).

Definition try_except {A} (body : Tk A) (classes : exn → bool)
    (handler : exn → Tk A) : Tk A :=
  λ c h, match body c h with
         | (Ok a, c', h') => (Ok a, c', h')
         | (Raise e, c', h') =>
             if classes e then handler e c' h' else (Raise e, c', h')
         end.

(** [try: body  finally: cleanup] *)
Definition try_finally {A} (body : Tk A) (cleanup : Tk unit) : Tk A :=
  λ c h, match body c h with
         | (r, c', h') =>
             match cleanup c' h' with
             | (Ok _, c'', h'') => (r, c'', h'')
             | (Raise e, c'', h'') => (Raise e, c'', h'')
             end
         end.

Definition adicionar (m : mensagem) (tipo : string) : Tk unit :=
  lift (perform (adicionar_log m tipo) (λ _, Ok ())).

Definition extensoes_validas : list string := [".png"; ".jpg"; ".jpeg"].

(** the body of the inner [try:] for one file *)
Definition converter_corpo (env : Env) (path_origem : Path) (qualidade : Z)
    (arquivo : Path) : Tk unit :=
  img ← lift (perform (Image_open arquivo) (λ h, pil_open env h arquivo));
  arquivo_saida ← lift (pure (match pathlib.with_suffix arquivo ".webp" with
                              | Some p => Ok p
                              | None => Raise (Exn ValueError "has an empty name")
                              end));
  let save := Image_save arquivo_saida "webp"
                [("quality", kw_int qualidade); ("optimize", kw_bool true)] in
  lift (perform save (λ h, pil env h save));;
  tamanho_orig ← lift (perform (stat arquivo) (λ h, st_size env h arquivo));
  tamanho_novo ← lift (perform (stat arquivo_saida) (λ h, st_size env h arquivo_saida));
  let economia := tamanho_orig - tamanho_novo in
  (if 0 <? economia then
     c ← get;
     put {| convertidos := convertidos c; erros := erros c;
            total_economia := total_economia c + economia |};;
     _ ← lift (pure (float.int_truediv economia tamanho_orig));
     relativo ← lift (pure (match pathlib.relative_to arquivo path_origem with
                            | Some r => Ok r
                            | None => Raise (Exn ValueError "is not in the subpath of")
                            end));
     _ ← lift (pure (float.int_truediv tamanho_novo 1024));
     adicionar (Convertido relativo (pathlib.name arquivo_saida) tamanho_novo
                           (Some economia)) "sucesso"
   else
     relativo ← lift (pure (match pathlib.relative_to arquivo path_origem with
                            | Some r => Ok r
                            | None => Raise (Exn ValueError "is not in the subpath of")
                            end));
     _ ← lift (pure (float.int_truediv tamanho_novo 1024));
     adicionar (Convertido relativo (pathlib.name arquivo_saida) tamanho_novo None)
               "sucesso");;
  c ← get;
  put {| convertidos := convertidos c + 1; erros := erros c;
         total_economia := total_economia c |}.

(** one file: the inner [try: ... except (OSError, ValueError) as e: ...] *)
Definition converter_arquivo (env : Env) (path_origem : Path) (qualidade : Z)
    (arquivo : Path) : Tk unit :=
  try_except (converter_corpo env path_origem qualidade arquivo)
    is_OSError_or_ValueError
    (λ e,
       adicionar (ErroAoConverter (pathlib.name arquivo) (exn_str e)) "erro";;
       c ← get;
       put {| convertidos := convertidos c; erros := erros c + 1;
              total_economia := total_economia c |}).

(** [for arquivo in path_origem.rglob('*'): if arquivo.is_file() and ...] *)
Fixpoint percorrer (env : Env) (path_origem : Path) (qualidade : Z)
    (arquivos : list (Path * fs.entry)) : Tk unit :=
  match arquivos with
  | [] => mret ()
  | (arquivo, e) :: arquivos' =>
      (if fs.is_file e &&
          Py.in_list (Py.lower (pathlib.suffix arquivo)) extensoes_validas
       then converter_arquivo env path_origem qualidade arquivo
       else mret ());;
      percorrer env path_origem qualidade arquivos'
  end.

Definition converter_imagens (env : Env) (path_origem : Path) (qualidade : Z)
    (tree : list fs.entry) : Tk unit :=
  try_finally
    (try_except
       (put {| convertidos := 0; erros := 0; total_economia := 0 |};;
        adicionar (Iniciando path_origem) "info";;
        adicionar (QualidadeConfigurada qualidade) "info";;
        adicionar Linha "normal";;
        percorrer env path_origem qualidade (fs.rglob_entries path_origem tree "*");;
        adicionar Linha "normal";;
        adicionar Finalizada "resumo";;
        c ← get;
        adicionar (ResumoConvertidos (convertidos c)) "resumo";;
        (if 0 <? erros c then adicionar (ResumoErros (erros c)) "resumo"
         else mret ());;
        adicionar (ResumoEconomia (total_economia c)) "resumo")
       is_OSError_or_ValueError
       (λ e, adicionar (ErroFatal (exn_str e)) "erro"))
    (lift (perform restaurar_interface (λ _, Ok ()))).

End conversor_webp.


(** * Vocabulary of the properties *)

(** ** Histories *)

(** [m] only appends to the history, and every call it appends satisfies [P] *)
Definition appends {A} (P : call → Prop) (m : M A) : Prop :=
  ∀ h r h', m h = (r, h') → ∃ new, h' = h ++ new ∧ Forall P new.

(** the calls that are not [unlink] *)
Definition not_unlink (c : call) : Prop :=
  match c with unlink _ => False | _ => True end.

(** a call that, if it is an [unlink], is the guarded one of
    [convert_single_image] *)
Definition guarded_unlink (w : ConversionWorker) (source out : Path) (c : call) : Prop :=
  ∀ p, c = unlink p →
    delete_original (settings w) = true ∧ p = source ∧ source ≠ out.

(** the result [convert_single_image] builds in its [except] branch *)
Definition failure (source : Path) (original : Z) (e : exn) : ConversionResult :=
  {| source_path := source; output_path := None; success := false;
     original_size := original; new_size := 0; error_message := exn_str e |}.

(** ** Inputs of the examples *)

Definition worker_example : ConversionWorker :=
  new_worker "/data/imgs" default_settings.

Definition source_example : Path := ["/"; "data"; "imgs"; "a.png"].

(** every call succeeds; the source has 1000 bytes, the output 250 *)
Definition env_ok : Env := {|
  st_size := λ h _, if bool_decide (h = []) then Ok 1000 else Ok 250;
  do_mkdir := λ _ _, Ok ();
  do_unlink := λ _ _, Ok ();
  clock := λ _ fmt, if bool_decide (fmt = "%Y%m%d") then "20240131" else "235959";
  pil_open := λ _ _, Ok {| mode := "RGB"; size := (640, 480) |};
  pil := λ _ _, Ok ();
|}.

(** [Image.open] raises [e] *)
Definition env_open_raises (e : exn) : Env := {|
  st_size := st_size env_ok;
  do_mkdir := do_mkdir env_ok;
  do_unlink := do_unlink env_ok;
  clock := clock env_ok;
  pil_open := λ _ _, Raise e;
  pil := pil env_ok;
|}.


(** the default settings with three of them chosen *)
Definition settings_with (delete : bool) (suffix out_dir : string)
    : ConversionSettings := {|
  input_format := "All Images"; output_format := "WebP"; quality := 80;
  recursive := true; delete_original := delete; preserve_metadata := true;
  resize_enabled := false; resize_width := 0; resize_height := 0;
  maintain_aspect_ratio := true; apply_optimization := true;
  rename_pattern := ""; add_suffix := suffix; output_directory := out_dir;
  max_workers := 4 |}.

(** the worker with [delete_original] switched on *)
Definition worker_deleting : ConversionWorker :=
  new_worker "/data/imgs" (settings_with true "" "").

(** a suffix with a path separator in it *)
Definition worker_slash_suffix : ConversionWorker :=
  new_worker "/data/imgs" (settings_with false "/thumb" "").

(** an output directory is configured *)
Definition worker_relocating : ConversionWorker :=
  new_worker "/data/imgs" (settings_with false "_small" "/data/out").

(** a scanned directory that holds a directory named like an image *)
Definition tree_with_album : list fs.entry :=
  [fs.Dir "album.png" [fs.File "notes.txt" (fs.Readable "x")];
   fs.File "b.jpg" (fs.Readable "y")].

(** ** The history of a run *)

(** the results handed to the window, one [file_converted] signal each *)
Definition reported (h : list call) : list ConversionResult :=
  omap (λ c, match c with emit (file_converted r) => Some r | _ => None end) h.

Definition cancelled_line : call := emit (log_message Cancelled "warning").

(** the calls of the result loop: one round per future handed out.  A round
    starts with the completion and the read of the flag; then the loop is
    left on cancellation, or an exception ends it, or the result is logged
    and reported and the next round follows. *)
Inductive rounds : list call → Prop :=
  | rounds_done : rounds []
  | rounds_cancelled img :
      rounds [completed img; read_is_cancelled; cancelled_line]
  | rounds_raised img :
      rounds [completed img; read_is_cancelled]
  | rounds_reported img text type r i total rest :
      text ≠ Cancelled →
      rounds rest →
      rounds (completed img :: read_is_cancelled ::
              emit (log_message text type) :: emit (file_converted r) ::
              emit (progress i total) :: rest).


(** the four log lines that open a run with images *)
Definition header (w : ConversionWorker) (total : nat) : list call :=
  [emit (log_message (Scanning (directory w)) "info");
   emit (log_message (FoundImages total) "info");
   emit (log_message
           (OutputFormatLine (output_format (settings w)) (quality (settings w)))
           "info");
   emit (log_message Rule "info")].

(** the calls of the result loop *)
Definition loop_call (c : call) : Prop :=
  match c with
  | completed _ | read_is_cancelled
  | emit (log_message _ _) | emit (file_converted _) | emit (progress _ _) => True
  | _ => False
  end.

(** a scanned directory with a subdirectory *)
Definition tree_example : list fs.entry :=
  [fs.File "b.png" (fs.Readable "bbbb");
   fs.File "a.PNG" (fs.Readable "aaaa");
   fs.File "notes.txt" (fs.Readable "n");
   fs.Dir "sub" [fs.File "c.jpeg" (fs.Readable "cccc")]].

(** a run over [tree_example]: the futures complete in the order
    [b.png], [a.PNG], [sub/c.jpeg], and the user cancels before the second
    read of the flag *)
Definition run_example : result unit * list call :=
  run (λ _, env_ok) [1; 0]%nat (λ i, bool_decide (i = 1%nat))
      worker_example tree_example [].

(** ** Duplicate groups *)

(** [d.get(k)] on a dict in insertion order *)
Fixpoint dict_get (k : string) (d : list (string * list Path)) : option (list Path) :=
  match d with
  | [] => None
  | (k', vs) :: d' => if decide (k = k') then Some vs else dict_get k d'
  end.

(** a group that is displayed: more than one file *)
Definition is_duplicate_group (files : list Path) : Prop := (1 < length files)%nat.

#[global] Instance is_duplicate_group_dec files : Decision (is_duplicate_group files).
Proof. unfold is_duplicate_group. apply _. Defined.

(** what [duplicate_list] shows for a list of duplicate groups *)
Definition duplicates_display (groups : list (list Path)) : list list_item :=
  match groups with
  | [] => [NoDuplicatesFound]
  | _ :: _ => FoundGroups (length groups) :: group_display 0 groups
  end.

(** the bytes of a regular file that can be read *)
Definition content_of (e : fs.entry) : option string :=
  match e with
  | fs.File _ (fs.Readable content) => Some content
  | _ => None
  end.

(** a stand-in for MD5 in the examples: the digest is the content itself *)
Definition identity_hasher : Hasher := {|
  hstate := string;
  md5_new := "";
  md5_update := λ s data, s +:+ data;
  md5_hexdigest := λ s, s;
|}.

(** two copies of one image, a third image, and a directory named like an
    image *)
Definition tree_with_copies : list fs.entry :=
  [fs.File "a.png" (fs.Readable "same bytes");
   fs.File "b.PNG" (fs.Readable "same bytes");
   fs.File "c.jpg" (fs.Readable "other bytes")].

Definition tree_with_copies_and_album : list fs.entry :=
  tree_with_copies ++ [fs.Dir "album.png" []].

(** the first loop of [find_duplicates] when every hash is known: the files
    with their digests, appended one after the other *)
Definition group_by_digest (keyed : list (Path * string))
    (hash_dict : list (string * list Path)) : list (string * list Path) :=
  foldl (λ d pk, dict_append pk.2 pk.1 d) hash_dict keyed.

(** the files of digest [k], in scan order *)
Definition with_digest (k : string) (keyed : list (Path * string)) : list Path :=
  (filter (λ pk, pk.2 = k) keyed).*1.

(** the scanned entries with the MD5 digest of their content *)
Definition scanned_digests (H : Hasher) (dir : Path) (tree : list fs.entry)
    : list (Path * string) :=
  map (λ pe, (pe.1, md5 H (default "" (content_of pe.2)))) (scanned dir tree).

(** ** Names, scopes and kinds of calls *)

(** a file name: one component, neither empty nor ["."] *)
Definition plain_name (s : string) : Prop :=
  Py.contains "/" s = false ∧ s ≠ "" ∧ s ≠ ".".

(** every extension of [OUTPUT_FORMATS] is a dot and at least one more
    character, without a separator *)
Definition extension_like (e : string) : Prop :=
  Py.contains "/" e = false ∧ (2 ≤ String.length e)%nat.

(** the entries [find_images] looks at *)
Definition in_scope (w : ConversionWorker) (tree : list fs.entry) : list (Path * fs.entry) :=
  if recursive (settings w) then fs.walk (directory w) tree
  else fs.listdir (directory w) tree.

(** the calls around the result loop: none is of the loop *)
Definition around_loop (c : call) : Prop :=
  match c with
  | ThreadPoolExecutor _ | submit _ | completed _
  | emit (conversion_complete _) | emit (log_message (Scanning _) _)
  | emit (log_message (FoundImages _) _)
  | emit (log_message (OutputFormatLine _ _) _)
  | emit (log_message Rule _) | emit (log_message NoImagesFound _) => True
  | _ => False
  end.

(** the calls that are not the [conversion_complete] signal *)
Definition not_complete (c : call) : Prop :=
  match c with emit (conversion_complete _) => False | _ => True end.

(** * Further vocabulary *)

(** ** What [convert_single_image] calls, and when *)

(** the calls [transcode] makes on the opened image before it saves *)
Definition before_save (c : call) : Prop :=
  match c with
  | Image_open _ | Image_new _ _ | Image_split | Image_paste
  | Image_convert _ | Image_resize _ => True
  | _ => False
  end.

(** a call that, if it is a save, writes [out] in the format and with the
    keyword arguments that [OUTPUT_FORMATS] and the settings give *)
Definition saves_as (w : ConversionWorker) (out : Path) (c : call) : Prop :=
  ∀ p fmt kwargs, c = Image_save p fmt kwargs →
    p = out ∧
    ∃ cfg, OUTPUT_FORMATS !! output_format (settings w) = Some cfg ∧
           fmt = Py.upper (Py.drop 1 (ext cfg)) ∧
           kwargs = save_kwargs (settings w) cfg.

(** a call that, if it is a resize, was asked for: resizing is switched on
    and a width or a height is given *)
Definition resize_requested (w : ConversionWorker) (c : call) : Prop :=
  ∀ sz, c = Image_resize sz →
    resize_enabled (settings w) = true ∧
    (resize_width (settings w) ≠ 0 ∨ resize_height (settings w) ≠ 0).

(** the calls of [generate_output_path]: the clock and [mkdir] *)
Definition path_call (c : call) : Prop :=
  match c with strftime _ | mkdir _ => True | _ => False end.

(** a call that, if it opens an image, opens [source] *)
Definition opens_only (source : Path) (c : call) : Prop :=
  ∀ p, c = Image_open p → p = source.

(** the worker of the examples with another output format *)
Definition worker_jpeg : ConversionWorker :=
  new_worker "/data/imgs" {|
    input_format := "All Images"; output_format := "JPEG"; quality := 80;
    recursive := true; delete_original := false; preserve_metadata := true;
    resize_enabled := false; resize_width := 0; resize_height := 0;
    maintain_aspect_ratio := true; apply_optimization := true;
    rename_pattern := ""; add_suffix := ""; output_directory := "";
    max_workers := 4 |}.

(** the worker of the examples asked to halve the width of a 640x480 image *)
Definition worker_resizing : ConversionWorker :=
  new_worker "/data/imgs" {|
    input_format := "All Images"; output_format := "WebP"; quality := 80;
    recursive := true; delete_original := false; preserve_metadata := true;
    resize_enabled := true; resize_width := 320; resize_height := 0;
    maintain_aspect_ratio := true; apply_optimization := true;
    rename_pattern := ""; add_suffix := ""; output_directory := "";
    max_workers := 4 |}.


(** an extension: a dot and at least one more character, with no other dot
    and no separator *)
Definition dot_extension (e : string) : Prop :=
  ∃ e', e = String "." e' ∧ e' ≠ "" ∧
        Py.contains "." e' = false ∧ Py.contains "/" e' = false.

(** ** The window of the PyQt application *)

(** [on_output_format_changed]: whether the quality slider is enabled, and
    the text the quality label is set to, if it is set *)
Definition on_output_format_changed (format_name : string) : bool * option string :=
  (* config.get('quality', False), with config = OUTPUT_FORMATS.get(format_name, {}) *)
  let quality := match OUTPUT_FORMATS !! format_name with
                 | Some config => fc_quality config
                 | None => false
                 end in
  (quality, if quality then None else Some "N/A").

(** ** Signals of a run *)

(** the [progress] signals of a history: [(current, total)] *)
Definition progress_signals (h : list call) : list (nat * nat) :=
  omap (λ c, match c with emit (progress i total) => Some (i, total) | _ => None end) h.

(** the [conversion_complete] signals of a history *)
Definition completions (h : list call) : list (list ConversionResult) :=
  omap (λ c, match c with emit (conversion_complete rs) => Some rs | _ => None end) h.

(** a directory whose only image has a mixed-case extension *)
Definition tree_mixed_case : list fs.entry :=
  [fs.File "photo.Png" (fs.Readable "pppp");
   fs.File "notes.txt" (fs.Readable "n")].

(** ** The Tkinter application: what a pass converts and calls *)

(** the entries [converter_imagens] converts: the regular files whose
    suffix, in lower case, is one of [extensoes_validas] *)
Definition elegivel (pe : Path * fs.entry) : bool :=
  fs.is_file pe.2 &&
  Py.in_list (Py.lower (pathlib.suffix pe.1)) conversor_webp.extensoes_validas.

Definition elegiveis (path_origem : Path) (tree : list fs.entry)
    : list (Path * fs.entry) :=
  filter (λ pe, elegivel pe = true) (fs.rglob_entries path_origem tree "*").

(** [m] only appends to the history, and every call it appends satisfies [P] *)
Definition Tk_appends {A} (P : call → Prop) (m : conversor_webp.Tk A) : Prop :=
  ∀ c h r c' h', m c h = (r, c', h') → ∃ new, h' = h ++ new ∧ Forall P new.

(** what the conversion of [arquivo] may call: it opens [arquivo], saves
    [arquivo.with_suffix('.webp')] as WebP with the chosen quality, reads the
    sizes of the two files and writes to the log *)
Definition chamada_de (qualidade : Z) (arquivo : Path) (c : call) : Prop :=
  match c with
  | Image_open p => p = arquivo
  | Image_save p fmt kwargs =>
      pathlib.with_suffix arquivo ".webp" = Some p ∧ fmt = "webp" ∧
      kwargs = [("quality", kw_int qualidade); ("optimize", kw_bool true)]
  | stat p => p = arquivo ∨ pathlib.with_suffix arquivo ".webp" = Some p
  | adicionar_log _ _ => True
  | _ => False
  end.

(** a call of a pass over [tree]: a call of the conversion of one of the
    eligible files, or a line of the log *)
Definition chamada_do_passo (path_origem : Path) (qualidade : Z)
    (arquivos : list (Path * fs.entry)) (c : call) : Prop :=
  (∃ m tipo, c = adicionar_log m tipo) ∨
  ∃ arquivo e, (arquivo, e) ∈ arquivos ∧ elegivel (arquivo, e) = true ∧
               chamada_de qualidade arquivo c.

(** the lines of the log *)
Definition log_lines (h : list call) : list (mensagem * string) :=
  omap (λ c, match c with adicionar_log m tipo => Some (m, tipo) | _ => None end) h.

(** a call of a whole [converter_imagens]: a call of the pass, or the
    restoring of the interface in the [finally] block *)
Definition chamada_da_conversao (path_origem : Path) (qualidade : Z)
    (arquivos : list (Path * fs.entry)) (c : call) : Prop :=
  c = restaurar_interface ∨ chamada_do_passo path_origem qualidade arquivos c.

(** the lines that close the log of a pass that was not interrupted *)
Definition resumo (c : conversor_webp.contadores) : list call :=
  [adicionar_log Linha "normal"; adicionar_log Finalizada "resumo";
   adicionar_log (ResumoConvertidos (conversor_webp.convertidos c)) "resumo"]
  ++ (if 0 <? conversor_webp.erros c
      then [adicionar_log (ResumoErros (conversor_webp.erros c)) "resumo"] else [])
  ++ [adicionar_log (ResumoEconomia (conversor_webp.total_economia c)) "resumo"].

(** the counters at the start of a pass *)
Definition contadores_zerados : conversor_webp.contadores :=
  {| conversor_webp.convertidos := 0; conversor_webp.erros := 0;
     conversor_webp.total_economia := 0 |}.

(** the three lines that open the log of a pass *)
Definition abertura (path_origem : Path) (qualidade : Z) : list call :=
  [adicionar_log (Iniciando path_origem) "info";
   adicionar_log (QualidadeConfigurada qualidade) "info";
   adicionar_log Linha "normal"].

(** ** The window of the PyQt application: a conversion session

    The part of [ImageConverterPro] that the slots of the worker's signals
    read and write: the running total, the two buttons, the log area and the
    history table.  The progress bar, the labels and the status bar are not
    part of it; texts are kept before formatting, and the clock is left
    out. *)

(** what the window itself writes to its log *)
Inductive summary_text :=
  | SummaryRule
  | ConversionCompleteLine
  | FilesConvertedLine (successful : Z)
  | FilesFailedLine (failed : Z)
  | TotalSavedLine (total_saved : Z)
  | TotalTimeLine.

(** a line of [log_area]: a [log_message] signal of the worker, or a line
    of the window, with its type *)
Inductive log_entry :=
  | FromWorker (text : log_text) (msg_type : string)
  | FromWindow (text : summary_text) (msg_type : string).

Inductive history_status := StatusSuccess | StatusPartial.

(** a row of [history_table], without its date *)
Record history_row := {
  row_files : Z * nat;             (* f"{successful}/{len(results)}" *)
  row_formats : string * string;
  row_saved : Z;                   (* bytes, shown in MB *)
  row_status : history_status;
}.

Record window := {
  total_saved : Z;
  convert_btn : bool;
  cancel_btn : bool;
  log_area : list log_entry;
  history_table : list history_row;
}.

(** [sum(...)] over ints *)
Definition sum_int (l : list Z) : Z := foldl Z.add 0 l.

(** [sum(1 for r in results if r.success)] *)
Definition successful_of (results : list ConversionResult) : Z :=
  sum_int (map (λ _, 1) (filter (λ r, success r = true) results)).

(** [sum(r.size_saved for r in results if r.success)] *)
Definition total_saved_of (results : list ConversionResult) : Z :=
  sum_int (map size_saved (filter (λ r, success r = true) results)).

(** [x / 1024 / 1024] in an f-string: the conversion of the int to a float
    is what can raise *)
Definition megabytes (x : Z) : result unit :=
  _ ← float.int_truediv x 1024; Ok ().

(** what [start_conversion] does to this state once the directory is
    accepted *)
Definition start_conversion (win : window) : window :=
  {| total_saved := 0; convert_btn := false; cancel_btn := true;
     log_area := []; history_table := history_table win |}.

(** [self.log_message(message, msg_type)] *)
Definition window_log (win : window) (e : log_entry) : window :=
  {| total_saved := total_saved win; convert_btn := convert_btn win;
     cancel_btn := cancel_btn win; log_area := log_area win ++ [e];
     history_table := history_table win |}.

Definition on_file_converted (win : window) (result : ConversionResult)
    : exc.result window :=
  if success result then
    let win := {| total_saved := total_saved win + size_saved result;
                  convert_btn := convert_btn win; cancel_btn := cancel_btn win;
                  log_area := log_area win; history_table := history_table win |} in
    megabytes (total_saved win);;
    Ok win
  else Ok win.

Definition add_to_history (s : ConversionSettings) (win : window)
    (results : list ConversionResult) : exc.result window :=
  let successful := successful_of results in
  let total_saved' := total_saved_of results in
  megabytes total_saved';;
  Ok {| total_saved := total_saved win; convert_btn := convert_btn win;
        cancel_btn := cancel_btn win; log_area := log_area win;
        history_table :=
          history_table win ++
          [{| row_files := (successful, length results);
              row_formats := (input_format s, output_format s);
              row_saved := total_saved';
              row_status := if successful =? Z.of_nat (length results)
                            then StatusSuccess else StatusPartial |}] |}.

Definition on_conversion_complete (s : ConversionSettings) (win : window)
    (results : list ConversionResult) : exc.result window :=
  let win := {| total_saved := total_saved win; convert_btn := true;
                cancel_btn := false; log_area := log_area win;
                history_table := history_table win |} in
  let successful := successful_of results in
  let failed := Z.of_nat (length results) - successful in
  let total_saved' := total_saved_of results in
  let win := window_log win (FromWindow SummaryRule "info") in
  let win := window_log win (FromWindow ConversionCompleteLine "success") in
  let win := window_log win (FromWindow (FilesConvertedLine successful) "success") in
  let win := if 0 <? failed
             then window_log win (FromWindow (FilesFailedLine failed) "error")
             else win in
  megabytes total_saved';;
  let win := window_log win (FromWindow (TotalSavedLine total_saved') "info") in
  let win := window_log win (FromWindow TotalTimeLine "info") in
  add_to_history s win results.

(** the slot a signal of the worker is connected to *)
Definition deliver (s : ConversionSettings) (win : window) (c : call)
    : exc.result window :=
  match c with
  | emit (log_message text msg_type) => Ok (window_log win (FromWorker text msg_type))
  | emit (file_converted r) => on_file_converted win r
  | emit (conversion_complete results) => on_conversion_complete s win results
  | _ => Ok win
  end.

(** the signals of a history, delivered in the order of emission *)
Fixpoint deliver_all (s : ConversionSettings) (win : window) (h : list call)
    : exc.result window :=
  match h with
  | [] => Ok win
  | c :: h' => win ← deliver s win c; deliver_all s win h'
  end.

(** a window before its first session *)
Definition window_example : window :=
  {| total_saved := 0; convert_btn := true; cancel_btn := false;
     log_area := []; history_table := [] |}.

(** the lines the worker's [log_message] signals add to the log *)
Definition worker_lines (h : list call) : list log_entry :=
  omap (λ c, match c with
             | emit (log_message text msg_type) => Some (FromWorker text msg_type)
             | _ => None
             end) h.

(** ** [ImageConverterPro.batch_rename] *)

(** the calls of [batch_rename] that leave the program *)
Inductive rename_call :=
  | now_strftime (fmt : string)
  | rename (src dst : Path).

(** what the clock shows and what [file.rename] answers, given the calls
    made before *)
Record RenameEnv := {
  rename_clock : list rename_call → string → string;
  do_rename : list rename_call → Path → Path → result unit;
}.

Inductive message_box :=
  | WarningBox (text : string)
  | InformationBox (renamed : nat)     (* f"Successfully renamed {n} files." *)
  | CriticalBox (text : string).

(** [s.zfill(width)] for a string without sign *)
Fixpoint zeros (n : nat) : string :=
  match n with
  | O => ""
  | S n' => String "0" (zeros n')
  end.
Definition zfill (width : nat) (s : string) : string :=
  zeros (width - String.length s) +:+ s.

Definition rename_extensions : list string :=
  [".png"; ".jpg"; ".jpeg"; ".webp"; ".bmp"; ".gif"; ".tiff"].

(** the body of the loop: the new path of [file] *)
Definition new_path_of (pattern : string) (file : Path) (date time : string)
    (counter : nat) : Path :=
  let new_name := pattern in
  let new_name := Py.replace new_name "{name}" (pathlib.stem file) in
  let new_name := Py.replace new_name "{date}" date in
  let new_name := Py.replace new_name "{time}" time in
  let new_name := Py.replace new_name "{counter}" (zfill 4 (pretty counter)) in
  pathlib.joinpath (pathlib.parent file) (new_name +:+ pathlib.suffix file).

(** [for file in sorted(files): ...], from the value of [counter] on; it
    returns the final counter *)
Fixpoint rename_each (env : RenameEnv) (pattern : string) (files : list Path)
    (counter : nat) (h : list rename_call) : result nat * list rename_call :=
  match files with
  | [] => (Ok counter, h)
  | file :: files' =>
      let date := rename_clock env h "%Y%m%d" in
      let h := h ++ [now_strftime "%Y%m%d"] in
      let time := rename_clock env h "%H%M%S" in
      let h := h ++ [now_strftime "%H%M%S"] in
      let new_path := new_path_of pattern file date time counter in
      match do_rename env h file new_path with
      | Ok _ => rename_each env pattern files' (S counter) (h ++ [rename file new_path])
      | Raise e => (Raise e, h ++ [rename file new_path])
      end
  end.

(** the files [batch_rename] renames, in the order of the loop: the entries
    of the directory (files and directories alike) with a known suffix *)
Definition files_to_rename (path : Path) (tree : list fs.entry) : list Path :=
  let files := filter (λ f, Py.in_list (Py.lower (pathlib.suffix f)) rename_extensions = true)
                      (fs.listdir path tree).*1 in
  merge_sort pathlib.le files.

(** [directory] is the text of the input field, [isdir] what
    [os.path.isdir(directory)] answers, [tree] the content of the directory;
    the result is the message box shown *)
Definition batch_rename (env : RenameEnv) (directory : string) (isdir : bool)
    (pattern : string) (tree : list fs.entry)
    : result message_box * list rename_call :=
  if negb (Py.truthy directory) || negb isdir then
    (Ok (WarningBox "Please select a valid directory."), [])
  else if negb (Py.truthy pattern) then
    (Ok (WarningBox "Please enter a rename pattern."), [])
  else
    let path := pathlib.of_str directory in
    match rename_each env pattern (files_to_rename path tree) 1 [] with
    | (Ok counter, h) => (Ok (InformationBox (counter - 1)), h)
    | (Raise e, h) =>
        if is_Exception e
        then (Ok (CriticalBox ("Rename failed: " +:+ exn_str e)), h)
        else (Raise e, h)
    end.

(** the renames of a history: source and destination *)
Definition renames (h : list rename_call) : list (Path * Path) :=
  omap (λ c, match c with rename src dst => Some (src, dst) | _ => None end) h.

(** a clock that stands still, and renames that succeed *)
Definition rename_env_ok : RenameEnv := {|
  rename_clock := λ _ fmt, if bool_decide (fmt = "%Y%m%d") then "20240131" else "235959";
  do_rename := λ _ _ _, Ok ();
|}.

(** the second rename fails *)
Definition rename_env_second_fails : RenameEnv := {|
  rename_clock := rename_clock rename_env_ok;
  do_rename := λ h _ _,
    if bool_decide (length (renames h) = 1%nat)
    then Raise (Exn OSError "[Errno 13] Permission denied") else Ok ();
|}.

(** ** The Tkinter window: starting a conversion

    The state that [iniciar_conversao] and the [finally] block of
    [converter_imagens] read and write, and the conversion threads alive.
    The handlers of the window run on the main thread; a conversion thread
    takes its steps in between. *)

(** the two warnings of [iniciar_conversao] *)
Inductive aviso := SelecioneDiretorio | ConversaoEmAndamento.

(** where a conversion thread is in [converter_imagens]: in its [try]
    block, or in its [finally] block after the first or the second of its
    three statements *)
Inductive fase := NoTry | FlagReposta | BotaoReposto.

#[global] Instance fase_eq_dec : EqDecision fase.
Proof. solve_decision. Defined.

Record janela := {
  diretorio_selecionado : string;
  convertendo : bool;
  btn_converter : bool;          (* state 'normal' *)
  progress_bar : bool;           (* the bar is running *)
  avisos : list aviso;           (* the warnings in the log area *)
  threads : list fase;
}.

Definition janela_inicial : janela :=
  {| diretorio_selecionado := ""; convertendo := false; btn_converter := true;
     progress_bar := false; avisos := []; threads := [] |}.

(** [escolher_diretorio], with the answer of the dialog *)
Definition escolher_diretorio (diretorio : string) (j : janela) : janela :=
  if Py.truthy diretorio then
    {| diretorio_selecionado := diretorio; convertendo := convertendo j;
       btn_converter := btn_converter j; progress_bar := progress_bar j;
       avisos := avisos j; threads := threads j |}
  else j.

Definition avisar (a : aviso) (j : janela) : janela :=
  {| diretorio_selecionado := diretorio_selecionado j; convertendo := convertendo j;
     btn_converter := btn_converter j; progress_bar := progress_bar j;
     avisos := avisos j ++ [a]; threads := threads j |}.

Definition iniciar_conversao (j : janela) : janela :=
  if negb (Py.truthy (diretorio_selecionado j)) then avisar SelecioneDiretorio j
  else if convertendo j then avisar ConversaoEmAndamento j
  else
    (* the log is cleared, the flag set, the button disabled, the bar
       started, and the thread started *)
    {| diretorio_selecionado := diretorio_selecionado j; convertendo := true;
       btn_converter := false; progress_bar := true;
       avisos := []; threads := threads j ++ [NoTry] |}.

(** the next step of the [i]-th thread alive: it leaves its [try] block and
    resets the flag, then enables the button, then stops the bar and ends *)
Definition avancar (i : nat) (j : janela) : janela :=
  match threads j !! i with
  | Some NoTry =>
      {| diretorio_selecionado := diretorio_selecionado j; convertendo := false;
         btn_converter := btn_converter j; progress_bar := progress_bar j;
         avisos := avisos j; threads := <[i := FlagReposta]> (threads j) |}
  | Some FlagReposta =>
      {| diretorio_selecionado := diretorio_selecionado j; convertendo := convertendo j;
         btn_converter := true; progress_bar := progress_bar j;
         avisos := avisos j; threads := <[i := BotaoReposto]> (threads j) |}
  | Some BotaoReposto =>
      {| diretorio_selecionado := diretorio_selecionado j; convertendo := convertendo j;
         btn_converter := btn_converter j; progress_bar := false;
         avisos := avisos j; threads := delete i (threads j) |}
  | None => j
  end.

(** what can happen to the window *)
Inductive evento :=
  | Escolher (diretorio : string)
  | Clicar
  | Avancar (i : nat).

Definition passo (j : janela) (e : evento) : janela :=
  match e with
  | Escolher diretorio => escolher_diretorio diretorio j
  | Clicar => iniciar_conversao j
  | Avancar i => avancar i j
  end.

(** the threads that are converting: in their [try] block *)
Definition a_converter (j : janela) : nat :=
  length (filter (λ f, f = NoTry) (threads j)).
(** * Properties *)

(** ** The embedding at work *)

Example upper_of_extension : Py.upper ".jpeg" = ".JPEG".
Proof. reflexivity. Qed.

Example lower_of_suffix : Py.lower ".JpEg" = ".jpeg".
Proof. reflexivity. Qed.

Example replace_every_occurrence :
  Py.replace "{name}_{date}_{name}" "{name}" "img" = "img_{date}_img".
Proof. reflexivity. Qed.

Example split_keeps_empty_fields : Py.split "/" "a//b/" = ["a"; ""; "b"; ""].
Proof. reflexivity. Qed.

Example path_of_string :
  pathlib.of_str "//a/./b//c/" = ["//"; "a"; "b"; "c"] ∧
  pathlib.of_str "///a/../b" = ["/"; "a"; ".."; "b"] ∧
  pathlib.of_str "" = [] ∧
  pathlib.joinpath ["/"; "a"] "b/c.webp" = ["/"; "a"; "b"; "c.webp"] ∧
  pathlib.joinpath ["/"; "a"] "/tmp/c.webp" = ["/"; "tmp"; "c.webp"].
Proof. repeat split. Qed.

Example stem_and_suffix :
  pathlib.stem ["a.tar.gz"] = "a.tar" ∧ pathlib.suffix ["a.tar.gz"] = ".gz" ∧
  pathlib.stem [".png"] = ".png" ∧ pathlib.suffix [".png"] = "" ∧
  pathlib.stem ["photo."] = "photo." ∧ pathlib.suffix ["x"; "a.PNG"] = ".PNG".
Proof. repeat split. Qed.

Example glob_patterns :
  fnmatch.fnmatchcase "*.png" "a.png" = true ∧
  fnmatch.fnmatchcase "*.png" ".png" = true ∧
  fnmatch.fnmatchcase "*.png" "a.PNG" = false ∧
  fnmatch.fnmatchcase "*.PNG" "a.PNG" = true ∧
  fnmatch.fnmatchcase "*.tif" "a.tiff" = false ∧
  fnmatch.fnmatchcase "*" "anything" = true.
Proof. repeat split. Qed.

Example relative_paths :
  pathlib.relative_to ["/"; "data"; "imgs"; "2024"] ["/"; "data"; "imgs"] = Some ["2024"] ∧
  pathlib.relative_to ["/"; "data"; "other"] ["/"; "data"; "imgs"] = None ∧
  pathlib.relative_to ["/"; "data"] [] = None ∧
  pathlib.relative_to ["data"] [] = Some ["data"].
Proof. repeat split. Qed.

(** ** Computations in [M]: how the history grows *)


Lemma appends_ret {A} P (a : A) : appends P (mret a).
Proof. intros h r h' [= <- <-]. exists []. by rewrite app_nil_r. Qed.

Lemma appends_pure {A} P (x : result A) : appends P (pure x).
Proof. intros h r h' [= <- <-]. exists []. by rewrite app_nil_r. Qed.

Lemma appends_perform {A} (P : call → Prop) c (answer : list call → result A) :
  P c → appends P (perform c answer).
Proof. intros Hc h r h' [= <- <-]. exists [c]. split; [done|]. by constructor. Qed.

Lemma appends_bind {A B} P (m : M A) (f : A → M B) :
  appends P m → (∀ a, appends P (f a)) → appends P (m ≫= f).
Proof.
  intros Hm Hf h r h' Hrun. unfold mbind, M_bind in Hrun.
  destruct (m h) as [[a|e] h1] eqn:Hmh.
  - destruct (Hm _ _ _ Hmh) as (n1 & -> & H1).
    destruct (Hf a _ _ _ Hrun) as (n2 & -> & H2).
    exists (n1 ++ n2). split; [by rewrite app_assoc|]. by apply Forall_app.
  - injection Hrun as <- <-. by apply (Hm _ _ _ Hmh).
Qed.

Lemma appends_try_except {A} P (body : M A) classes handler :
  appends P body → (∀ e, appends P (handler e)) →
  appends P (try_except body classes handler).
Proof.
  intros Hb Hh h r h' Hrun. unfold try_except in Hrun.
  destruct (body h) as [[a|e] h1] eqn:Hbh.
  - injection Hrun as <- <-. by apply (Hb _ _ _ Hbh).
  - destruct (classes e).
    + destruct (Hb _ _ _ Hbh) as (n1 & -> & H1).
      destruct (Hh e _ _ _ Hrun) as (n2 & -> & H2).
      exists (n1 ++ n2). split; [by rewrite app_assoc|]. by apply Forall_app.
    + injection Hrun as <- <-. by apply (Hb _ _ _ Hbh).
Qed.

Lemma appends_if {A} P (b : bool) (m1 m2 : M A) :
  appends P m1 → appends P m2 → appends P (if b then m1 else m2).
Proof. by destruct b. Qed.

Lemma appends_weaken {A} (P Q : call → Prop) (m : M A) :
  (∀ c, P c → Q c) → appends P m → appends Q m.
Proof.
  intros HPQ Hm h r h' Hrun. destruct (Hm _ _ _ Hrun) as (new & -> & Hnew).
  exists new. split; [done|]. eapply Forall_impl; eauto.
Qed.

Create HintDb appends discriminated.
#[export] Hint Resolve appends_ret appends_pure appends_perform appends_bind
  appends_try_except appends_if : appends.

Ltac appends_step :=
  first
    [ apply appends_ret | apply appends_pure
    | apply appends_perform
    | apply appends_bind; [|intros ?]
    | apply appends_try_except; [|intros ?]
    | apply appends_if
    | match goal with |- appends _ (match ?x with _ => _ end) => destruct x end ].
Ltac solve_appends := repeat appends_step; try done.


Lemma transcode_appends env w source out :
  appends not_unlink (transcode env w source out).
Proof. unfold transcode. solve_appends. Qed.

Lemma output_stem_appends env w source :
  appends not_unlink (output_stem env w source).
Proof. unfold output_stem. solve_appends. Qed.

Lemma output_dir_of_appends env w source :
  appends not_unlink (output_dir_of env w source).
Proof. unfold output_dir_of. solve_appends. Qed.

Lemma generate_output_path_appends env w source :
  appends not_unlink (generate_output_path env w source).
Proof.
  unfold generate_output_path. solve_appends;
    auto using output_stem_appends, output_dir_of_appends.
Qed.


Lemma not_unlink_guarded w source out c :
  not_unlink c → guarded_unlink w source out c.
Proof. intros Hc p ->. destruct Hc. Qed.

Lemma convert_body_appends env w source out original :
  appends (guarded_unlink w source out) (convert_body env w source out original).
Proof.
  unfold convert_body.
  apply appends_bind; [|intros _].
  { eapply appends_weaken; [apply not_unlink_guarded|apply transcode_appends]. }
  apply appends_bind; [|intros new].
  { apply appends_perform. by intros p [=]. }
  apply appends_bind; [|intros _; apply appends_ret].
  destruct (delete_original (settings w)) eqn:Hdel; simpl; [|apply appends_ret].
  destruct (bool_decide (source = out)) eqn:Hsame; simpl; [apply appends_ret|].
  apply appends_perform. intros p [= <-].
  apply bool_decide_eq_false in Hsame. done.
Qed.

(** what [convert_body] returns when it returns *)
Lemma convert_body_returns env w source out original h r h' :
  convert_body env w source out original h = (Ok r, h') →
  source_path r = source ∧ output_path r = Some out ∧ success r = true ∧
  original_size r = original ∧ error_message r = "".
Proof.
  unfold convert_body, mbind, M_bind. intros Hrun.
  destruct (transcode env w source out h) as [[[]|e] h1]; [|done].
  destruct (perform (stat out) _ h1) as [[new|e] h2]; [|done].
  destruct (_ h2) as [[[]|e] h3]; [|done].
  injection Hrun as <- <-. done.
Qed.


(** [convert_single_image] once [stat] and [generate_output_path] returned *)
Lemma convert_single_image_unfold env w source h original out h1 :
  st_size env h source = Ok original →
  generate_output_path env w source (h ++ [stat source]) = (Ok out, h1) →
  convert_single_image env w source h =
    match convert_body env w source out original h1 with
    | (Ok r, h2) => (Ok r, h2)
    | (Raise e, h2) =>
        if is_Exception e then (Ok (failure source original e), h2)
        else (Raise e, h2)
    end.
Proof.
  intros Hstat Hgen. unfold convert_single_image, mbind, M_bind, perform.
  rewrite Hstat, Hgen. unfold try_except.
  by destruct (convert_body _ _ _ _ _ _) as [[r|e] h2].
Qed.

(** [convert_single_image] when [stat] or [generate_output_path] raises *)
Lemma convert_single_image_stat_raises env w source h e :
  st_size env h source = Raise e →
  convert_single_image env w source h = (Raise e, h ++ [stat source]).
Proof.
  intros Hstat. unfold convert_single_image, mbind, M_bind, perform.
  by rewrite Hstat.
Qed.

Lemma convert_single_image_path_raises env w source h original e h1 :
  st_size env h source = Ok original →
  generate_output_path env w source (h ++ [stat source]) = (Raise e, h1) →
  convert_single_image env w source h = (Raise e, h1).
Proof.
  intros Hstat Hgen. unfold convert_single_image, mbind, M_bind, perform.
  by rewrite Hstat, Hgen.
Qed.

(** ** The result records *)


Example compression_ratio_75 :
  compression_ratio {| source_path := source_example; output_path := None;
                       success := true; original_size := 1000; new_size := 250;
                       error_message := "" |}
  = Ok (S754_finite false 5277655813324800 (-46)).
Proof. reflexivity. Qed.

Example compression_ratio_grown :
  compression_ratio {| source_path := source_example; output_path := None;
                       success := true; original_size := 100; new_size := 250;
                       error_message := "" |}
  = Ok float.zero.
Proof. reflexivity. Qed.

(** ** One image *)

(** C6, as amended.  Every [ConversionResult] that [convert_single_image]
    returns is a success ([success] true, [output_path] set, [error_message]
    empty) or an error ([success] false, [output_path] [None], [new_size] 0,
    [error_message] the text of the exception caught, which is empty when
    the exception has no text). *)
Theorem conversion_result_shapes env w source h r h' :
  convert_single_image env w source h = (Ok r, h') →
  (success r = true ∧ is_Some (output_path r) ∧ error_message r = "") ∨
  (success r = false ∧ output_path r = None ∧ new_size r = 0 ∧
   ∃ original out h1 e,
     convert_body env w source out original h1 = (Raise e, h') ∧
     is_Exception e = true ∧ error_message r = exn_str e).
Proof.
  intros Hrun.
  destruct (st_size env h source) as [original|e] eqn:Hstat.
  2: { by rewrite (convert_single_image_stat_raises _ _ _ _ _ Hstat) in Hrun. }
  destruct (generate_output_path env w source (h ++ [stat source]))
    as [[out|e] h1] eqn:Hpath.
  2: { by rewrite (convert_single_image_path_raises _ _ _ _ _ _ _ Hstat Hpath) in Hrun. }
  rewrite (convert_single_image_unfold _ _ _ _ _ _ _ Hstat Hpath) in Hrun.
  destruct (convert_body env w source out original h1) as [[r'|e] h2] eqn:Hbody.
  - injection Hrun as <- <-. left.
    destruct (convert_body_returns _ _ _ _ _ _ _ _ Hbody) as (_ & Hout & ? & _ & ?).
    rewrite Hout. eauto.
  - destruct (is_Exception e) eqn:He; [|done].
    injection Hrun as <- <-. right. repeat split. by exists original, out, h1, e.
Qed.

Lemma conversion_result_shapes_witness :
  (success (failure source_example 1000 (Exn OSError "cannot identify image file")) = true ∧
   is_Some (output_path (failure source_example 1000 (Exn OSError "cannot identify image file"))) ∧
   error_message (failure source_example 1000 (Exn OSError "cannot identify image file")) = "") ∨
  (success (failure source_example 1000 (Exn OSError "cannot identify image file")) = false ∧
   output_path (failure source_example 1000 (Exn OSError "cannot identify image file")) = None ∧
   new_size (failure source_example 1000 (Exn OSError "cannot identify image file")) = 0 ∧
   ∃ original out h1 e,
     convert_body (env_open_raises (Exn OSError "cannot identify image file"))
       worker_example source_example out original h1
     = (Raise e, [stat source_example; Image_open source_example]) ∧
     is_Exception e = true ∧
     error_message (failure source_example 1000 (Exn OSError "cannot identify image file"))
     = exn_str e).
Proof.
  apply (conversion_result_shapes
           (env_open_raises (Exn OSError "cannot identify image file"))
           worker_example source_example []).
  reflexivity.
Defined.

(** C6, as it was stated, fails: an exception without text ([MemoryError()]
    from the image library, say) gives an error result whose [error_message]
    is empty. *)
Lemma error_message_can_be_empty :
  ∃ r h',
    convert_single_image (env_open_raises (Exn OtherException ""))
      worker_example source_example [] = (Ok r, h') ∧
    ¬ ((success r = true ∧ is_Some (output_path r) ∧ error_message r = "") ∨
       (success r = false ∧ output_path r = None ∧ new_size r = 0 ∧
        error_message r ≠ "")).
Proof.
  eexists _, _. split; [reflexivity|].
  intros [(Hs & _)|(_ & _ & _ & Hm)]; [discriminate Hs|by apply Hm].
Qed.

(** C9.  [convert_single_image] calls [source.unlink()] only when
    [delete_original] is on and the source path differs from the output
    path it computed; the output path itself is never unlinked, so a file
    converted onto its own path keeps what was just written. *)
Theorem unlink_only_when_requested_and_distinct env w source h r h' :
  convert_single_image env w source h = (r, h') →
  ∃ new, h' = h ++ new ∧
    (∀ p, unlink p ∈ new →
       delete_original (settings w) = true ∧ p = source ∧
       ∃ out h1, generate_output_path env w source (h ++ [stat source]) = (Ok out, h1) ∧
                 source ≠ out) ∧
    (∀ out h1, generate_output_path env w source (h ++ [stat source]) = (Ok out, h1) →
       unlink out ∉ new).
Proof.
  intros Hrun.
  destruct (st_size env h source) as [original|e] eqn:Hstat.
  2: { rewrite (convert_single_image_stat_raises _ _ _ _ _ Hstat) in Hrun.
       injection Hrun as <- <-. exists [stat source]. split; [done|].
       split; [intros p|intros out h1 _]; by rewrite list_elem_of_singleton. }
  destruct (generate_output_path env w source (h ++ [stat source]))
    as [[out|e] h1] eqn:Hpath;
    destruct (generate_output_path_appends _ _ _ _ _ _ Hpath) as (n1 & -> & Hn1).
  2: { rewrite (convert_single_image_path_raises _ _ _ _ _ _ _ Hstat Hpath) in Hrun.
       injection Hrun as <- <-. exists (stat source :: n1).
       split; [by rewrite <- app_assoc|].
       split; [intros p Hp|intros ? ? [=]]. exfalso.
       apply elem_of_cons in Hp as [[=]|Hp].
       by apply (proj1 (Forall_forall _ _) Hn1) in Hp. }
  rewrite (convert_single_image_unfold _ _ _ _ _ _ _ Hstat Hpath) in Hrun.
  destruct (convert_body env w source out original ((h ++ [stat source]) ++ n1))
    as [[r'|e] h2] eqn:Hbody;
    destruct (convert_body_appends _ _ _ _ _ _ _ _ Hbody) as (n2 & -> & Hn2).
  all: assert (h' = h ++ stat source :: n1 ++ n2) as ->
    by (destruct r' || destruct (is_Exception e); injection Hrun as <- <-;
        by rewrite <- !app_assoc).
  all: exists (stat source :: n1 ++ n2); split; [done|].
  all: assert (∀ p, unlink p ∈ stat source :: n1 ++ n2 →
                    delete_original (settings w) = true ∧ p = source ∧ source ≠ out)
    as Hguard
    by (intros p [[=]|[Hp|Hp]%elem_of_app]%elem_of_cons;
        [by apply (proj1 (Forall_forall _ _) Hn1) in Hp
        |by apply (proj1 (Forall_forall _ _) Hn2 _ Hp p)]).
  all: split;
    [intros p Hp; destruct (Hguard p Hp) as (? & ? & ?); eauto 6
    |intros out' h1' [= <- <-] Hp; by destruct (Hguard _ Hp) as (_ & -> & ?)].
Qed.

Lemma unlink_only_when_requested_and_distinct_witness :
  ∃ new,
    [stat source_example; Image_open source_example;
     Image_save ["/"; "data"; "imgs"; "a.webp"] "WEBP"
       [("quality", kw_int 80); ("optimize", kw_bool true); ("method", kw_int 6)];
     stat ["/"; "data"; "imgs"; "a.webp"]; unlink source_example] = [] ++ new ∧
    (∀ p, unlink p ∈ new →
       delete_original (settings worker_deleting) = true ∧ p = source_example ∧
       ∃ out h1,
         generate_output_path env_ok worker_deleting source_example
           ([] ++ [stat source_example]) = (Ok out, h1) ∧
         source_example ≠ out) ∧
    (∀ out h1,
       generate_output_path env_ok worker_deleting source_example
         ([] ++ [stat source_example]) = (Ok out, h1) →
       unlink out ∉ new).
Proof.
  eapply (unlink_only_when_requested_and_distinct env_ok worker_deleting
            source_example []).
  reflexivity.
Defined.

(** a WebP file converted to WebP in place: the output path is the source
    path, and nothing is unlinked although [delete_original] is on *)
Example in_place_keeps_output :
  (convert_single_image env_ok worker_deleting ["/"; "data"; "imgs"; "a.webp"] []).2
  = [stat ["/"; "data"; "imgs"; "a.webp"]; Image_open ["/"; "data"; "imgs"; "a.webp"];
     Image_save ["/"; "data"; "imgs"; "a.webp"] "WEBP"
       [("quality", kw_int 80); ("optimize", kw_bool true); ("method", kw_int 6)];
     stat ["/"; "data"; "imgs"; "a.webp"]].
Proof. reflexivity. Qed.

(** ** Per-file exceptions *)

Import conversor_webp.




(** ** Paths *)

Lemma startswith_slash_contains s :
  Py.startswith s "/" = true → Py.contains "/" s = true.
Proof.
  destruct s as [|a s]; simpl; [done|].
  intros [Ha _]%andb_true_iff. apply bool_decide_eq_true in Ha as <-.
  by rewrite bool_decide_eq_true_2.
Qed.

Lemma split_without_sep sep s :
  Py.contains sep s = false → Py.split sep s = [s].
Proof.
  induction s as [|a s IH]; simpl; [done|].
  intros [Ha Hs]%orb_false_elim. rewrite (IH Hs).
  apply bool_decide_eq_false in Ha. by rewrite bool_decide_eq_false_2.
Qed.

Lemma contains_app c s t :
  Py.contains c (s +:+ t) = Py.contains c s || Py.contains c t.
Proof. induction s as [|a s IH]; simpl; [done|]. by rewrite IH, orb_assoc. Qed.

Lemma joinpath_plain d s : plain_name s → pathlib.joinpath d s = d ++ [s].
Proof.
  intros (Hsep & Hne & Hdot). unfold pathlib.joinpath, pathlib.components.
  destruct (Py.startswith s "/") eqn:Hstart.
  { apply startswith_slash_contains in Hstart. congruence. }
  rewrite (split_without_sep _ _ Hsep).
  by rewrite filter_cons_True, filter_nil.
Qed.

Lemma name_snoc d s : Py.contains "/" s = false → pathlib.name (d ++ [s]) = s.
Proof.
  intros Hsep. unfold pathlib.name, pathlib.is_anchor. rewrite last_snoc.
  destruct (Py.startswith s "/") eqn:Hstart; [|done].
  apply startswith_slash_contains in Hstart. congruence.
Qed.

Lemma parent_snoc d s : Py.contains "/" s = false → pathlib.parent (d ++ [s]) = d.
Proof.
  intros Hsep. unfold pathlib.parent.
  destruct d as [|a d]; simpl.
  - unfold pathlib.is_anchor. destruct (Py.startswith s "/") eqn:Hstart; [|done].
    apply startswith_slash_contains in Hstart. congruence.
  - destruct (d ++ [s]) as [|b l] eqn:Hd; [by destruct d|].
    rewrite <- Hd. by rewrite removelast_last.
Qed.

Lemma OUTPUT_FORMATS_extension_like key cfg :
  OUTPUT_FORMATS !! key = Some cfg → extension_like (ext cfg).
Proof.
  intros Hkey. apply elem_of_list_to_map_2 in Hkey.
  repeat (apply elem_of_cons in Hkey as [[= _ ->]|Hkey];
          [split; [reflexivity|simpl; lia]|]).
  by apply elem_of_nil in Hkey.
Qed.

Lemma string_app_length s t :
  String.length (s +:+ t) = (String.length s + String.length t)%nat.
Proof. induction s as [|a s IH]; simpl; [done|]. by rewrite IH. Qed.

Lemma stem_ext_plain stem e :
  Py.contains "/" stem = false → extension_like e → plain_name (stem +:+ e).
Proof.
  intros Hstem (He & Hlen). split; [by rewrite contains_app, Hstem, He|].
  assert (2 ≤ String.length (stem +:+ e))%nat as Hl
    by (rewrite string_app_length; lia).
  split; intros Heq; rewrite Heq in Hl; simpl in Hl; lia.
Qed.

Lemma strip_prefix_Some p other r :
  pathlib.strip_prefix p other = Some r → p = other ++ r.
Proof.
  revert p. induction other as [|o other IH]; intros [|x p]; simpl; try done.
  - by intros [= <-].
  - by intros [= <-].
  - case_decide as Hox; [|done].
    intros Hr. rewrite Hox. f_equal. by apply IH.
Qed.

Lemma relative_to_Some p other r :
  pathlib.relative_to p other = Some r → p = other ++ r.
Proof.
  unfold pathlib.relative_to. destruct other as [|o other].
  - destruct p as [|a p]; [by intros [= <-]|].
    destruct (pathlib.is_anchor a); [done|by intros [= <-]].
  - apply strip_prefix_Some.
Qed.

(** C5, as amended.  When the stem that the rename pattern and the suffix
    give has no path separator in it, the generated output path is a sibling
    of the source (same parent directory) when no output directory is
    configured, and otherwise lies in the configured output directory joined
    with the path of the source's directory relative to the scanned
    directory; in both cases the file name is that stem followed by the
    extension of the chosen output format. *)
Theorem output_path_sibling_or_relocated env w source h cfg stem h1 :
  OUTPUT_FORMATS !! output_format (settings w) = Some cfg →
  output_stem env w source h = (Ok stem, h1) →
  Py.contains "/" stem = false →
  (output_directory (settings w) = "" →
     generate_output_path env w source h
     = (Ok (pathlib.parent source ++ [stem +:+ ext cfg]), h1) ∧
     pathlib.parent (pathlib.parent source ++ [stem +:+ ext cfg])
     = pathlib.parent source ∧
     pathlib.name (pathlib.parent source ++ [stem +:+ ext cfg]) = stem +:+ ext cfg) ∧
  (∀ rel,
     output_directory (settings w) ≠ "" →
     pathlib.relative_to (pathlib.parent source) (directory w) = Some rel →
     do_mkdir env h1
       (pathlib.join (pathlib.of_str (output_directory (settings w))) rel) = Ok () →
     pathlib.parent source = directory w ++ rel ∧
     generate_output_path env w source h
     = (Ok (pathlib.join (pathlib.of_str (output_directory (settings w))) rel
              ++ [stem +:+ ext cfg]),
        h1 ++ [mkdir (pathlib.join (pathlib.of_str (output_directory (settings w))) rel)]) ∧
     pathlib.parent
       (pathlib.join (pathlib.of_str (output_directory (settings w))) rel
          ++ [stem +:+ ext cfg])
     = pathlib.join (pathlib.of_str (output_directory (settings w))) rel ∧
     pathlib.name
       (pathlib.join (pathlib.of_str (output_directory (settings w))) rel
          ++ [stem +:+ ext cfg])
     = stem +:+ ext cfg).
Proof.
  intros Hcfg Hstem Hsep.
  pose proof (stem_ext_plain stem (ext cfg) Hsep
                (OUTPUT_FORMATS_extension_like _ _ Hcfg)) as Hplain.
  assert (Py.contains "/" (stem +:+ ext cfg) = false) as Hsep' by apply Hplain.
  split.
  - intros Hod. split; [|by rewrite parent_snoc, name_snoc].
    unfold generate_output_path, OUTPUT_FORMATS_getitem, mbind, M_bind, pure.
    rewrite Hcfg, Hstem. unfold output_dir_of. rewrite Hod. simpl.
    by rewrite joinpath_plain.
  - intros rel Hod Hrel Hmk. split; [by apply relative_to_Some|].
    split; [|by rewrite parent_snoc, name_snoc].
    unfold generate_output_path, OUTPUT_FORMATS_getitem, mbind, M_bind, pure.
    rewrite Hcfg, Hstem. unfold output_dir_of.
    assert (Py.truthy (output_directory (settings w)) = true) as ->
      by (by destruct (output_directory (settings w))).
    unfold mbind, M_bind, pure, perform.
    rewrite Hrel, Hmk. simpl. by rewrite joinpath_plain.
Qed.

Lemma output_path_sibling_or_relocated_witness :
  generate_output_path env_ok worker_example source_example []
  = (Ok ["/"; "data"; "imgs"; "a.webp"], []) ∧
  generate_output_path env_ok worker_relocating
    ["/"; "data"; "imgs"; "2024"; "a.png"] []
  = (Ok ["/"; "data"; "out"; "2024"; "a_small.webp"],
     [mkdir ["/"; "data"; "out"; "2024"]]).
Proof.
  split.
  - destruct (output_path_sibling_or_relocated env_ok worker_example source_example []
                {| ext := ".webp"; fc_quality := true; fc_optimize := true |} "a" []
                eq_refl eq_refl eq_refl) as [Hsibling _].
    destruct (Hsibling eq_refl) as [Hpath _]. exact Hpath.
  - destruct (output_path_sibling_or_relocated env_ok worker_relocating
                ["/"; "data"; "imgs"; "2024"; "a.png"] []
                {| ext := ".webp"; fc_quality := true; fc_optimize := true |}
                "a_small" [] eq_refl eq_refl eq_refl) as [_ Hrelocated].
    destruct (Hrelocated ["2024"] ltac:(discriminate) eq_refl eq_refl)
      as (_ & Hpath & _).
    exact Hpath.
Defined.

(** C5, as it was stated, fails: the suffix is free text, and a suffix with a
    path separator in it sends the output below the source's directory, not
    beside the source. *)
Lemma suffix_with_separator_is_no_sibling :
  output_directory (settings worker_slash_suffix) = "" ∧
  ∃ out h,
    generate_output_path env_ok worker_slash_suffix source_example [] = (Ok out, h) ∧
    out = ["/"; "data"; "imgs"; "a"; "thumb.webp"] ∧
    pathlib.parent out ≠ pathlib.parent source_example.
Proof. split; [reflexivity|]. eexists _, _. repeat split. discriminate. Qed.

(** ** Globbing *)

Lemma fnmatch_literal lit name :
  fnmatch.literal lit = true →
  fnmatch.fnmatchcase lit name = true ↔ name = lit.
Proof.
  revert name. induction lit as [|c lit IH]; intros name; simpl.
  - intros _. destruct name; simpl; split; congruence.
  - intros [[Hstar Hq]%andb_true_iff Hlit]%andb_true_iff.
    apply negb_true_iff in Hstar, Hq. rewrite Hstar, Hq.
    destruct name as [|d name]; [done|].
    rewrite andb_true_iff, bool_decide_eq_true, (IH _ Hlit).
    split; [by intros [-> ->]|by intros [= -> ->]].
Qed.

Lemma fnmatch_star_literal lit name :
  fnmatch.literal lit = true →
  fnmatch.fnmatchcase (String "*" lit) name = true ↔ ∃ pre, name = pre +:+ lit.
Proof.
  intros Hlit. simpl.
  induction name as [|a name IH].
  - rewrite orb_false_r, (fnmatch_literal _ _ Hlit). split.
    + intros <-. by exists "".
    + intros [[|b pre] Hpre]; [done|discriminate Hpre].
  - rewrite orb_true_iff, IH, (fnmatch_literal _ _ Hlit). split.
    + intros [<-|[pre ->]]; [by exists ""|by exists (String a pre)].
    + intros [[|b pre] Hpre]; [by left|].
      injection Hpre as <- ->. right. by exists pre.
Qed.

Lemma included_by_computation (l known : list string) :
  bool_decide (Forall (λ x, x ∈ known) l) = true → ∀ x, x ∈ l → x ∈ known.
Proof. intros Hall%bool_decide_eq_true. by apply Forall_forall. Qed.

Lemma get_input_extensions_known w ext :
  ext ∈ get_input_extensions w →
  ext ∈ [".png"; ".jpg"; ".jpeg"; ".webp"; ".bmp"; ".gif"; ".tiff"; ".tif"; ".ico"].
Proof.
  unfold get_input_extensions.
  destruct (INPUT_FORMATS !! input_format (settings w)) as [exts|] eqn:Hfmt; simpl.
  - apply elem_of_list_to_map_2 in Hfmt. intros Hext.
    repeat (apply elem_of_cons in Hfmt as [[= _ ->]|Hfmt];
            [revert ext Hext; by apply included_by_computation|]).
    by apply elem_of_nil in Hfmt.
  - revert ext. by apply included_by_computation.
Qed.

Lemma get_input_extensions_literal w ext :
  ext ∈ get_input_extensions w →
  fnmatch.literal ext = true ∧ fnmatch.literal (Py.upper ext) = true.
Proof.
  intros Hext%get_input_extensions_known.
  repeat (apply elem_of_cons in Hext as [->|Hext]; [by split|]).
  by apply elem_of_nil in Hext.
Qed.

Lemma elem_of_glob base tree pattern p :
  p ∈ fs.glob base tree pattern ↔
  ∃ e, (p, e) ∈ fs.listdir base tree ∧
       fnmatch.fnmatchcase pattern (fs.entry_name e) = true.
Proof.
  unfold fs.glob, fs.glob_entries. rewrite list_elem_of_fmap. split.
  - intros ([q e] & -> & [Hm Hin]%list_elem_of_filter). by exists e.
  - intros (e & Hin & Hm). exists (p, e). split; [done|].
    by apply list_elem_of_filter.
Qed.

Lemma elem_of_rglob base tree pattern p :
  p ∈ fs.rglob base tree pattern ↔
  ∃ e, (p, e) ∈ fs.walk base tree ∧
       fnmatch.fnmatchcase pattern (fs.entry_name e) = true.
Proof.
  unfold fs.rglob, fs.rglob_entries. rewrite list_elem_of_fmap. split.
  - intros ([q e] & -> & [Hm Hin]%list_elem_of_filter). by exists e.
  - intros (e & Hin & Hm). exists (p, e). split; [done|].
    by apply list_elem_of_filter.
Qed.

Lemma elem_of_globbed_images w tree p :
  p ∈ globbed_images w tree ↔
  ∃ e ext, (p, e) ∈ in_scope w tree ∧ ext ∈ get_input_extensions w ∧
    (fnmatch.fnmatchcase ("*" +:+ ext) (fs.entry_name e) = true ∨
     fnmatch.fnmatchcase ("*" +:+ Py.upper ext) (fs.entry_name e) = true).
Proof.
  unfold globbed_images, in_scope.
  destruct (recursive (settings w)).
  - rewrite list_elem_of_In, in_flat_map. split.
    + intros (ext & Hext%list_elem_of_In & Hp%list_elem_of_In).
      apply elem_of_app in Hp as [(e & ? & ?)%elem_of_rglob|(e & ? & ?)%elem_of_rglob];
        exists e, ext; eauto.
    + intros (e & ext & Hin & Hext & Hm). exists ext.
      rewrite <- !list_elem_of_In. split; [done|].
      apply elem_of_app. rewrite !elem_of_rglob. destruct Hm; eauto.
  - rewrite list_elem_of_In, in_flat_map. split.
    + intros (ext & Hext%list_elem_of_In & Hp%list_elem_of_In).
      apply elem_of_app in Hp as [(e & ? & ?)%elem_of_glob|(e & ? & ?)%elem_of_glob];
        exists e, ext; eauto.
    + intros (e & ext & Hin & Hext & Hm). exists ext.
      rewrite <- !list_elem_of_In. split; [done|].
      apply elem_of_app. rewrite !elem_of_glob. destruct Hm; eauto.
Qed.

Lemma elem_of_find_images w tree p :
  p ∈ find_images w tree ↔ p ∈ globbed_images w tree.
Proof.
  unfold find_images. rewrite merge_sort_Permutation.
  by rewrite elem_of_elements, elem_of_list_to_set.
Qed.

(** C4, as amended.  [find_images] returns exactly the directory entries,
    regular files and directories alike, under the chosen directory (at any
    depth when [recursive] is on, otherwise directly in it) whose name ends
    with one of the extensions of the selected input format, in its
    lower-case or its upper-case spelling; an entry whose name ends
    otherwise is never returned. *)
Theorem find_images_by_extension w tree p :
  p ∈ find_images w tree ↔
  ∃ e ext pre,
    (p, e) ∈ (if recursive (settings w) then fs.walk (directory w) tree
              else fs.listdir (directory w) tree) ∧
    ext ∈ get_input_extensions w ∧
    (fs.entry_name e = pre +:+ ext ∨ fs.entry_name e = pre +:+ Py.upper ext).
Proof.
  rewrite elem_of_find_images, elem_of_globbed_images. unfold in_scope. split.
  - intros (e & ext & Hin & Hext & Hm).
    destruct (get_input_extensions_literal _ _ Hext) as [Hlo Hup].
    destruct Hm as [Hm|Hm].
    + apply (fnmatch_star_literal _ _ Hlo) in Hm as [pre Hpre]. exists e, ext, pre. eauto.
    + apply (fnmatch_star_literal _ _ Hup) in Hm as [pre Hpre]. exists e, ext, pre. eauto.
  - intros (e & ext & pre & Hin & Hext & Hm).
    destruct (get_input_extensions_literal _ _ Hext) as [Hlo Hup].
    exists e, ext. repeat split; [done..|].
    destruct Hm as [Hm|Hm]; [left|right].
    + apply (fnmatch_star_literal _ _ Hlo). by exists pre.
    + apply (fnmatch_star_literal _ _ Hup). by exists pre.
Qed.

(** C4, as it was stated, fails: globbing matches names, whatever the entry
    is, and a directory named like an image is returned with the files. *)
Lemma find_images_returns_directory :
  find_images worker_example tree_with_album
  = [["/"; "data"; "imgs"; "album.png"]; ["/"; "data"; "imgs"; "b.jpg"]] ∧
  ∀ e, (["/"; "data"; "imgs"; "album.png"], e)
         ∈ fs.walk (directory worker_example) tree_with_album →
       fs.is_file e = false.
Proof.
  split; [by vm_compute|].
  intros e He.
  set (entries := fs.walk _ _) in He. vm_compute in entries. subst entries.
  repeat (apply elem_of_cons in He as [Heq|He]; [by simplify_eq|]).
  by apply elem_of_nil in He.
Qed.

(** ** The order of paths *)

Lemma leb_refl p : pathlib.leb p p = true.
Proof. induction p as [|x p IH]; simpl; [done|]. by rewrite decide_True. Qed.

Lemma leb_total p q : pathlib.leb p q = true ∨ pathlib.leb q p = true.
Proof.
  revert q. induction p as [|x p IH]; intros [|y q]; simpl; auto.
  destruct (decide (x = y)) as [->|Hxy].
  - rewrite decide_True by done. apply IH.
  - rewrite decide_False by done. rewrite !bool_decide_eq_true.
    apply String.le_total.
Qed.

Lemma leb_antisym p q :
  pathlib.leb p q = true → pathlib.leb q p = true → p = q.
Proof.
  revert q. induction p as [|x p IH]; intros [|y q]; simpl; try done.
  destruct (decide (x = y)) as [->|Hxy].
  - rewrite decide_True by done. intros ? ?. f_equal. by apply IH.
  - rewrite decide_False by done. rewrite !bool_decide_eq_true.
    intros Hle Hge. destruct Hxy. by apply (anti_symm String.le).
Qed.

Lemma leb_trans p q r :
  pathlib.leb p q = true → pathlib.leb q r = true → pathlib.leb p r = true.
Proof.
  revert q r. induction p as [|x p IH]; intros [|y q] [|z r]; simpl; try done.
  repeat case_decide; simplify_eq; rewrite ?bool_decide_eq_true; try done.
  - apply IH.
  - intros Hxy Hyx. exfalso. by apply (anti_symm String.le) in Hxy.
  - intros ? ?. by trans y.
Qed.

#[global] Instance path_le_total : Total pathlib.le.
Proof. intros p q. apply leb_total. Qed.
#[global] Instance path_le_trans : Transitive pathlib.le.
Proof. intros p q r. apply leb_trans. Qed.
#[global] Instance path_le_antisym : AntiSymm (=) pathlib.le.
Proof. intros p q. apply leb_antisym. Qed.

Lemma find_images_NoDup w tree : NoDup (find_images w tree).
Proof.
  unfold find_images. rewrite merge_sort_Permutation. apply NoDup_elements.
Qed.

Lemma find_images_sorted w tree : StronglySorted pathlib.le (find_images w tree).
Proof. unfold find_images. apply StronglySorted_merge_sort; apply _. Qed.

(** the scan does not depend on the order in which the directory is listed:
    a sorted list without duplicates is determined by its members *)
Lemma sorted_NoDup_unique (l1 l2 : list Path) :
  StronglySorted pathlib.le l1 → StronglySorted pathlib.le l2 →
  l1 ≡ₚ l2 → l1 = l2.
Proof. apply StronglySorted_unique; apply _. Qed.

(** ** The worker thread *)

Lemma result_line_not_cancelled r line :
  result_line r = Ok line → line.1 ≠ Cancelled.
Proof.
  unfold result_line. destruct (success r).
  - destruct (output_path r); [|done].
    destruct (float.int_truediv (new_size r) 1024); simpl; [|done].
    destruct (compression_ratio r); simpl; [|done]. by intros [= <-].
  - by intros [= <-].
Qed.

Lemma reported_app h1 h2 : reported (h1 ++ h2) = reported h1 ++ reported h2.
Proof. apply omap_app. Qed.

Lemma collect_rounds outcome clicked total order :
  ∀ i w results h r h',
    collect outcome clicked total i w order results h = (r, h') →
    ∃ new, h' = h ++ new ∧ rounds new ∧
           (∀ rs, r = Ok rs → rs = results ++ reported new).
Proof.
  induction order as [|img order IH]; intros i w results h r h' Hrun.
  - injection Hrun as <- <-. exists []. rewrite !app_nil_r.
    split; [done|]. split; [constructor|]. by intros rs [= <-].
  - simpl in Hrun. unfold mbind, M_bind, perform, emit_signal, pure in Hrun.
    simpl in Hrun.
    destruct (_is_cancelled (if clicked i then cancel w else w)).
    { injection Hrun as <- <-.
      exists [completed img; read_is_cancelled; cancelled_line].
      rewrite <- !app_assoc. split; [done|]. split; [constructor|].
      intros rs [= <-]. by rewrite app_nil_r. }
    destruct (outcome img) as [result|e].
    2: { injection Hrun as <- <-. exists [completed img; read_is_cancelled].
         rewrite <- !app_assoc. split; [done|]. split; [constructor|]. done. }
    destruct (result_line result) as [line|e] eqn:Hline.
    2: { injection Hrun as <- <-. exists [completed img; read_is_cancelled].
         rewrite <- !app_assoc. split; [done|]. split; [constructor|]. done. }
    apply IH in Hrun as (new & -> & Hnew & Hres).
    exists (completed img :: read_is_cancelled ::
            emit (log_message line.1 line.2) :: emit (file_converted result) ::
            emit (progress (i + 1) total) :: new).
    rewrite <- !app_assoc. split; [done|]. split.
    + constructor; [|done]. by eapply result_line_not_cancelled.
    + intros rs Hrs. rewrite (Hres rs Hrs). simpl. by rewrite <- app_assoc.
Qed.

Lemma submit_all_runs images h :
  submit_all images h = (Ok (), h ++ map submit images).
Proof.
  revert h. induction images as [|img images IH]; intros h; simpl.
  - by rewrite app_nil_r.
  - unfold mbind, M_bind, perform. rewrite IH. by rewrite <- app_assoc.
Qed.

(** the history of a run, case by case *)
Lemma run_history envs choices clicked w tree r h' :
  run envs choices clicked w tree [] = (r, h') →
  (find_images w tree = [] ∧ r = Ok () ∧
   h' = [emit (log_message (Scanning (directory w)) "info");
         emit (log_message NoImagesFound "warning");
         emit (conversion_complete [])]) ∨
  (max_workers (settings w) ≤ 0 ∧ (∃ e, r = Raise e) ∧
   h' = header w (length (find_images w tree))
        ++ [ThreadPoolExecutor (max_workers (settings w))]) ∨
  (find_images w tree ≠ [] ∧ 0 < max_workers (settings w) ∧
   ∃ new body,
     rounds new ∧
     body = header w (length (find_images w tree))
            ++ ThreadPoolExecutor (max_workers (settings w))
            :: map submit (find_images w tree) ++ new ∧
     (((∃ e, r = Raise e) ∧ h' = body ++ map completed (outstanding body)) ∨
      (r = Ok () ∧
       h' = body ++ map completed (outstanding body)
            ++ [emit (conversion_complete (reported new))]))).
Proof.
  unfold run. case_bool_decide as Himages.
  { intros [= <- <-]. left. done. }
  intros Hrun. right.
  unfold mbind, M_bind, emit_signal, perform, with_executor in Hrun.
  simpl in Hrun.
  destruct (Z.leb_spec (max_workers (settings w)) 0) as [Hw|Hw].
  { injection Hrun as <- <-. left. eauto. }
  right. split; [done|]. split; [done|].
  unfold mbind, M_bind, perform in Hrun. cbn beta iota in Hrun.
  rewrite submit_all_runs in Hrun.
  destruct (collect _ _ _ _ _ _ _ _) as [rc hc] eqn:Hcollect.
  apply collect_rounds in Hcollect as (new & -> & Hnew & Hres).
  exists new, (header w (length (find_images w tree))
               ++ ThreadPoolExecutor (max_workers (settings w))
               :: map submit (find_images w tree) ++ new).
  split; [done|]. split; [done|].
  destruct rc as [rs|e].
  - right. injection Hrun as <- <-. rewrite (Hres rs eq_refl). simpl.
    split; [done|]. by rewrite <- !app_assoc.
  - left. injection Hrun as <- <-. split; [eauto|]. simpl.
    by rewrite <- !app_assoc.
Qed.

Lemma rounds_loop_calls new : rounds new → Forall loop_call new.
Proof. induction 1; repeat constructor; done. Qed.

Lemma header_loop_calls w total : Forall loop_call (header w total).
Proof. repeat constructor. Qed.

Lemma submitted_app h1 h2 : submitted (h1 ++ h2) = submitted h1 ++ submitted h2.
Proof. apply omap_app. Qed.

Lemma known_complete_app h1 h2 :
  known_complete (h1 ++ h2) = known_complete h1 ++ known_complete h2.
Proof. apply omap_app. Qed.

Lemma submitted_loop_calls h : Forall loop_call h → submitted h = [].
Proof.
  induction 1 as [|c h Hc _ IH]; [done|].
  unfold submitted in *. by destruct c.
Qed.

Lemma submitted_submit images : submitted (map submit images) = images.
Proof. induction images as [|img images IH]; simpl; [done|]. by f_equal. Qed.

Lemma submitted_completed images : submitted (map completed images) = [].
Proof. by induction images. Qed.

Lemma known_complete_completed images : known_complete (map completed images) = images.
Proof. induction images as [|img images IH]; simpl; [done|]. by f_equal. Qed.

(** once the pool is shut down, every submitted task is known complete *)
Lemma shutdown_waits_for_all body img :
  img ∈ submitted body →
  img ∈ known_complete (body ++ map completed (outstanding body)).
Proof.
  intros Hin. rewrite known_complete_app, known_complete_completed.
  apply elem_of_app. destruct (decide (img ∈ known_complete body)); [by left|].
  right. unfold outstanding. by apply list_elem_of_filter.
Qed.

Lemma elem_of_known_complete h img : img ∈ known_complete h ↔ completed img ∈ h.
Proof.
  unfold known_complete. rewrite list_elem_of_omap. split.
  - intros (c & Hc & Himg). destruct c; simplify_eq. done.
  - intros Hc. by exists (completed img).
Qed.

(** the place of an element that occurs only in the middle part *)
Lemma split_middle {A} (x : A) (front mid back pre post : list A) :
  front ++ mid ++ back = pre ++ x :: post →
  x ∉ front → x ∉ back →
  ∃ pre' post', mid = pre' ++ x :: post' ∧ pre = front ++ pre' ∧ post = post' ++ back.
Proof.
  revert pre. induction front as [|a front IH]; intros pre Heq Hfront Hback.
  - simpl in Heq. clear Hfront. revert pre Heq.
    induction mid as [|m mid IHm]; intros pre Heq.
    + simpl in Heq. destruct Hback. rewrite Heq.
      apply elem_of_app. right. by left.
    + destruct pre as [|p pre]; simpl in Heq; injection Heq as -> Heq.
      * by exists [], mid.
      * destruct (IHm _ Heq) as (pre' & post' & -> & -> & ->).
        by exists (p :: pre'), post'.
  - destruct pre as [|p pre]; simpl in Heq; injection Heq as -> Heq.
    + destruct Hfront. by left.
    + destruct (IH pre Heq) as (pre' & post' & -> & -> & ->); [|done|].
      * intros Hin. apply Hfront. by right.
      * by exists pre', post'.
Qed.




Lemma around_loop_front w images :
  Forall around_loop
    (header w (length images)
     ++ ThreadPoolExecutor (max_workers (settings w)) :: map submit images).
Proof.
  apply Forall_app. split; [repeat constructor|].
  constructor; [done|]. by apply Forall_fmap, Forall_true.
Qed.

Lemma around_loop_completed images : Forall around_loop (map completed images).
Proof. by apply Forall_fmap, Forall_true. Qed.




Lemma reported_around l : Forall around_loop l → reported l = [].
Proof.
  induction 1 as [|c l Hc _ IH]; [done|].
  unfold reported in *. destruct c as [| | | | | | | | | | |s| | | | | |]; try done.
  by destruct s.
Qed.

Lemma submitted_body w images new :
  rounds new →
  submitted (header w (length images)
             ++ ThreadPoolExecutor (max_workers (settings w))
             :: map submit images ++ new) = images.
Proof.
  intros Hnew. rewrite submitted_app.
  rewrite (submitted_loop_calls _ (header_loop_calls _ _)). simpl.
  change (submitted (map submit images ++ new) = images).
  rewrite submitted_app, submitted_submit.
  rewrite (submitted_loop_calls _ (rounds_loop_calls _ Hnew)).
  apply app_nil_r.
Qed.

Lemma rounds_not_complete new : rounds new → Forall not_complete new.
Proof. induction 1; repeat constructor; done. Qed.

Lemma body_not_complete w images new joined :
  rounds new →
  Forall not_complete
    ((header w (length images)
      ++ ThreadPoolExecutor (max_workers (settings w)) :: map submit images ++ new)
     ++ map completed joined).
Proof.
  intros Hnew. apply Forall_app; split; [apply Forall_app; split|].
  - repeat constructor.
  - constructor; [done|]. apply Forall_app; split.
    + by apply Forall_fmap, Forall_true.
    + by apply rounds_not_complete.
  - by apply Forall_fmap, Forall_true.
Qed.

(** C2.  In a run (the pool size is at least one, as the window's spin box
    has it), the tasks submitted to the pool are the images [find_images]
    returned, one task each and in that order, on a pool of [max_workers]
    threads; and when [conversion_complete] is emitted, the worker has seen
    the task of every one of these images complete. *)
Theorem one_task_per_image_joined_before_complete
    envs choices clicked w tree r h' :
  1 ≤ max_workers (settings w) →
  run envs choices clicked w tree [] = (r, h') →
  submitted h' = find_images w tree ∧
  NoDup (submitted h') ∧
  (find_images w tree ≠ [] →
     ThreadPoolExecutor (max_workers (settings w)) ∈ h') ∧
  (∀ pre results post,
     h' = pre ++ emit (conversion_complete results) :: post →
     ∀ img, img ∈ find_images w tree → completed img ∈ pre).
Proof.
  intros Hworkers Hrun.
  destruct (run_history _ _ _ _ _ _ _ Hrun)
    as [(Hnone & -> & ->)|[(Hbad & _)|(Hsome & _ & new & body & Hnew & Hbody & Hend)]].
  - rewrite Hnone. repeat split; [constructor|done|].
    intros pre results post _ img Himg. by apply elem_of_nil in Himg.
  - lia.
  - assert (submitted body = find_images w tree) as Hsub
      by (rewrite Hbody; by apply submitted_body).
    assert (ThreadPoolExecutor (max_workers (settings w)) ∈ body) as Hpool
      by (rewrite Hbody; apply elem_of_app; right; by left).
    assert (submitted h' = find_images w tree) as Hall.
    { destruct Hend as [(_ & ->)|(_ & ->)];
        rewrite ?submitted_app, submitted_completed, Hsub; simpl;
        by rewrite ?app_nil_r. }
    split; [done|]. split; [rewrite Hall; apply find_images_NoDup|].
    split.
    { intros _. destruct Hend as [(_ & ->)|(_ & ->)]; apply elem_of_app; by left. }
    intros pre results post Hsplit img Himg.
    assert (∀ rs, emit (conversion_complete rs)
                    ∉ body ++ map completed (outstanding body)) as Hnocc.
    { intros rs Hin. rewrite Hbody in Hin.
      by apply (proj1 (Forall_forall _ _) (body_not_complete _ _ _ _ Hnew)) in Hin. }
    assert (completed img ∈ body ++ map completed (outstanding body)) as Hdone.
    { apply elem_of_known_complete, shutdown_waits_for_all. by rewrite Hsub. }
    destruct Hend as [(_ & ->)|(_ & ->)].
    + destruct (Hnocc results). rewrite Hsplit. apply elem_of_app. right. by left.
    + rewrite app_assoc in Hsplit.
      rewrite <- (app_nil_r [emit (conversion_complete (reported new))]) in Hsplit.
      destruct (split_middle _ _ _ _ _ _ Hsplit (Hnocc results) (not_elem_of_nil _))
        as (pre' & post' & Hmid & -> & _).
      destruct pre' as [|? pre']; [by rewrite app_nil_r|].
      injection Hmid as _ Hmid. by destruct pre'.
Qed.




Lemma body_front w images new :
  header w (length images)
  ++ ThreadPoolExecutor (max_workers (settings w)) :: map submit images ++ new
  = (header w (length images)
     ++ ThreadPoolExecutor (max_workers (settings w)) :: map submit images) ++ new.
Proof. by rewrite <- app_assoc. Qed.


Lemma one_task_per_image_joined_before_complete_witness :
  submitted run_example.2 = find_images worker_example tree_example ∧
  NoDup (submitted run_example.2) ∧
  (find_images worker_example tree_example ≠ [] →
     ThreadPoolExecutor (max_workers (settings worker_example)) ∈ run_example.2) ∧
  (∀ pre results post,
     run_example.2 = pre ++ emit (conversion_complete results) :: post →
     ∀ img, img ∈ find_images worker_example tree_example → completed img ∈ pre).
Proof.
  apply (one_task_per_image_joined_before_complete
           (λ _, env_ok) [1; 0]%nat (λ i, bool_decide (i = 1%nat))
           worker_example tree_example run_example.1 run_example.2).
  - vm_compute. discriminate.
  - unfold run_example. by destruct (run _ _ _ _ _ _).
Defined.

Example run_example_history :
  run_example.2
  = header worker_example 3
    ++ [ThreadPoolExecutor 4;
        submit ["/"; "data"; "imgs"; "a.PNG"];
        submit ["/"; "data"; "imgs"; "b.png"];
        submit ["/"; "data"; "imgs"; "sub"; "c.jpeg"];
        completed ["/"; "data"; "imgs"; "b.png"];
        read_is_cancelled;
        emit (log_message
                (ConvertedLine
                   {| source_path := ["/"; "data"; "imgs"; "b.png"];
                      output_path := Some ["/"; "data"; "imgs"; "b.webp"];
                      success := true; original_size := 1000; new_size := 250;
                      error_message := "" |}) "success");
        emit (file_converted
                {| source_path := ["/"; "data"; "imgs"; "b.png"];
                   output_path := Some ["/"; "data"; "imgs"; "b.webp"];
                   success := true; original_size := 1000; new_size := 250;
                   error_message := "" |});
        emit (progress 1 3);
        completed ["/"; "data"; "imgs"; "a.PNG"];
        read_is_cancelled;
        cancelled_line;
        completed ["/"; "data"; "imgs"; "sub"; "c.jpeg"];
        emit (conversion_complete
                [{| source_path := ["/"; "data"; "imgs"; "b.png"];
                    output_path := Some ["/"; "data"; "imgs"; "b.webp"];
                    success := true; original_size := 1000; new_size := 250;
                    error_message := "" |}])].
Proof. by vm_compute. Qed.


(** the flag is raised by [cancel] and by nothing else *)
Lemma cancel_sets_flag w :
  _is_cancelled (cancel w) = true ∧
  directory (cancel w) = directory w ∧ settings (cancel w) = settings w.
Proof. done. Qed.

Lemma new_worker_not_cancelled dir s : _is_cancelled (new_worker dir s) = false.
Proof. done. Qed.

Lemma collect_without_cancel outcome clicked total order :
  (∀ i, clicked i = false) →
  ∀ i w results h r h',
    _is_cancelled w = false →
    collect outcome clicked total i w order results h = (r, h') →
    ∃ new, h' = h ++ new ∧ cancelled_line ∉ new.
Proof.
  intros Hnever. induction order as [|img order IH]; intros i w results h r h' Hw Hrun.
  - injection Hrun as <- <-. exists []. rewrite app_nil_r. split; [done|].
    apply not_elem_of_nil.
  - simpl in Hrun. unfold mbind, M_bind, perform, emit_signal, pure in Hrun.
    simpl in Hrun. rewrite Hnever, Hw in Hrun.
    destruct (outcome img) as [result|e].
    2: { injection Hrun as <- <-. exists [completed img; read_is_cancelled].
         rewrite <- !app_assoc. split; [done|].
         intros Hin. repeat (apply elem_of_cons in Hin as [[=]|Hin]).
         by apply elem_of_nil in Hin. }
    destruct (result_line result) as [line|e] eqn:Hline.
    2: { injection Hrun as <- <-. exists [completed img; read_is_cancelled].
         rewrite <- !app_assoc. split; [done|].
         intros Hin. repeat (apply elem_of_cons in Hin as [[=]|Hin]).
         by apply elem_of_nil in Hin. }
    apply IH in Hrun as (new & -> & Hnew); [|done].
    exists (completed img :: read_is_cancelled ::
            emit (log_message line.1 line.2) :: emit (file_converted result) ::
            emit (progress (i + 1) total) :: new).
    rewrite <- !app_assoc. split; [done|].
    intros Hin. apply result_line_not_cancelled in Hline.
    unfold cancelled_line in Hin, Hnew.
    do 5 (apply elem_of_cons in Hin as [Heq|Hin]; [congruence|]).
    done.
Qed.

(** ** The scan *)

Lemma sorted_NoDup_strict (l : list Path) :
  StronglySorted pathlib.le l → NoDup l → StronglySorted pathlib.lt l.
Proof.
  induction 1 as [|p l _ IH Hall]; intros Hnodup; [constructor|].
  apply NoDup_cons in Hnodup as [Hp Hl]. constructor; [by apply IH|].
  apply Forall_forall. intros q Hq. split.
  - by apply (proj1 (Forall_forall _ _) Hall).
  - by intros ->.
Qed.

(** C10.  The list [find_images] returns has no path twice and is in
    ascending order of paths; so no image is submitted twice in a run,
    whatever patterns matched it. *)
Theorem find_images_sorted_without_duplicates w tree :
  NoDup (find_images w tree) ∧
  StronglySorted pathlib.le (find_images w tree) ∧
  StronglySorted pathlib.lt (find_images w tree) ∧
  (∀ p, p ∈ find_images w tree ↔ p ∈ globbed_images w tree) ∧
  (∀ envs choices clicked r h',
     run envs choices clicked w tree [] = (r, h') → NoDup (submitted h')).
Proof.
  split_and!.
  - apply find_images_NoDup.
  - apply find_images_sorted.
  - apply sorted_NoDup_strict; [apply find_images_sorted|apply find_images_NoDup].
  - intros p. apply elem_of_find_images.
  - intros envs choices clicked r h' Hrun.
    destruct (run_history _ _ _ _ _ _ _ Hrun)
      as [(_ & _ & ->)|[(_ & _ & ->)|(_ & _ & new & body & Hnew & Hbody & Hend)]].
    + constructor.
    + rewrite submitted_app.
      rewrite (submitted_loop_calls _
                 (header_loop_calls w (length (find_images w tree)))).
      constructor.
    + assert (submitted body = find_images w tree) as Hsub
        by (rewrite Hbody; by apply submitted_body).
      destruct Hend as [(_ & ->)|(_ & ->)];
        rewrite ?submitted_app, submitted_completed, Hsub; simpl;
        rewrite ?app_nil_r; apply find_images_NoDup.
Qed.

Lemma find_images_sorted_without_duplicates_witness :
  NoDup (submitted run_example.2).
Proof.
  destruct (find_images_sorted_without_duplicates worker_example tree_example)
    as (_ & _ & _ & _ & Hrun).
  apply (Hrun (λ _, env_ok) [1; 0]%nat (λ i, bool_decide (i = 1%nat))
              run_example.1).
  unfold run_example. by destruct (run _ _ _ _ _ _).
Defined.

Example find_images_example :
  find_images worker_example tree_example
  = [["/"; "data"; "imgs"; "a.PNG"]; ["/"; "data"; "imgs"; "b.png"];
     ["/"; "data"; "imgs"; "sub"; "c.jpeg"]].
Proof. by vm_compute. Qed.

(** ** Duplicate detection *)

Lemma take_drop n f : Py.take n f +:+ Py.drop n f = f.
Proof.
  revert f. induction n as [|n IH]; intros [|a f]; simpl; try done.
  by rewrite <- (IH f) at 3.
Qed.

Lemma drop_length n f : (String.length (Py.drop n f) ≤ String.length f)%nat.
Proof.
  revert f. induction n as [|n IH]; intros [|a f]; simpl; try lia.
  specialize (IH f). lia.
Qed.

Lemma read_chunks_whole H (laws : HasherLaws H) fuel :
  ∀ hasher f, (String.length f < fuel)%nat →
    read_chunks H fuel hasher f = md5_update H hasher f.
Proof.
  assert (∃ k, chunk_size = S k) as [k Hk] by (by eexists).
  induction fuel as [|fuel IH]; intros hasher f Hlen; [lia|].
  cbn [read_chunks]. rewrite Hk. destruct f as [|a f].
  - cbn. symmetry. apply laws.
  - change (Py.truthy (Py.take (S k) (String a f))) with true. cbv iota.
    rewrite IH.
    + rewrite (update_app H laws). by rewrite take_drop.
    + cbn in *. pose proof (drop_length k f). lia.
Qed.

(** [get_file_hash] of a readable file is the MD5 digest of all its bytes *)
Lemma get_file_hash_md5 H (laws : HasherLaws H) e content :
  content_of e = Some content → get_file_hash H e = Ok (md5 H content).
Proof.
  destruct e as [n [c|why]|n cs]; cbn [content_of get_file_hash]; try done.
  intros [= ->]. unfold md5. rewrite (read_chunks_whole H laws).
  - done.
  - apply Nat.lt_succ_diag_r.
Qed.

Lemma string_app_nil_r s : s +:+ "" = s.
Proof.
  induction s as [|a s IH]; [done|].
  change (String a (s +:+ "") = String a s). by rewrite IH.
Qed.

Lemma string_app_assoc s t u : (s +:+ t) +:+ u = s +:+ (t +:+ u).
Proof.
  induction s as [|a s IH]; [done|].
  change (String a ((s +:+ t) +:+ u) = String a (s +:+ (t +:+ u))).
  by rewrite IH.
Qed.

Lemma identity_hasher_laws : HasherLaws identity_hasher.
Proof.
  split; cbn.
  - apply string_app_nil_r.
  - apply string_app_assoc.
Qed.

Lemma dict_get_append_eq k v d :
  dict_get k (dict_append k v d) = Some (default [] (dict_get k d) ++ [v]).
Proof.
  induction d as [|[k' vs] d IH]; simpl.
  - by rewrite decide_True.
  - destruct (decide (k = k')) as [->|Hk]; simpl.
    + by rewrite decide_True.
    + by rewrite decide_False.
Qed.

Lemma dict_get_append_ne k k' v d :
  k ≠ k' → dict_get k' (dict_append k v d) = dict_get k' d.
Proof.
  intros Hk. induction d as [|[k'' vs] d IH]; simpl.
  - by rewrite decide_False.
  - destruct (decide (k = k'')) as [->|Hk'']; simpl.
    + by rewrite !decide_False.
    + by rewrite IH.
Qed.

Lemma dict_append_keys k v d :
  (dict_append k v d).*1 = if decide (k ∈ d.*1) then d.*1 else d.*1 ++ [k].
Proof.
  induction d as [|[k' vs] d IH].
  - cbn [dict_append fmap list_fmap]. case_decide as Hin; [|done].
    by apply elem_of_nil in Hin.
  - cbn [dict_append]. destruct (decide (k = k')) as [->|Hk].
    + cbn [fmap list_fmap fst]. rewrite decide_True; [done|]. by left.
    + cbn [fmap list_fmap fst]. fold (fmap (M:=list) (@fst string (list Path))).
      rewrite IH. destruct (decide (k ∈ d.*1)) as [Hin|Hin].
      * rewrite decide_True; [done|]. by right.
      * rewrite decide_False; [done|]. by intros [?|?]%elem_of_cons.
Qed.

Lemma dict_append_NoDup k v d : NoDup d.*1 → NoDup (dict_append k v d).*1.
Proof.
  intros Hd. rewrite dict_append_keys. case_decide as Hin; [done|].
  apply NoDup_app. split_and!; [done| |apply NoDup_singleton].
  intros x Hx ->%list_elem_of_singleton. done.
Qed.

Lemma dict_get_elem_of d k vs :
  NoDup d.*1 → (k, vs) ∈ d ↔ dict_get k d = Some vs.
Proof.
  induction d as [|[k' vs'] d IH]; simpl.
  - intros _. split; [by intros ?%elem_of_nil|done].
  - intros [Hk' Hd]%NoDup_cons. rewrite elem_of_cons.
    destruct (decide (k = k')) as [->|Hk].
    + split; [|by intros [= ->]; left].
      intros [[= ->]|Hin]; [done|]. destruct Hk'.
      apply list_elem_of_fmap. by exists (k', vs).
    + rewrite <- (IH Hd). split; [by intros [[= -> ->]|?]|by right].
Qed.

Lemma group_by_digest_NoDup keyed d :
  NoDup d.*1 → NoDup (group_by_digest keyed d).*1.
Proof.
  revert d. induction keyed as [|[p k] keyed IH]; intros d Hd; [done|].
  apply IH. by apply dict_append_NoDup.
Qed.

Lemma group_by_digest_get keyed : ∀ d k,
  dict_get k (group_by_digest keyed d)
  = match dict_get k d with
    | Some vs => Some (vs ++ with_digest k keyed)
    | None => match with_digest k keyed with [] => None | l => Some l end
    end.
Proof.
  unfold with_digest. induction keyed as [|[p k0] keyed IH]; intros d k.
  - simpl. destruct (dict_get k d); [by rewrite app_nil_r|done].
  - change (group_by_digest ((p, k0) :: keyed) d)
      with (group_by_digest keyed (dict_append k0 p d)).
    rewrite IH. destruct (decide (k0 = k)) as [->|Hk].
    + rewrite dict_get_append_eq, filter_cons_True by done.
      destruct (dict_get k d); simpl; [by rewrite <- app_assoc|done].
    + rewrite dict_get_append_ne, filter_cons_False by done. done.
Qed.

(** the groups of [hash_dict]: the non-empty classes of equal digest *)
Lemma elem_of_group_by_digest keyed vs :
  vs ∈ (group_by_digest keyed []).*2 ↔
  ∃ k, vs = with_digest k keyed ∧ vs ≠ [].
Proof.
  rewrite list_elem_of_fmap. split.
  - intros ([k vs'] & -> & Hin). exists k.
    apply dict_get_elem_of in Hin; [|apply group_by_digest_NoDup; constructor].
    rewrite group_by_digest_get in Hin. simpl in *.
    destruct (with_digest k keyed); [done|]. by injection Hin as <-.
  - intros (k & -> & Hne). exists (k, with_digest k keyed). split; [done|].
    apply dict_get_elem_of; [apply group_by_digest_NoDup; constructor|].
    rewrite group_by_digest_get. simpl. by destruct (with_digest k keyed).
Qed.

Lemma elem_of_with_digest k keyed p :
  p ∈ with_digest k keyed ↔ (p, k) ∈ keyed.
Proof.
  unfold with_digest. rewrite list_elem_of_fmap. split.
  - intros ([p' k'] & -> & [Hk Hin]%list_elem_of_filter). simpl in *. by subst.
  - intros Hin. exists (p, k). split; [done|]. by apply list_elem_of_filter.
Qed.

Lemma two_members_length {A} (x y : A) l : x ≠ y → x ∈ l → y ∈ l → (1 < length l)%nat.
Proof.
  intros Hxy Hx Hy. destruct l as [|a [|b l]]; simpl; [|exfalso|lia].
  - by apply elem_of_nil in Hx.
  - apply list_elem_of_singleton in Hx, Hy. congruence.
Qed.

Lemma group_items_display groups n :
  group_items groups n
  = (group_display n (filter is_duplicate_group groups),
     (n + length (filter is_duplicate_group groups))%nat).
Proof.
  revert n. induction groups as [|files groups IH]; intros n; simpl.
  - by rewrite Nat.add_0_r.
  - destruct (Nat.ltb_spec 1 (length files)) as [Hbig|Hsmall].
    + rewrite filter_cons_True by done. rewrite IH. simpl.
      f_equal. lia.
    + rewrite filter_cons_False by (unfold is_duplicate_group; lia). apply IH.
Qed.

Lemma fill_hash_dict_readable H (laws : HasherLaws H) files : ∀ d,
  Forall (λ pe, is_Some (content_of pe.2)) files →
  fill_hash_dict H files d
  = Ok (group_by_digest
          (map (λ pe, (pe.1, md5 H (default "" (content_of pe.2)))) files) d).
Proof.
  induction files as [|[p e] files IH]; intros d Hall; [done|].
  apply Forall_cons in Hall as [[content Hc] Hall]. simpl in Hc.
  cbn [fill_hash_dict]. rewrite (get_file_hash_md5 H laws e content Hc).
  cbn. rewrite IH by done. by rewrite Hc.
Qed.

(** one entry that cannot be hashed and the search is abandoned: nothing is
    displayed but the error box *)
Lemma fill_hash_dict_unreadable H files : ∀ d,
  Exists (λ pe, content_of pe.2 = None) files →
  ∃ msg, fill_hash_dict H files d = Raise (Exn OSError msg).
Proof.
  induction files as [|[p e] files IH]; intros d Hex; [by apply Exists_nil in Hex|].
  cbn [fill_hash_dict].
  destruct e as [n [c|why]|n cs]; cbn [get_file_hash]; unfold mbind, result_bind;
    [|by eexists..].
  apply Exists_cons in Hex as [[=]|Hex]. by apply IH.
Qed.

Lemma find_duplicates_readable H (laws : HasherLaws H) dir tree :
  Forall (λ pe, is_Some (content_of pe.2)) (scanned dir tree) →
  find_duplicates H dir tree
  = Ok (duplicates_display
          (filter is_duplicate_group
                  (group_by_digest (scanned_digests H dir tree) []).*2),
        None).
Proof.
  intros Hall. unfold find_duplicates.
  rewrite (fill_hash_dict_readable H laws _ _ Hall).
  fold (scanned_digests H dir tree). rewrite group_items_display.
  destruct (filter is_duplicate_group _) as [|g gs]; simpl; done.
Qed.

Lemma find_duplicates_abandoned H dir tree :
  Exists (λ pe, content_of pe.2 = None) (scanned dir tree) →
  ∃ msg, find_duplicates H dir tree = Ok ([], Some msg).
Proof.
  intros Hex. unfold find_duplicates.
  destruct (fill_hash_dict_unreadable H _ [] Hex) as [msg ->]. simpl. eauto.
Qed.

Lemma elem_of_scanned_digests H dir tree p e content :
  (p, e) ∈ scanned dir tree → content_of e = Some content →
  (p, md5 H content) ∈ scanned_digests H dir tree.
Proof.
  intros Hin Hc. unfold scanned_digests. apply list_elem_of_fmap.
  exists (p, e). simpl. by rewrite Hc.
Qed.

Lemma scanned_digests_paths H dir tree :
  (scanned_digests H dir tree).*1 = (scanned dir tree).*1.
Proof.
  unfold scanned_digests. rewrite <- list_fmap_compose. by apply list_fmap_ext.
Qed.

(** a path listed once has one digest *)
Lemma digest_unique (keyed : list (Path * string)) p k k' :
  NoDup keyed.*1 → (p, k) ∈ keyed → (p, k') ∈ keyed → k = k'.
Proof.
  induction keyed as [|[q j] keyed IH]; [by intros _ ?%elem_of_nil|].
  simpl. intros [Hq Hnodup]%NoDup_cons [[= -> ->]|Hin]%elem_of_cons
    [[= <-]|Hin']%elem_of_cons; try done.
  - destruct Hq. apply list_elem_of_fmap. by exists (q, k').
  - destruct Hq. apply list_elem_of_fmap. by exists (p, k).
  - by apply IH.
Qed.

(** settle a decidable proposition about concrete data by evaluating its
    decision procedure *)
Ltac by_computation :=
  match goal with
  | |- ?P => apply (bool_decide_unpack P); vm_compute; exact I
  end.

(** C7, as amended.  When every scanned entry with a recognised extension is
    a regular file that can be read (and each path is listed once), the
    window displays the groups of the scan, each of at least two files, and
    two different scanned files are in one displayed group if and only if
    the MD5 digests of their whole contents are equal. *)
Theorem duplicates_grouped_by_digest H (laws : HasherLaws H) dir tree :
  NoDup (scanned dir tree).*1 →
  Forall (λ pe, is_Some (content_of pe.2)) (scanned dir tree) →
  ∃ groups,
    find_duplicates H dir tree = Ok (duplicates_display groups, None) ∧
    Forall (λ files, (2 ≤ length files)%nat) groups ∧
    ∀ f g ef eg cf cg,
      (f, ef) ∈ scanned dir tree → (g, eg) ∈ scanned dir tree →
      content_of ef = Some cf → content_of eg = Some cg → f ≠ g →
      (∃ files, files ∈ groups ∧ f ∈ files ∧ g ∈ files) ↔ md5 H cf = md5 H cg.
Proof.
  intros Hnodup Hall.
  exists (filter is_duplicate_group
                 (group_by_digest (scanned_digests H dir tree) []).*2).
  split; [by apply find_duplicates_readable|]. split.
  { apply Forall_forall. intros files [Hbig _]%list_elem_of_filter. exact Hbig. }
  intros f g ef eg cf cg Hf Hg Hcf Hcg Hfg.
  pose proof (elem_of_scanned_digests H _ _ _ _ _ Hf Hcf) as Hkf.
  pose proof (elem_of_scanned_digests H _ _ _ _ _ Hg Hcg) as Hkg.
  assert (NoDup (scanned_digests H dir tree).*1) as Hpaths
    by by rewrite scanned_digests_paths.
  split.
  - intros (files & [_ Hgroup]%list_elem_of_filter & Hfin & Hgin).
    apply elem_of_group_by_digest in Hgroup as (k & -> & _).
    apply elem_of_with_digest in Hfin, Hgin.
    rewrite (digest_unique _ _ _ _ Hpaths Hkf Hfin).
    by rewrite (digest_unique _ _ _ _ Hpaths Hkg Hgin).
  - intros Heq. exists (with_digest (md5 H cf) (scanned_digests H dir tree)).
    assert (f ∈ with_digest (md5 H cf) (scanned_digests H dir tree)) as Hfin
      by by apply elem_of_with_digest.
    assert (g ∈ with_digest (md5 H cf) (scanned_digests H dir tree)) as Hgin
      by (apply elem_of_with_digest; by rewrite Heq).
    split; [|done]. apply list_elem_of_filter. split.
    + by apply (two_members_length f g).
    + apply elem_of_group_by_digest. exists (md5 H cf). split; [done|].
      intros Hnil. rewrite Hnil in Hfin. by apply elem_of_nil in Hfin.
Qed.

Example find_duplicates_copies :
  find_duplicates identity_hasher ["/"; "data"; "imgs"] tree_with_copies
  = Ok ([FoundGroups 1; GroupHeader 1;
         FileItem "a.png" ["/"; "data"; "imgs"; "a.png"];
         FileItem "b.PNG" ["/"; "data"; "imgs"; "b.PNG"]], None).
Proof. by vm_compute. Qed.

Lemma duplicates_grouped_by_digest_witness :
  ∃ groups,
    find_duplicates identity_hasher ["/"; "data"; "imgs"] tree_with_copies
    = Ok (duplicates_display groups, None) ∧
    Forall (λ files, (2 ≤ length files)%nat) groups ∧
    ∀ f g ef eg cf cg,
      (f, ef) ∈ scanned ["/"; "data"; "imgs"] tree_with_copies →
      (g, eg) ∈ scanned ["/"; "data"; "imgs"] tree_with_copies →
      content_of ef = Some cf → content_of eg = Some cg → f ≠ g →
      (∃ files, files ∈ groups ∧ f ∈ files ∧ g ∈ files)
      ↔ md5 identity_hasher cf = md5 identity_hasher cg.
Proof.
  apply (duplicates_grouped_by_digest identity_hasher identity_hasher_laws
           ["/"; "data"; "imgs"] tree_with_copies).
  - by_computation.
  - by_computation.
Defined.

(** C7, as it was stated, fails: with a directory named like an image in the
    scanned tree, hashing it raises, the search is abandoned, and the two
    copies, whose digests are equal, are reported in no group. *)
Lemma equal_digests_not_reported :
  (["/"; "data"; "imgs"; "a.png"], fs.File "a.png" (fs.Readable "same bytes"))
    ∈ scanned ["/"; "data"; "imgs"] tree_with_copies_and_album ∧
  (["/"; "data"; "imgs"; "b.PNG"], fs.File "b.PNG" (fs.Readable "same bytes"))
    ∈ scanned ["/"; "data"; "imgs"] tree_with_copies_and_album ∧
  md5 identity_hasher "same bytes" = md5 identity_hasher "same bytes" ∧
  find_duplicates identity_hasher ["/"; "data"; "imgs"] tree_with_copies_and_album
  = Ok ([], Some "Search failed: [Errno 21] Is a directory").
Proof.
  split_and!; [| |done|by vm_compute].
  - set (l := scanned _ _). vm_compute in l. subst l. repeat constructor.
  - set (l := scanned _ _). vm_compute in l. subst l. repeat constructor.
Qed.

(** ** More of the two applications at work *)

(** half the width, the aspect ratio kept *)
Example calculate_resize_half :
  calculate_resize
    {| directory := ["/"; "data"; "imgs"];
       settings := {|
         input_format := "All Images"; output_format := "WebP"; quality := 80;
         recursive := true; delete_original := false; preserve_metadata := true;
         resize_enabled := true; resize_width := 320; resize_height := 0;
         maintain_aspect_ratio := true; apply_optimization := true;
         rename_pattern := ""; add_suffix := ""; output_directory := "";
         max_workers := 4 |};
       _is_cancelled := false |} (640, 480)
  = Ok (320, 240).
Proof. reflexivity. Qed.

(** the Tkinter handler names two classes: an exception of another class
    leaves the per-file step *)
Example tkinter_other_exception_propagates :
  converter_arquivo (env_open_raises (Exn OtherException "decompression bomb"))
    ["/"; "data"; "imgs"] 80 source_example
    {| convertidos := 0; erros := 0; total_economia := 0 |} []
  = (Raise (Exn OtherException "decompression bomb"),
     {| convertidos := 0; erros := 0; total_economia := 0 |},
     [Image_open source_example]).
Proof. reflexivity. Qed.

(** a whole pass of the Tkinter application over [tree_example] *)
Example converter_imagens_example :
  (converter_imagens env_ok ["/"; "data"; "imgs"] 80 tree_example
     {| convertidos := 0; erros := 0; total_economia := 0 |} []).1.2
  = {| convertidos := 3; erros := 0; total_economia := 0 |}.
Proof. by vm_compute. Qed.

(** without [recursive], only the top level is scanned *)
Example find_images_top_level :
  find_images
    {| directory := ["/"; "data"; "imgs"];
       settings := {|
         input_format := "PNG"; output_format := "WebP"; quality := 80;
         recursive := false; delete_original := false; preserve_metadata := true;
         resize_enabled := false; resize_width := 0; resize_height := 0;
         maintain_aspect_ratio := true; apply_optimization := true;
         rename_pattern := ""; add_suffix := ""; output_directory := "";
         max_workers := 4 |};
       _is_cancelled := false |}
    (tree_example ++ [fs.Dir "more" [fs.File "d.png" (fs.Readable "d")]])
  = [["/"; "data"; "imgs"; "a.PNG"]; ["/"; "data"; "imgs"; "b.png"]].
Proof. by vm_compute. Qed.

(** * Further properties of the code *)

(** ** The scan and the listing order *)

Lemma listdir_Permutation base t1 t2 :
  t1 ≡ₚ t2 → fs.listdir base t1 ≡ₚ fs.listdir base t2.
Proof. intros Hperm. unfold fs.listdir. by apply Permutation_map. Qed.

Lemma walk_Permutation base t1 t2 :
  t1 ≡ₚ t2 → fs.walk base t1 ≡ₚ fs.walk base t2.
Proof.
  intros Hperm. unfold fs.walk. apply Permutation_app.
  - by apply listdir_Permutation.
  - by apply Permutation_flat_map.
Qed.

Lemma globbed_images_Permutation w t1 t2 p :
  t1 ≡ₚ t2 → p ∈ globbed_images w t1 → p ∈ globbed_images w t2.
Proof.
  intros Hperm. rewrite !elem_of_globbed_images.
  intros (e & ext & Hin & Hrest). exists e, ext. split; [|done].
  unfold in_scope in *. destruct (recursive (settings w)).
  - by rewrite <- (walk_Permutation _ _ _ Hperm).
  - by rewrite <- (listdir_Permutation _ _ _ Hperm).
Qed.

(** X1.  The list [find_images] returns does not depend on the order in
    which the operating system lists the entries of the scanned directory. *)
Theorem find_images_listing_order w tree1 tree2 :
  tree1 ≡ₚ tree2 → find_images w tree1 = find_images w tree2.
Proof.
  intros Hperm. apply sorted_NoDup_unique; [apply find_images_sorted..|].
  apply NoDup_Permutation; [apply find_images_NoDup..|].
  intros p. rewrite !elem_of_find_images. split.
  - by apply globbed_images_Permutation.
  - apply globbed_images_Permutation. by symmetry.
Qed.

Lemma find_images_listing_order_witness :
  find_images worker_example
    [fs.File "b.png" (fs.Readable "b"); fs.File "a.png" (fs.Readable "a")]
  = find_images worker_example
      [fs.File "a.png" (fs.Readable "a"); fs.File "b.png" (fs.Readable "b")].
Proof.
  apply (find_images_listing_order worker_example
           [fs.File "b.png" (fs.Readable "b"); fs.File "a.png" (fs.Readable "a")]
           [fs.File "a.png" (fs.Readable "a"); fs.File "b.png" (fs.Readable "b")]).
  apply perm_swap.
Defined.

(** ** Discovered images and their output paths *)

Lemma below_under : ∀ e0 base p e,
  (p, e) ∈ fs.below base e0 → ∃ rel, p = base ++ rel ++ [fs.entry_name e].
Proof.
  fix IH 1. intros [n d|n children] base p e; simpl.
  - by intros ?%elem_of_nil.
  - intros [Hin|Hin]%elem_of_app.
    + unfold fs.listdir in Hin. apply list_elem_of_In, in_map_iff in Hin
        as (c & [= <- <-] & _).
      exists [n]. by rewrite <- app_assoc.
    + assert (∃ rel, p = (base ++ [n]) ++ rel ++ [fs.entry_name e])
        as (rel & ->).
      { revert Hin. generalize (base ++ [n]).
        induction children as [|c cs IHcs]; simpl; intros b Hin.
        - by apply elem_of_nil in Hin.
        - apply elem_of_app in Hin as [Hin|Hin].
          + exact (IH c _ _ _ Hin).
          + exact (IHcs _ Hin). }
      exists (n :: rel). by rewrite <- !app_assoc.
Qed.

Lemma walk_under base tree p e :
  (p, e) ∈ fs.walk base tree → ∃ rel, p = base ++ rel ++ [fs.entry_name e].
Proof.
  unfold fs.walk. intros [Hin|Hin]%elem_of_app.
  - unfold fs.listdir in Hin. apply list_elem_of_In, in_map_iff in Hin
      as (c & [= <- <-] & _).
    by exists [].
  - apply list_elem_of_In, in_flat_map in Hin as (c & _ & Hin).
    apply list_elem_of_In in Hin. by apply below_under in Hin.
Qed.

Lemma find_images_under w tree p :
  p ∈ find_images w tree → ∃ rel name, p = directory w ++ rel ++ [name].
Proof.
  rewrite elem_of_find_images, elem_of_globbed_images.
  intros (e & _ & Hin & _). unfold in_scope in Hin.
  destruct (recursive (settings w)).
  - apply walk_under in Hin as (rel & ->). eauto.
  - unfold fs.listdir in Hin. apply list_elem_of_In, in_map_iff in Hin
      as (c & [= <- <-] & _).
    by exists [], (fs.entry_name c).
Qed.

Lemma parent_snoc_nonempty d s : d ≠ [] → pathlib.parent (d ++ [s]) = d.
Proof.
  intros Hd. unfold pathlib.parent. destruct d as [|a d]; [done|].
  simpl. destruct (d ++ [s]) as [|b l] eqn:Hdl; [by destruct d|].
  rewrite <- Hdl. by rewrite removelast_last.
Qed.

Lemma strip_prefix_app other rel :
  pathlib.strip_prefix (other ++ rel) other = Some rel.
Proof.
  induction other as [|o other IH]; simpl; [by destruct rel|].
  by rewrite decide_True.
Qed.

Lemma relative_to_app other rel :
  other ≠ [] → pathlib.relative_to (other ++ rel) other = Some rel.
Proof.
  intros Hother. unfold pathlib.relative_to.
  destruct other as [|o other]; [done|]. apply strip_prefix_app.
Qed.

Lemma output_stem_returns env w source h :
  ∃ stem h', output_stem env w source h = (Ok stem, h').
Proof.
  unfold output_stem, mbind, M_bind, perform, mret, M_ret.
  destruct (Py.truthy (rename_pattern (settings w))); eauto.
Qed.

(** X2.  Every image [find_images] returns lies under the scanned directory,
    so the [relative_to] of [generate_output_path] never raises for it; with
    a known output format, and an output directory that can be created when
    one is configured, [generate_output_path] returns a path for every
    discovered image. *)
Theorem discovered_image_has_output_path env w tree p h :
  directory w ≠ [] →
  is_Some (OUTPUT_FORMATS !! output_format (settings w)) →
  (∀ k d, do_mkdir env k d = Ok ()) →
  p ∈ find_images w tree →
  (∃ rel, pathlib.parent p = directory w ++ rel ∧
          pathlib.relative_to (pathlib.parent p) (directory w) = Some rel) ∧
  ∃ out h', generate_output_path env w p h = (Ok out, h').
Proof.
  intros Hdir [cfg Hcfg] Hmk (rel & name & ->)%find_images_under.
  assert (pathlib.parent (directory w ++ rel ++ [name]) = directory w ++ rel)
    as Hparent.
  { rewrite app_assoc. apply parent_snoc_nonempty. by destruct (directory w). }
  split.
  { exists rel. rewrite Hparent. split; [done|]. by apply relative_to_app. }
  unfold generate_output_path, OUTPUT_FORMATS_getitem, mbind, M_bind, pure.
  rewrite Hcfg.
  destruct (output_stem_returns env w (directory w ++ rel ++ [name]) h)
    as (stem & h1 & ->).
  unfold output_dir_of. rewrite Hparent.
  destruct (Py.truthy (output_directory (settings w))); [|by eexists _, _].
  unfold mbind, M_bind, pure, perform.
  rewrite (relative_to_app _ _ Hdir), Hmk. by eexists _, _.
Qed.

Lemma discovered_image_has_output_path_witness :
  (∃ rel, pathlib.parent ["/"; "data"; "imgs"; "sub"; "c.jpeg"]
          = directory worker_relocating ++ rel ∧
          pathlib.relative_to (pathlib.parent ["/"; "data"; "imgs"; "sub"; "c.jpeg"])
            (directory worker_relocating) = Some rel) ∧
  ∃ out h', generate_output_path env_ok worker_relocating
              ["/"; "data"; "imgs"; "sub"; "c.jpeg"] [] = (Ok out, h').
Proof.
  apply (discovered_image_has_output_path env_ok worker_relocating tree_example).
  - discriminate.
  - by eexists.
  - reflexivity.
  - set (l := find_images _ _). vm_compute in l. subst l. repeat constructor.
Defined.

(** ** What one conversion calls, and in which order *)

Lemma M_bind_Ok {A B} (m : M A) (f : A → M B) h b h' :
  (m ≫= f) h = (Ok b, h') → ∃ a h1, m h = (Ok a, h1) ∧ f a h1 = (Ok b, h').
Proof.
  unfold mbind, M_bind. destruct (m h) as [[a|e] h1]; [eauto|done].
Qed.

(** a value that calls nothing, then its continuation *)
Lemma appends_bind_pure {A B} P (x : result A) (f : A → M B) :
  (∀ a, x = Ok a → appends P (f a)) → appends P (pure x ≫= f).
Proof.
  intros Hf h r h' Hrun. unfold mbind, M_bind, pure in Hrun.
  destruct x as [a|e]; [by eapply Hf|].
  injection Hrun as <- <-. exists []. by rewrite app_nil_r.
Qed.

Lemma calculate_resize_nothing_given w sz :
  resize_width (settings w) = 0 → resize_height (settings w) = 0 →
  calculate_resize w sz = Ok sz.
Proof.
  intros Hw Hh. unfold calculate_resize. destruct sz as [width height].
  rewrite Hw, Hh. unfold int_or, int_truthy. simpl.
  by destruct (maintain_aspect_ratio (settings w)).
Qed.

Lemma transcode_resize_requested env w source out :
  appends (resize_requested w) (transcode env w source out).
Proof.
  unfold transcode.
  apply appends_bind; [by apply appends_perform|intros img].
  apply appends_bind; [solve_appends|intros img1].
  apply appends_bind; [|intros img2; solve_appends].
  destruct (resize_enabled (settings w)) eqn:Hon; [|apply appends_ret].
  apply appends_bind_pure. intros new_size Hnew.
  case_bool_decide as Hdiff; [|apply appends_ret].
  apply appends_bind; [|intros _; apply appends_ret].
  apply appends_perform. intros sz [= <-]. split; [done|].
  destruct (decide (resize_width (settings w) = 0)) as [Hw|Hw]; [|by left].
  destruct (decide (resize_height (settings w) = 0)) as [Hh|Hh]; [|by right].
  rewrite (calculate_resize_nothing_given _ _ Hw Hh) in Hnew.
  by injection Hnew as <-.
Qed.

Lemma transcode_saves_as env w source out :
  appends (saves_as w out) (transcode env w source out).
Proof.
  unfold transcode.
  apply appends_bind; [by apply appends_perform|intros img].
  apply appends_bind; [solve_appends|intros img1].
  apply appends_bind; [solve_appends|intros img2].
  apply appends_bind_pure. intros cfg Hcfg.
  apply appends_perform. intros p fmt kwargs [= <- <- <-]. split; [done|].
  exists cfg. unfold OUTPUT_FORMATS_getitem in Hcfg.
  destruct (OUTPUT_FORMATS !! output_format (settings w)); [|done].
  by injection Hcfg as ->.
Qed.

(** [transcode] when it returns: the save is its last call, and it returned *)
Lemma transcode_returns env w source out h h' :
  transcode env w source out h = (Ok (), h') →
  ∃ mid fmt kwargs,
    h' = h ++ mid ++ [Image_save out fmt kwargs] ∧
    Forall before_save mid ∧
    pil env (h ++ mid) (Image_save out fmt kwargs) = Ok ().
Proof.
  unfold transcode. intros Hrun.
  apply M_bind_Ok in Hrun as (img & h1 & Hopen & Hrun).
  apply M_bind_Ok in Hrun as (img1 & h2 & Hmode & Hrun).
  apply M_bind_Ok in Hrun as (img2 & h3 & Hresize & Hrun).
  apply M_bind_Ok in Hrun as (cfg & h4 & Hcfg & Hrun).
  injection Hopen as _ <-. injection Hcfg as _ <-.
  match type of Hmode with
  | ?m _ = _ => assert (appends before_save m) as Ha by solve_appends
  end.
  destruct (Ha _ _ _ Hmode) as (n1 & -> & Hn1). clear Ha Hmode.
  match type of Hresize with
  | ?m _ = _ => assert (appends before_save m) as Ha by solve_appends
  end.
  destruct (Ha _ _ _ Hresize) as (n2 & -> & Hn2). clear Ha Hresize.
  unfold perform in Hrun. injection Hrun as Hsave <-.
  eexists (Image_open source :: n1 ++ n2), _, _.
  split; [simpl; rewrite <- !app_assoc; reflexivity|].
  split; [constructor; [done|by apply Forall_app]|].
  by rewrite <- !app_assoc in Hsave.
Qed.

(** the history of [convert_body]: without an [unlink], or ending in the
    save that returned, the [stat] of the output that returned, and the
    [unlink] of the source *)
Lemma convert_body_history env w source out original h r h' :
  convert_body env w source out original h = (r, h') →
  ∃ new, h' = h ++ new ∧
    (Forall not_unlink new ∨
     ∃ mid fmt kwargs n,
       new = mid ++ [Image_save out fmt kwargs; stat out; unlink source] ∧
       Forall before_save mid ∧
       pil env (h ++ mid) (Image_save out fmt kwargs) = Ok () ∧
       st_size env (h ++ mid ++ [Image_save out fmt kwargs]) out = Ok n).
Proof.
  unfold convert_body. intros Hrun. unfold mbind at 1, M_bind at 1 in Hrun.
  destruct (transcode env w source out h) as [[[]|e] h1] eqn:Htrans.
  2: { injection Hrun as <- <-.
       destruct (transcode_appends _ _ _ _ _ _ _ Htrans) as (new & -> & Hnew).
       exists new. split; [done|by left]. }
  apply transcode_returns in Htrans as (mid & fmt & kwargs & -> & Hmid & Hsave).
  assert (Forall not_unlink mid) as Hmid'.
  { eapply Forall_impl; [exact Hmid|]. by intros []. }
  unfold mbind, M_bind, perform in Hrun.
  destruct (st_size env (h ++ mid ++ [Image_save out fmt kwargs]) out)
    as [n|e] eqn:Hstat.
  2: { injection Hrun as <- <-.
       exists (mid ++ [Image_save out fmt kwargs; stat out]).
       split; [by rewrite <- !app_assoc|]. left.
       apply Forall_app. split; [done|]. by repeat constructor. }
  destruct (delete_original (settings w) && negb (bool_decide (source = out))).
  - exists (mid ++ [Image_save out fmt kwargs; stat out; unlink source]).
    split.
    { destruct (do_unlink env _ source); injection Hrun as <- <-;
        by rewrite <- !app_assoc. }
    right. by exists mid, fmt, kwargs, n.
  - injection Hrun as <- <-.
    exists (mid ++ [Image_save out fmt kwargs; stat out]).
    split; [by rewrite <- !app_assoc|]. left.
    apply Forall_app. split; [done|]. by repeat constructor.
Qed.

(** X3.  [convert_single_image] deletes the source only as its very last
    call, right after the save of the output returned and the [stat] of the
    written output file returned its size: a source is never deleted when
    writing the output failed or the output file cannot be found. *)
Theorem source_deleted_after_output_written env w source h r h' new p :
  convert_single_image env w source h = (r, h') →
  h' = h ++ new →
  unlink p ∈ new →
  p = source ∧
  ∃ front out fmt kwargs n,
    new = front ++ [Image_save out fmt kwargs; stat out; unlink source] ∧
    Forall not_unlink front ∧
    pil env (h ++ front) (Image_save out fmt kwargs) = Ok () ∧
    st_size env (h ++ front ++ [Image_save out fmt kwargs]) out = Ok n.
Proof.
  intros Hrun Hnew Hin.
  destruct (st_size env h source) as [original|e] eqn:Hstat.
  2: { rewrite (convert_single_image_stat_raises _ _ _ _ _ Hstat) in Hrun.
       injection Hrun as _ <-. apply app_inv_head in Hnew as <-.
       by apply list_elem_of_singleton in Hin. }
  destruct (generate_output_path env w source (h ++ [stat source]))
    as [[out|e] h1] eqn:Hpath;
    destruct (generate_output_path_appends _ _ _ _ _ _ Hpath) as (n1 & -> & Hn1).
  2: { rewrite (convert_single_image_path_raises _ _ _ _ _ _ _ Hstat Hpath) in Hrun.
       injection Hrun as _ <-. rewrite <- app_assoc in Hnew.
       apply app_inv_head in Hnew as <-.
       apply elem_of_cons in Hin as [[=]|Hin].
       by apply (proj1 (Forall_forall _ _) Hn1) in Hin. }
  rewrite (convert_single_image_unfold _ _ _ _ _ _ _ Hstat Hpath) in Hrun.
  destruct (convert_body env w source out original ((h ++ [stat source]) ++ n1))
    as [r' h2] eqn:Hbody.
  apply convert_body_history in Hbody as (n2 & -> & Hn2).
  assert (new = stat source :: n1 ++ n2) as ->.
  { apply (app_inv_head h). rewrite <- Hnew.
    destruct r' as [r'|e]; [|destruct (is_Exception e)]; injection Hrun as _ <-;
      by rewrite <- !app_assoc. }
  destruct Hn2 as [Hn2|(mid & fmt & kwargs & n & -> & Hmid & Hsave & Hout)].
  { apply elem_of_cons in Hin as [[=]|[Hin|Hin]%elem_of_app].
    - by apply (proj1 (Forall_forall _ _) Hn1) in Hin.
    - by apply (proj1 (Forall_forall _ _) Hn2) in Hin. }
  assert (Forall not_unlink mid) as Hmid'.
  { eapply Forall_impl; [exact Hmid|]. by intros []. }
  split.
  { apply elem_of_cons in Hin as [[=]|[Hin|[Hin|Hin]%elem_of_app]%elem_of_app].
    - by apply (proj1 (Forall_forall _ _) Hn1) in Hin.
    - by apply (proj1 (Forall_forall _ _) Hmid') in Hin.
    - repeat (apply elem_of_cons in Hin as [[=]|Hin]); [done|].
      by apply elem_of_nil in Hin. }
  exists (stat source :: n1 ++ mid), out, fmt, kwargs, n.
  split; [simpl; by rewrite <- ?app_assoc|].
  split; [constructor; [done|by apply Forall_app]|].
  split.
  - rewrite <- Hsave. f_equal. by rewrite <- !app_assoc.
  - rewrite <- Hout. f_equal. simpl. by rewrite <- !app_assoc.
Qed.

Lemma source_deleted_after_output_written_witness :
  ["/"; "data"; "imgs"; "a.png"] = source_example ∧
  ∃ front out fmt kwargs n,
    [stat source_example; Image_open source_example;
     Image_save ["/"; "data"; "imgs"; "a.webp"] "WEBP"
       [("quality", kw_int 80); ("optimize", kw_bool true); ("method", kw_int 6)];
     stat ["/"; "data"; "imgs"; "a.webp"]; unlink source_example]
    = front ++ [Image_save out fmt kwargs; stat out; unlink source_example] ∧
    Forall not_unlink front ∧
    pil env_ok ([] ++ front) (Image_save out fmt kwargs) = Ok () ∧
    st_size env_ok ([] ++ front ++ [Image_save out fmt kwargs]) out = Ok n.
Proof.
  apply (source_deleted_after_output_written env_ok worker_deleting source_example []
           (convert_single_image env_ok worker_deleting source_example []).1
           (convert_single_image env_ok worker_deleting source_example []).2).
  - reflexivity.
  - reflexivity.
  - repeat constructor.
Defined.

Lemma appends_and {A} (P Q : call → Prop) (m : M A) :
  appends P m → appends Q m → appends (λ c, P c ∧ Q c) m.
Proof.
  intros HP HQ h r h' Hrun.
  destruct (HP _ _ _ Hrun) as (new & -> & Hnew).
  destruct (HQ _ _ _ Hrun) as (new' & Heq & Hnew').
  apply app_inv_head in Heq as <-.
  exists new. split; [done|]. by apply Forall_and.
Qed.

Lemma generate_output_path_calls env w source :
  appends path_call (generate_output_path env w source).
Proof.
  unfold generate_output_path, output_stem, output_dir_of. solve_appends.
Qed.

Lemma transcode_opens_source env w source out :
  appends (opens_only source) (transcode env w source out).
Proof.
  unfold transcode.
  apply appends_bind; [apply appends_perform; by intros p [= <-]|intros img].
  solve_appends.
Qed.

Lemma convert_body_saves_as env w source out original :
  appends (λ c, saves_as w out c ∧ opens_only source c)
    (convert_body env w source out original).
Proof.
  unfold convert_body.
  apply appends_bind; [|intros _].
  { apply appends_and; [apply transcode_saves_as|apply transcode_opens_source]. }
  solve_appends.
Qed.

(** X4.  Whatever [convert_single_image] saves, it saves to the path
    [generate_output_path] returned, under the format name that is the
    extension of the chosen output format without its dot and in upper case
    (so ["JPG"] for the format ["JPEG"]), with the keyword arguments that
    [OUTPUT_FORMATS] and the settings give; and it opens no other file than
    the source. *)
Theorem saves_only_the_output_path env w source h r h' new :
  convert_single_image env w source h = (r, h') →
  h' = h ++ new →
  (∀ p fmt kwargs, Image_save p fmt kwargs ∈ new →
     (∃ h1, generate_output_path env w source (h ++ [stat source]) = (Ok p, h1)) ∧
     ∃ cfg, OUTPUT_FORMATS !! output_format (settings w) = Some cfg ∧
            fmt = Py.upper (Py.drop 1 (ext cfg)) ∧
            kwargs = save_kwargs (settings w) cfg) ∧
  (∀ p, Image_open p ∈ new → p = source).
Proof.
  intros Hrun Hnew.
  destruct (st_size env h source) as [original|e] eqn:Hstat.
  2: { rewrite (convert_single_image_stat_raises _ _ _ _ _ Hstat) in Hrun.
       injection Hrun as _ <-. apply app_inv_head in Hnew as <-.
       split; [intros p fmt kwargs Hin|intros p Hin];
         by apply list_elem_of_singleton in Hin. }
  destruct (generate_output_path env w source (h ++ [stat source]))
    as [[out|e] h1] eqn:Hpath;
    destruct (generate_output_path_calls _ _ _ _ _ _ Hpath) as (n1 & -> & Hn1).
  2: { rewrite (convert_single_image_path_raises _ _ _ _ _ _ _ Hstat Hpath) in Hrun.
       injection Hrun as _ <-. rewrite <- app_assoc in Hnew.
       apply app_inv_head in Hnew as <-.
       split; [intros p fmt kwargs Hin|intros p Hin];
         (apply elem_of_cons in Hin as [[=]|Hin];
          by apply (proj1 (Forall_forall _ _) Hn1) in Hin). }
  rewrite (convert_single_image_unfold _ _ _ _ _ _ _ Hstat Hpath) in Hrun.
  destruct (convert_body env w source out original ((h ++ [stat source]) ++ n1))
    as [r' h2] eqn:Hbody.
  apply convert_body_saves_as in Hbody as (n2 & -> & Hn2).
  assert (new = stat source :: n1 ++ n2) as ->.
  { apply (app_inv_head h). rewrite <- Hnew.
    destruct r' as [r'|e]; [|destruct (is_Exception e)]; injection Hrun as _ <-;
      by rewrite <- !app_assoc. }
  split.
  - intros p fmt kwargs [[=]|[Hin|Hin]%elem_of_app]%elem_of_cons.
    { by apply (proj1 (Forall_forall _ _) Hn1) in Hin. }
    destruct (proj1 (Forall_forall _ _) Hn2 _ Hin) as [Hsave _].
    destruct (Hsave p fmt kwargs eq_refl) as (-> & Hcfg). eauto.
  - intros p [[=]|[Hin|Hin]%elem_of_app]%elem_of_cons.
    { by apply (proj1 (Forall_forall _ _) Hn1) in Hin. }
    destruct (proj1 (Forall_forall _ _) Hn2 _ Hin) as [_ Hopen]. by apply Hopen.
Qed.

Lemma saves_only_the_output_path_witness :
  (∀ p fmt kwargs,
     Image_save p fmt kwargs ∈ (convert_single_image env_ok worker_jpeg source_example []).2 →
     (∃ h1, generate_output_path env_ok worker_jpeg source_example
              ([] ++ [stat source_example]) = (Ok p, h1)) ∧
     ∃ cfg, OUTPUT_FORMATS !! output_format (settings worker_jpeg) = Some cfg ∧
            fmt = Py.upper (Py.drop 1 (ext cfg)) ∧
            kwargs = save_kwargs (settings worker_jpeg) cfg) ∧
  (∀ p, Image_open p ∈ (convert_single_image env_ok worker_jpeg source_example []).2 →
        p = source_example).
Proof.
  apply (saves_only_the_output_path env_ok worker_jpeg source_example []
           (convert_single_image env_ok worker_jpeg source_example []).1
           (convert_single_image env_ok worker_jpeg source_example []).2).
  - reflexivity.
  - reflexivity.
Defined.

(** the format name Pillow is given for the output format ["JPEG"] *)
Example jpeg_is_saved_as_jpg :
  (convert_single_image env_ok worker_jpeg source_example []).2
  = [stat source_example; Image_open source_example;
     Image_save ["/"; "data"; "imgs"; "a.jpg"] "JPG"
       [("quality", kw_int 80); ("optimize", kw_bool true)];
     stat ["/"; "data"; "imgs"; "a.jpg"]].
Proof. reflexivity. Qed.

(** X5.  [convert_single_image] resizes only on request: an [Image.resize]
    call is made only when resizing is switched on and a width or a height is
    given; with both left at [0] the image keeps its size, whatever the
    aspect-ratio setting. *)
Theorem resizes_only_on_request env w source h r h' new sz :
  convert_single_image env w source h = (r, h') →
  h' = h ++ new →
  Image_resize sz ∈ new →
  resize_enabled (settings w) = true ∧
  (resize_width (settings w) ≠ 0 ∨ resize_height (settings w) ≠ 0).
Proof.
  intros Hrun Hnew Hin.
  assert (appends (resize_requested w) (convert_single_image env w source)) as Ha.
  { unfold convert_single_image.
    apply appends_bind; [apply appends_perform; by intros ? [=]|intros original].
    apply appends_bind; [|intros out].
    { eapply appends_weaken; [|apply generate_output_path_calls].
      intros [] Hc ? [=]; done. }
    apply appends_try_except; [|intros e; apply appends_ret].
    unfold convert_body.
    apply appends_bind; [apply transcode_resize_requested|intros _].
    solve_appends; by intros ? [=]. }
  destruct (Ha _ _ _ Hrun) as (new' & Heq & Hall). subst h'.
  apply app_inv_head in Heq as <-.
  exact (proj1 (Forall_forall _ _) Hall _ Hin sz eq_refl).
Qed.

Lemma resizes_only_on_request_witness :
  resize_enabled (settings worker_resizing) = true ∧
  (resize_width (settings worker_resizing) ≠ 0 ∨
   resize_height (settings worker_resizing) ≠ 0).
Proof.
  apply (resizes_only_on_request env_ok worker_resizing source_example []
           (convert_single_image env_ok worker_resizing source_example []).1
           (convert_single_image env_ok worker_resizing source_example []).2
           (convert_single_image env_ok worker_resizing source_example []).2
           (320, 240)).
  - reflexivity.
  - reflexivity.
  - vm_compute. repeat constructor.
Defined.



Lemma generate_output_path_stem_parent env w p q h :
  pathlib.parent p = pathlib.parent q →
  pathlib.stem p = pathlib.stem q →
  generate_output_path env w p h = generate_output_path env w q h.
Proof.
  intros Hparent Hstem.
  unfold generate_output_path, output_stem, output_dir_of.
  by rewrite Hparent, Hstem.
Qed.

Lemma rfind_absent c s : Py.contains c s = false → Py.rfind c s = None.
Proof.
  induction s as [|a s IH]; simpl; [done|].
  intros [Ha Hs]%orb_false_elim. by rewrite (IH Hs), Ha.
Qed.

Lemma rfind_last_dot s e :
  Py.contains "." e = false →
  Py.rfind "." (s +:+ String "." e) = Some (String.length s).
Proof.
  intros He. induction s as [|a s IH].
  - change (Py.rfind "." (String "." e) = Some 0%nat). simpl.
    by rewrite (rfind_absent _ _ He).
  - change (Py.rfind "." (String a (s +:+ String "." e))
            = Some (S (String.length s))).
    simpl. by rewrite IH.
Qed.

Lemma take_app_length s t : Py.take (String.length s) (s +:+ t) = s.
Proof.
  induction s as [|a s IH]; [by destruct t|].
  change (Py.take (S (String.length s)) (String a (s +:+ t)) = String a s).
  simpl. by rewrite IH.
Qed.

Lemma drop_app_length s t : Py.drop (String.length s) (s +:+ t) = t.
Proof.
  induction s as [|a s IH]; [by destruct t|].
  change (Py.drop (S (String.length s)) (String a (s +:+ t)) = t).
  simpl. exact IH.
Qed.

(** the stem and the suffix of a name made of a stem and an extension *)
Lemma stem_suffix_of_name s e :
  s ≠ "" → dot_extension e →
  pathlib.stem_of_name (s +:+ e) = s ∧ pathlib.suffix_of_name (s +:+ e) = e.
Proof.
  intros Hs (e' & -> & He' & Hdot & _).
  unfold pathlib.stem_of_name, pathlib.suffix_of_name.
  rewrite (rfind_last_dot _ _ Hdot), string_app_length.
  assert ((0 <? String.length s)%nat
          && (String.length s <? String.length s + String.length (String "." e') - 1)%nat
          = true) as ->.
  { apply andb_true_iff. rewrite !Nat.ltb_lt.
    destruct s; [done|]. destruct e'; [done|]. simpl. lia. }
  by rewrite take_app_length, drop_app_length.
Qed.

(** X7.  The output path depends on the source only through its directory
    and its stem: two sources of one directory whose names differ only in
    the extension ([a.png] and [a.jpg]) are given the same output path, so
    of two such conversions the one that saves last overwrites the output of
    the other. *)
Theorem same_stem_same_output_path env w d s e1 e2 h :
  s ≠ "" → Py.contains "/" s = false →
  dot_extension e1 → dot_extension e2 →
  pathlib.stem (d ++ [s +:+ e1]) = s ∧
  pathlib.stem (d ++ [s +:+ e2]) = s ∧
  generate_output_path env w (d ++ [s +:+ e1]) h
  = generate_output_path env w (d ++ [s +:+ e2]) h.
Proof.
  intros Hs Hsep He1 He2.
  assert (∀ e, dot_extension e →
               pathlib.parent (d ++ [s +:+ e]) = d ∧
               pathlib.stem (d ++ [s +:+ e]) = s) as Hparts.
  { intros e He.
    assert (Py.contains "/" (s +:+ e) = false) as Hname.
    { rewrite contains_app, Hsep. destruct He as (e' & -> & _ & _ & He').
      simpl. by rewrite He'. }
    split; [by apply parent_snoc|].
    unfold pathlib.stem. rewrite (name_snoc _ _ Hname).
    by apply stem_suffix_of_name. }
  destruct (Hparts e1 He1) as [Hp1 Hs1], (Hparts e2 He2) as [Hp2 Hs2].
  split; [done|]. split; [done|].
  apply generate_output_path_stem_parent; congruence.
Qed.

Lemma same_stem_same_output_path_witness :
  pathlib.stem (["/"; "data"; "imgs"] ++ ["a" +:+ ".png"]) = "a" ∧
  pathlib.stem (["/"; "data"; "imgs"] ++ ["a" +:+ ".jpg"]) = "a" ∧
  generate_output_path env_ok worker_example
    (["/"; "data"; "imgs"] ++ ["a" +:+ ".png"]) []
  = generate_output_path env_ok worker_example
      (["/"; "data"; "imgs"] ++ ["a" +:+ ".jpg"]) [].
Proof.
  apply (same_stem_same_output_path env_ok worker_example
           ["/"; "data"; "imgs"] "a" ".png" ".jpg" []).
  - discriminate.
  - reflexivity.
  - exists "png". repeat split. discriminate.
  - exists "jpg". repeat split. discriminate.
Defined.

(** ** The quality slider *)

Lemma OUTPUT_FORMATS_entries key cfg :
  OUTPUT_FORMATS !! key = Some cfg →
  (key, cfg) ∈
    [("WebP", {| ext := ".webp"; fc_quality := true; fc_optimize := true |});
     ("PNG", {| ext := ".png"; fc_quality := false; fc_optimize := true |});
     ("JPEG", {| ext := ".jpg"; fc_quality := true; fc_optimize := true |});
     ("BMP", {| ext := ".bmp"; fc_quality := false; fc_optimize := false |});
     ("GIF", {| ext := ".gif"; fc_quality := false; fc_optimize := true |});
     ("TIFF", {| ext := ".tiff"; fc_quality := true; fc_optimize := false |});
     ("ICO", {| ext := ".ico"; fc_quality := false; fc_optimize := false |})].
Proof. apply elem_of_list_to_map_2. Qed.

(** X8.  The quality slider is enabled for exactly the output formats for
    which [convert_single_image] passes the quality setting to [img.save]:
    for every format of [OUTPUT_FORMATS], [on_output_format_changed] enables
    the slider if and only if the keyword arguments of the save hold
    [quality]; when it disables the slider it sets the label to ["N/A"]. *)
Theorem quality_slider_enabled_iff_quality_saved s cfg :
  OUTPUT_FORMATS !! output_format s = Some cfg →
  ((on_output_format_changed (output_format s)).1 = true ↔
   ("quality", kw_int (quality s)) ∈ save_kwargs s cfg) ∧
  ((on_output_format_changed (output_format s)).1 = true ↔
   ∃ v, ("quality", v) ∈ save_kwargs s cfg) ∧
  ((on_output_format_changed (output_format s)).1 = false ↔
   (on_output_format_changed (output_format s)).2 = Some "N/A").
Proof.
  intros Hcfg. unfold on_output_format_changed. rewrite Hcfg. simpl.
  apply OUTPUT_FORMATS_entries in Hcfg.
  unfold save_kwargs.
  repeat (apply elem_of_cons in Hcfg as [[= -> ->]|Hcfg];
    [simpl; destruct (apply_optimization s); simpl;
     (split; [|split]);
     (split;
      [ intros ?; try discriminate; try done;
        solve [ by left | by eexists; left ]
      | first
          [ done
          | intros Hin; try destruct Hin as [v Hin];
            repeat (apply elem_of_cons in Hin as [[=]|Hin]);
            by apply elem_of_nil in Hin ] ])
    |]).
  by apply elem_of_nil in Hcfg.
Qed.

Lemma quality_slider_enabled_iff_quality_saved_witness :
  ((on_output_format_changed "WebP").1 = true ↔
   ("quality", kw_int 80)
     ∈ [("quality", kw_int 80); ("optimize", kw_bool true); ("method", kw_int 6)]) ∧
  ((on_output_format_changed "WebP").1 = true ↔
   ∃ v, ("quality", v)
          ∈ [("quality", kw_int 80); ("optimize", kw_bool true); ("method", kw_int 6)]) ∧
  ((on_output_format_changed "WebP").1 = false ↔
   (on_output_format_changed "WebP").2 = Some "N/A").
Proof.
  apply (quality_slider_enabled_iff_quality_saved default_settings
           {| ext := ".webp"; fc_quality := true; fc_optimize := true |}).
  reflexivity.
Defined.

(** an unknown format name disables the slider *)
Example slider_disabled_for_unknown_format :
  on_output_format_changed "AVIF" = (false, Some "N/A").
Proof. reflexivity. Qed.

(** ** The results of a run *)

Lemma as_completed_Permutation choices :
  ∀ pending, as_completed choices pending ≡ₚ pending.
Proof.
  induction choices as [|c choices IH]; intros pending; simpl; [done|].
  destruct (pending !! _) as [img|] eqn:Hlook; [|done].
  rewrite IH. symmetry. by apply delete_Permutation.
Qed.

Lemma progress_signals_app h1 h2 :
  progress_signals (h1 ++ h2) = progress_signals h1 ++ progress_signals h2.
Proof. apply omap_app. Qed.

Lemma completions_app h1 h2 : completions (h1 ++ h2) = completions h1 ++ completions h2.
Proof. apply omap_app. Qed.

Lemma progress_signals_around l : Forall around_loop l → progress_signals l = [].
Proof.
  induction 1 as [|c l Hc _ IH]; [done|].
  unfold progress_signals in *.
  destruct c as [| | | | | | | | | | |s| | | | | |]; try done.
  by destruct s.
Qed.

Lemma completions_not_complete l : Forall not_complete l → completions l = [].
Proof.
  induction 1 as [|c l Hc _ IH]; [done|].
  unfold completions in *.
  destruct c as [| | | | | | | | | | |s| | | | | |]; try done.
  by destruct s.
Qed.

Lemma header_around w total : Forall around_loop (header w total).
Proof. repeat constructor. Qed.

(** the loop reports the results in the order of completion, with one
    [progress] signal each *)
Lemma collect_in_order outcome clicked total order :
  ∀ i w results h r h',
    collect outcome clicked total i w order results h = (r, h') →
    ∃ new, h' = h ++ new ∧
      progress_signals new
      = map (λ j, (j, total)) (seq (i + 1) (length (reported new))) ∧
      Forall2 (λ img r, outcome img = Ok r)
        (take (length (reported new)) order) (reported new).
Proof.
  induction order as [|img order IH]; intros i w results h r h' Hrun.
  - injection Hrun as <- <-. exists []. rewrite !app_nil_r.
    split; [done|]. split; [done|]. constructor.
  - simpl in Hrun. unfold mbind, M_bind, perform, emit_signal, pure in Hrun.
    simpl in Hrun.
    destruct (_is_cancelled (if clicked i then cancel w else w)).
    { injection Hrun as <- <-.
      exists [completed img; read_is_cancelled; cancelled_line].
      rewrite <- !app_assoc. split; [done|]. split; [done|]. constructor. }
    destruct (outcome img) as [result|e] eqn:Hout.
    2: { injection Hrun as <- <-. exists [completed img; read_is_cancelled].
         rewrite <- !app_assoc. split; [done|]. split; [done|]. constructor. }
    destruct (result_line result) as [line|e] eqn:Hline.
    2: { injection Hrun as <- <-. exists [completed img; read_is_cancelled].
         rewrite <- !app_assoc. split; [done|]. split; [done|]. constructor. }
    apply IH in Hrun as (new & -> & Hprogress & Hresults).
    exists (completed img :: read_is_cancelled ::
            emit (log_message line.1 line.2) :: emit (file_converted result) ::
            emit (progress (i + 1) total) :: new).
    rewrite <- !app_assoc. split; [done|].
    change (reported (completed img :: read_is_cancelled ::
                      emit (log_message line.1 line.2) :: emit (file_converted result) ::
                      emit (progress (i + 1) total) :: new))
      with (result :: reported new).
    change (progress_signals (completed img :: read_is_cancelled ::
                      emit (log_message line.1 line.2) :: emit (file_converted result) ::
                      emit (progress (i + 1) total) :: new))
      with ((i + 1, total)%nat :: progress_signals new).
    split.
    + rewrite Hprogress. simpl.
      by replace (S i + 1)%nat with (S (i + 1)) by lia.
    + simpl. by constructor.
Qed.

(** the loop when nobody cancels and no task lets an exception escape *)
Lemma collect_all outcome clicked total order :
  (∀ i, clicked i = false) →
  Forall (λ img, ∃ r line, outcome img = Ok r ∧ result_line r = Ok line) order →
  ∀ i w results h,
    _is_cancelled w = false →
    ∃ rs new,
      collect outcome clicked total i w order results h
      = (Ok (results ++ rs), h ++ new) ∧
      Forall2 (λ img r, outcome img = Ok r) order rs ∧
      reported new = rs ∧
      Forall not_complete new ∧
      submitted new = [] ∧
      known_complete new = order.
Proof.
  intros Hnever. induction 1 as [|img order (r & line & Hout & Hline) _ IH];
    intros i w results h Hw.
  - exists [], []. rewrite !app_nil_r. repeat split; constructor.
  - destruct (IH (S i) w (results ++ [r])
                (((((h ++ [completed img]) ++ [read_is_cancelled])
                   ++ [emit (log_message line.1 line.2)])
                  ++ [emit (file_converted r)])
                 ++ [emit (progress (i + 1) total)]) Hw)
      as (rs & new & Hrun & Hrs & Hrep & Hnc & Hsub & Hknown).
    exists (r :: rs),
      (completed img :: read_is_cancelled ::
       emit (log_message line.1 line.2) :: emit (file_converted r) ::
       emit (progress (i + 1) total) :: new).
    split.
    { simpl. unfold mbind, M_bind, perform, emit_signal, pure. simpl.
      rewrite Hnever, Hw, Hout, Hline. simpl. rewrite Hrun.
      f_equal; [f_equal|]; by rewrite <- !app_assoc. }
    split; [by constructor|].
    split; [by rewrite <- Hrep|].
    split; [by repeat constructor|].
    split; [done|]. by rewrite <- Hknown.
Qed.

(** a run that found images and has a pool: the loop, the wait for the
    tasks still running, and the final signal if the loop returned *)
Lemma run_with_images envs choices clicked w tree r h' :
  run envs choices clicked w tree [] = (r, h') →
  find_images w tree ≠ [] →
  0 < max_workers (settings w) →
  ∃ rc hc,
    collect (future_result envs w) clicked (length (find_images w tree)) 0 w
      (as_completed choices (find_images w tree)) []
      (header w (length (find_images w tree))
       ++ ThreadPoolExecutor (max_workers (settings w))
       :: map submit (find_images w tree))
    = (rc, hc) ∧
    ((∃ e, rc = Raise e ∧ r = Raise e ∧
           h' = hc ++ map completed (outstanding hc)) ∨
     (∃ rs, rc = Ok rs ∧ r = Ok () ∧
            h' = hc ++ map completed (outstanding hc)
                 ++ [emit (conversion_complete rs)])).
Proof.
  unfold run. intros Hrun Himages Hworkers.
  rewrite bool_decide_eq_false_2 in Hrun by done.
  unfold mbind, M_bind, emit_signal, perform, with_executor in Hrun.
  simpl in Hrun.
  destruct (Z.leb_spec (max_workers (settings w)) 0) as [Hw|_]; [lia|].
  unfold mbind, M_bind, perform in Hrun. cbn beta iota in Hrun.
  rewrite submit_all_runs in Hrun.
  destruct (collect _ _ _ _ _ _ _ _) as [rc hc] eqn:Hcollect.
  exists rc, hc. split; [reflexivity|].
  destruct rc as [rs|e].
  - right. injection Hrun as <- <-. exists rs. simpl.
    by rewrite <- !app_assoc.
  - left. injection Hrun as <- <-. eauto.
Qed.

(** X9.  In every run, the results are reported in the order in which the
    tasks complete: the [k] results handed to the window are the results of
    the first [k] futures of [as_completed], each followed by one [progress]
    signal, and these signals count [1, 2, ..., k] out of the number of
    images found, which [k] never exceeds. *)
Theorem results_reported_in_completion_order envs choices clicked w tree r h' :
  run envs choices clicked w tree [] = (r, h') →
  (length (reported h') ≤ length (find_images w tree))%nat ∧
  progress_signals h'
  = map (λ j, (j, length (find_images w tree))) (seq 1 (length (reported h'))) ∧
  Forall2 (λ img res, future_result envs w img = Ok res)
    (take (length (reported h')) (as_completed choices (find_images w tree)))
    (reported h').
Proof.
  intros Hrun.
  destruct (decide (find_images w tree = [])) as [Hnone|Hsome].
  { destruct (run_history _ _ _ _ _ _ _ Hrun)
      as [(_ & _ & ->)|[(_ & _ & ->)|(? & _)]]; [| |done].
    - split; [simpl; lia|split; [done|constructor]].
    - rewrite reported_app, progress_signals_app.
      pose proof (header_around w (length (find_images w tree))) as Hheader.
      rewrite (reported_around _ Hheader), (progress_signals_around _ Hheader).
      split; [simpl; lia|split; [done|constructor]]. }
  destruct (Z.leb_spec (max_workers (settings w)) 0) as [Hbad|Hworkers].
  { destruct (run_history _ _ _ _ _ _ _ Hrun)
      as [(? & _)|[(_ & _ & ->)|(_ & ? & _)]]; [done| |lia].
    rewrite reported_app, progress_signals_app.
    pose proof (header_around w (length (find_images w tree))) as Hheader.
    rewrite (reported_around _ Hheader), (progress_signals_around _ Hheader).
    split; [simpl; lia|split; [done|constructor]]. }
  destruct (run_with_images _ _ _ _ _ _ _ Hrun Hsome Hworkers)
    as (rc & hc & Hcollect & Hend).
  apply collect_in_order in Hcollect as (new & -> & Hprogress & Hresults).
  pose proof (around_loop_front w (find_images w tree)) as Hfront.
  set (front := header w (length (find_images w tree))
                ++ ThreadPoolExecutor (max_workers (settings w))
                :: map submit (find_images w tree)) in *.
  assert (reported h' = reported new ∧ progress_signals h' = progress_signals new)
    as [-> ->].
  { destruct Hend as [(e & _ & _ & ->)|(rs & _ & _ & ->)];
      rewrite !reported_app, !progress_signals_app;
      rewrite (reported_around _ Hfront), (progress_signals_around _ Hfront);
      rewrite (reported_around _ (around_loop_completed _)),
              (progress_signals_around _ (around_loop_completed _));
      simpl; by rewrite !app_nil_r. }
  split; [|done].
  apply Forall2_length in Hresults. rewrite <- Hresults, length_take.
  rewrite (Permutation_length (as_completed_Permutation choices _)). lia.
Qed.

Lemma results_reported_in_completion_order_witness :
  (length (reported run_example.2)
   ≤ length (find_images worker_example tree_example))%nat ∧
  progress_signals run_example.2
  = map (λ j, (j, length (find_images worker_example tree_example)))
      (seq 1 (length (reported run_example.2))) ∧
  Forall2 (λ img res, future_result (λ _, env_ok) worker_example img = Ok res)
    (take (length (reported run_example.2))
       (as_completed [1; 0]%nat (find_images worker_example tree_example)))
    (reported run_example.2).
Proof.
  apply (results_reported_in_completion_order (λ _, env_ok) [1; 0]%nat
           (λ i, bool_decide (i = 1%nat)) worker_example tree_example
           run_example.1 run_example.2).
  reflexivity.
Defined.

(** how a run ends: with the final signal, or with an exception and
    without it *)
Lemma run_completion envs choices clicked w tree r h' :
  run envs choices clicked w tree [] = (r, h') →
  (∀ e, r = Raise e → completions h' = []) ∧
  (r = Ok () →
   ∃ pre, h' = pre ++ [emit (conversion_complete (reported pre))] ∧
          completions pre = []).
Proof.
  intros Hrun.
  destruct (run_history _ _ _ _ _ _ _ Hrun)
    as [(_ & -> & ->)|[(_ & (e0 & ->) & ->)
       |(_ & _ & new & body & Hnew & Hbody & Hend)]].
  - split; [done|]. intros _.
    by exists [emit (log_message (Scanning (directory w)) "info");
               emit (log_message NoImagesFound "warning")].
  - split; [|done]. intros e _. reflexivity.
  - pose proof (body_not_complete w (find_images w tree) new (outstanding body) Hnew)
      as Hquiet.
    rewrite <- Hbody in Hquiet.
    destruct Hend as [((e0 & ->) & ->)|(-> & ->)].
    + split; [|done]. intros e _. by apply completions_not_complete.
    + split; [done|]. intros _.
      exists (body ++ map completed (outstanding body)).
      split; [|by apply completions_not_complete].
      rewrite <- app_assoc. do 3 f_equal.
      rewrite reported_app, (reported_around _ (around_loop_completed _)), app_nil_r.
      rewrite Hbody, body_front, reported_app.
      by rewrite (reported_around _ (around_loop_front _ _)).
Qed.

(** X10.  [conversion_complete] is emitted exactly when [run] returns: then
    it is the last call of the run, emitted once, and it carries the results
    that were reported one by one; when [run] ends with an exception (a task
    let one escape, or the pool could not be created) the signal is never
    emitted. *)
Theorem conversion_complete_iff_run_returns envs choices clicked w tree r h' :
  run envs choices clicked w tree [] = (r, h') →
  (∀ e, r = Raise e → completions h' = []) ∧
  (r = Ok () →
   ∃ pre, h' = pre ++ [emit (conversion_complete (reported pre))] ∧
          completions pre = []).
Proof. apply run_completion. Qed.

Lemma conversion_complete_iff_run_returns_witness :
  (∀ e, run_example.1 = Raise e → completions run_example.2 = []) ∧
  (run_example.1 = Ok () →
   ∃ pre, run_example.2 = pre ++ [emit (conversion_complete (reported pre))] ∧
          completions pre = []).
Proof.
  apply (conversion_complete_iff_run_returns (λ _, env_ok) [1; 0]%nat
           (λ i, bool_decide (i = 1%nat)) worker_example tree_example
           run_example.1 run_example.2).
  reflexivity.
Defined.

(** X11.  When nobody cancels and no task lets an exception escape, [run]
    returns, and [conversion_complete] carries exactly one result for every
    image found: the results of the tasks, in the order of completion. *)
Theorem run_reports_every_image envs choices clicked w tree :
  1 ≤ max_workers (settings w) →
  _is_cancelled w = false →
  (∀ i, clicked i = false) →
  (∀ img, img ∈ find_images w tree →
     ∃ res line, future_result envs w img = Ok res ∧ result_line res = Ok line) →
  ∃ pre results,
    run envs choices clicked w tree [] = (Ok (), pre ++ [emit (conversion_complete results)]) ∧
    reported pre = results ∧
    Forall2 (λ img res, future_result envs w img = Ok res)
      (as_completed choices (find_images w tree)) results ∧
    as_completed choices (find_images w tree) ≡ₚ find_images w tree ∧
    length results = length (find_images w tree).
Proof.
  intros Hworkers Hw Hnever Htasks.
  destruct (run envs choices clicked w tree []) as [r h'] eqn:Hrun.
  destruct (decide (find_images w tree = [])) as [Hnone|Hsome].
  { destruct (run_history _ _ _ _ _ _ _ Hrun)
      as [(_ & -> & ->)|[(? & _)|(? & _)]]; [|lia|done].
    exists [emit (log_message (Scanning (directory w)) "info");
            emit (log_message NoImagesFound "warning")], [].
    rewrite Hnone.
    assert (as_completed choices [] = []) as ->
      by (apply Permutation_nil_r, as_completed_Permutation).
    repeat split; constructor. }
  destruct (run_with_images _ _ _ _ _ _ _ Hrun Hsome ltac:(lia))
    as (rc & hc & Hcollect & Hend).
  pose proof (as_completed_Permutation choices (find_images w tree)) as Hperm.
  assert (Forall (λ img, ∃ res line, future_result envs w img = Ok res ∧
                                     result_line res = Ok line)
            (as_completed choices (find_images w tree))) as Hall.
  { apply Forall_forall. intros img Himg. apply Htasks. by rewrite <- Hperm. }
  destruct (collect_all _ clicked (length (find_images w tree)) _ Hnever Hall 0%nat w []
              (header w (length (find_images w tree))
               ++ ThreadPoolExecutor (max_workers (settings w))
               :: map submit (find_images w tree)) Hw)
    as (rs & new & Hrun' & Hrs & Hrep & _).
  rewrite Hrun' in Hcollect. injection Hcollect as <- <-.
  destruct Hend as [(e & [=] & _)|(rs' & [= <-] & -> & ->)].
  pose proof (around_loop_front w (find_images w tree)) as Hfront.
  set (front := header w (length (find_images w tree))
                ++ ThreadPoolExecutor (max_workers (settings w))
                :: map submit (find_images w tree)) in *.
  exists ((front ++ new) ++ map completed (outstanding (front ++ new))), rs.
  split; [unfold front; simpl; by rewrite <- !app_assoc|].
  split.
  { rewrite !reported_app, (reported_around _ Hfront).
    by rewrite (reported_around _ (around_loop_completed _)), app_nil_r. }
  split; [done|]. split; [done|].
  apply Forall2_length in Hrs. rewrite <- Hrs. by apply Permutation_length.
Qed.

Lemma run_reports_every_image_witness :
  ∃ pre results,
    run (λ _, env_ok) [2; 0]%nat (λ _, false) worker_example tree_example []
    = (Ok (), pre ++ [emit (conversion_complete results)]) ∧
    reported pre = results ∧
    Forall2 (λ img res, future_result (λ _, env_ok) worker_example img = Ok res)
      (as_completed [2; 0]%nat (find_images worker_example tree_example)) results ∧
    as_completed [2; 0]%nat (find_images worker_example tree_example)
      ≡ₚ find_images worker_example tree_example ∧
    length results = length (find_images worker_example tree_example).
Proof.
  apply (run_reports_every_image (λ _, env_ok) [2; 0]%nat (λ _, false)
           worker_example tree_example).
  - simpl. lia.
  - reflexivity.
  - reflexivity.
  - intros img Himg.
    set (l := find_images _ _) in Himg. vm_compute in l. subst l.
    repeat (apply elem_of_cons in Himg as [->|Himg];
            [eexists _, _; split; vm_compute; reflexivity|]).
    by apply elem_of_nil in Himg.
Defined.

(** ** A scan that finds nothing *)

Lemma endswith_app pre s : Py.endswith (pre +:+ s) s = true.
Proof.
  induction pre as [|a pre IH].
  - destruct s; simpl; rewrite ?bool_decide_eq_true_2 by done; done.
  - change (Py.endswith (String a (pre +:+ s)) s = true). simpl.
    rewrite IH. apply orb_true_r.
Qed.

(** X12.  When no entry in the scope of the scan has a name that ends with
    a selected extension in its lower-case or its upper-case spelling (a
    name like [photo.Png] does not), [run] warns that no image was found and
    emits [conversion_complete] with the empty list at once: no pool is
    created and no file is touched. *)
Theorem nothing_found_completes_at_once envs choices clicked w tree :
  (∀ p e ext, (p, e) ∈ in_scope w tree → ext ∈ get_input_extensions w →
     Py.endswith (fs.entry_name e) ext = false ∧
     Py.endswith (fs.entry_name e) (Py.upper ext) = false) →
  find_images w tree = [] ∧
  run envs choices clicked w tree []
  = (Ok (), [emit (log_message (Scanning (directory w)) "info");
             emit (log_message NoImagesFound "warning");
             emit (conversion_complete [])]).
Proof.
  intros Hnone.
  assert (find_images w tree = []) as Hempty.
  { apply elem_of_nil_inv. intros p.
    rewrite elem_of_find_images, elem_of_globbed_images.
    intros (e & ext & Hin & Hext & Hm).
    destruct (Hnone p e ext Hin Hext) as [Hlo Hup].
    destruct (get_input_extensions_literal _ _ Hext) as [Llo Lup].
    destruct Hm as [Hm|Hm].
    - apply (fnmatch_star_literal _ _ Llo) in Hm as [pre Hpre].
      rewrite Hpre, endswith_app in Hlo. done.
    - apply (fnmatch_star_literal _ _ Lup) in Hm as [pre Hpre].
      rewrite Hpre, endswith_app in Hup. done. }
  split; [done|].
  unfold run. by rewrite Hempty.
Qed.

Lemma nothing_found_completes_at_once_witness :
  find_images worker_example tree_mixed_case = [] ∧
  run (λ _, env_ok) [] (λ _, false) worker_example tree_mixed_case []
  = (Ok (), [emit (log_message (Scanning ["/"; "data"; "imgs"]) "info");
             emit (log_message NoImagesFound "warning");
             emit (conversion_complete [])]).
Proof.
  apply (nothing_found_completes_at_once (λ _, env_ok) [] (λ _, false)
           worker_example tree_mixed_case).
  intros p e ext Hin Hext.
  set (l := in_scope _ _) in Hin. vm_compute in l. subst l.
  set (l := get_input_extensions _) in Hext. vm_compute in l. subst l.
  repeat (apply elem_of_cons in Hin as [[= -> ->]|Hin];
    [repeat (apply elem_of_cons in Hext as [->|Hext]; [by split|]);
     by apply elem_of_nil in Hext|]).
  by apply elem_of_nil in Hin.
Defined.

(** ** The Tkinter application: one pass *)

Lemma Tk_appends_ret {A} P (a : A) : Tk_appends P (mret a).
Proof. intros c h r c' h' [= <- <- <-]. exists []. by rewrite app_nil_r. Qed.

Lemma Tk_appends_lift {A} P (m : M A) : appends P m → Tk_appends P (lift m).
Proof.
  intros Hm c h r c' h' Hrun. unfold lift in Hrun.
  destruct (m h) as [r1 h1] eqn:Hmh. injection Hrun as <- <- <-.
  by apply (Hm _ _ _ Hmh).
Qed.

Lemma Tk_appends_get P : Tk_appends P get.
Proof. intros c h r c' h' [= <- <- <-]. exists []. by rewrite app_nil_r. Qed.

Lemma Tk_appends_put P c0 : Tk_appends P (put c0).
Proof. intros c h r c' h' [= <- <- <-]. exists []. by rewrite app_nil_r. Qed.

Lemma Tk_appends_adicionar (P : call → Prop) m tipo :
  P (adicionar_log m tipo) → Tk_appends P (adicionar m tipo).
Proof. intros HP. by apply Tk_appends_lift, appends_perform. Qed.

Lemma Tk_appends_bind {A B} P (m : Tk A) (f : A → Tk B) :
  Tk_appends P m → (∀ a, Tk_appends P (f a)) → Tk_appends P (m ≫= f).
Proof.
  intros Hm Hf c h r c' h' Hrun. unfold mbind, Tk_bind in Hrun.
  destruct (m c h) as [[[a|e] c1] h1] eqn:Hmh.
  - destruct (Hm _ _ _ _ _ Hmh) as (n1 & -> & H1).
    destruct (Hf a _ _ _ _ _ Hrun) as (n2 & -> & H2).
    exists (n1 ++ n2). split; [by rewrite app_assoc|]. by apply Forall_app.
  - injection Hrun as <- <- <-. by apply (Hm _ _ _ _ _ Hmh).
Qed.

Lemma Tk_appends_try_except {A} P (body : Tk A) classes handler :
  Tk_appends P body → (∀ e, Tk_appends P (handler e)) →
  Tk_appends P (conversor_webp.try_except body classes handler).
Proof.
  intros Hb Hh c h r c' h' Hrun. unfold conversor_webp.try_except in Hrun.
  destruct (body c h) as [[[a|e] c1] h1] eqn:Hbh.
  - injection Hrun as <- <- <-. by apply (Hb _ _ _ _ _ Hbh).
  - destruct (classes e).
    + destruct (Hb _ _ _ _ _ Hbh) as (n1 & -> & H1).
      destruct (Hh e _ _ _ _ _ Hrun) as (n2 & -> & H2).
      exists (n1 ++ n2). split; [by rewrite app_assoc|]. by apply Forall_app.
    + injection Hrun as <- <- <-. by apply (Hb _ _ _ _ _ Hbh).
Qed.

Lemma Tk_appends_weaken {A} (P Q : call → Prop) (m : Tk A) :
  (∀ c, P c → Q c) → Tk_appends P m → Tk_appends Q m.
Proof.
  intros HPQ Hm c h r c' h' Hrun. destruct (Hm _ _ _ _ _ Hrun) as (new & -> & Hnew).
  exists new. split; [done|]. eapply Forall_impl; eauto.
Qed.

Ltac Tk_appends_step :=
  first
    [ apply Tk_appends_ret | apply Tk_appends_get | apply Tk_appends_put
    | apply Tk_appends_adicionar
    | apply Tk_appends_lift; first [apply appends_pure | apply appends_perform]
    | apply Tk_appends_bind; [|intros ?]
    | apply Tk_appends_try_except; [|intros ?]
    | match goal with |- Tk_appends _ (if ?b then _ else _) => destruct b end ].

Lemma Tk_appends_bind_pure {A B} P (x : result A) (f : A → Tk B) :
  (∀ a, x = Ok a → Tk_appends P (f a)) → Tk_appends P (lift (pure x) ≫= f).
Proof.
  intros Hf c h r c' h' Hrun. unfold mbind, Tk_bind, lift, pure in Hrun.
  destruct x as [a|e]; [by eapply Hf|].
  injection Hrun as <- <- <-. exists []. by rewrite app_nil_r.
Qed.

(** the calls of the conversion of one file *)
Lemma converter_arquivo_chamadas env path_origem qualidade arquivo :
  Tk_appends (chamada_de qualidade arquivo)
    (converter_arquivo env path_origem qualidade arquivo).
Proof.
  unfold converter_arquivo, converter_corpo.
  apply Tk_appends_try_except; [|intros e; repeat Tk_appends_step; done].
  apply Tk_appends_bind; [repeat Tk_appends_step; done|intros img].
  apply Tk_appends_bind_pure. intros saida Hsaida.
  destruct (pathlib.with_suffix arquivo ".webp") as [saida'|] eqn:Hsuffix; [|done].
  injection Hsaida as ->.
  repeat Tk_appends_step; simpl; auto.
Qed.

(** case analysis on the innermost scrutinee of a nest of matches *)
Ltac destruct_innermost x :=
  lazymatch x with
  | context [match ?y with _ => _ end] => destruct_innermost y
  | _ => destruct x eqn:?
  end.

(** the counters over the conversion of one file *)
Lemma converter_corpo_contagem env path_origem qualidade arquivo c h r c' h' :
  converter_corpo env path_origem qualidade arquivo c h = (r, c', h') →
  total_economia c ≤ total_economia c' ∧ erros c' = erros c ∧
  match r with
  | Ok _ => convertidos c' = convertidos c + 1
  | Raise _ => convertidos c' = convertidos c
  end.
Proof.
  unfold converter_corpo, adicionar, mbind, Tk_bind, lift, perform, pure, get, put.
  intros Hrun.
  repeat (match type of Hrun with
          | context [match ?x with _ => _ end] => destruct_innermost x
          end; simplify_eq/=); repeat split; lia.
Qed.

Lemma converter_arquivo_contagem env path_origem qualidade arquivo c h r c' h' :
  converter_arquivo env path_origem qualidade arquivo c h = (r, c', h') →
  total_economia c ≤ total_economia c' ∧
  match r with
  | Ok _ => convertidos c' + erros c' = convertidos c + erros c + 1 ∧
            convertidos c ≤ convertidos c' ∧ erros c ≤ erros c'
  | Raise e => is_OSError_or_ValueError e = false ∧
               convertidos c' = convertidos c ∧ erros c' = erros c
  end.
Proof.
  unfold converter_arquivo, conversor_webp.try_except. intros Hrun.
  destruct (converter_corpo env path_origem qualidade arquivo c h)
    as [[[[]|e] c1] h1] eqn:Hcorpo;
    apply converter_corpo_contagem in Hcorpo as (Heco & Herros & Hconv).
  - injection Hrun as <- <- <-. lia.
  - destruct (is_OSError_or_ValueError e) eqn:Hclass.
    + unfold adicionar, mbind, Tk_bind, lift, perform, get, put in Hrun.
      injection Hrun as <- <- <-. simpl. lia.
    + injection Hrun as <- <- <-. repeat split; [lia|done|lia..].
Qed.

(** the counters over the loop: one more conversion or one more error for
    each eligible file; an exception that leaves the loop is of neither class
    the handlers name *)
Lemma percorrer_contagem env path_origem qualidade arquivos :
  ∀ c h r c' h',
    percorrer env path_origem qualidade arquivos c h = (r, c', h') →
    convertidos c ≤ convertidos c' ∧ erros c ≤ erros c' ∧
    total_economia c ≤ total_economia c' ∧
    match r with
    | Ok _ => convertidos c' + erros c'
              = convertidos c + erros c
                + Z.of_nat (length (filter (λ pe, elegivel pe = true) arquivos))
    | Raise e => is_OSError_or_ValueError e = false
    end.
Proof.
  induction arquivos as [|[arquivo e] arquivos IH]; intros c h r c' h' Hrun.
  - injection Hrun as <- <- <-. simpl. lia.
  - simpl in Hrun. unfold mbind, Tk_bind in Hrun.
    destruct (fs.is_file e && Py.in_list (Py.lower (suffix arquivo)) extensoes_validas)
      eqn:Hel.
    + rewrite filter_cons_True by exact Hel. simpl length.
      destruct (converter_arquivo env path_origem qualidade arquivo c h)
        as [[[[]|e1] c1] h1] eqn:Harq;
        apply converter_arquivo_contagem in Harq as (Heco & Hrest).
      * apply IH in Hrun as (? & ? & ? & Hr). repeat split; [lia..|].
        destruct r; [|done]. simpl. lia.
      * injection Hrun as <- <- <-. destruct Hrest as (? & ? & ?).
        repeat split; [lia..|done].
    + rewrite filter_cons_False by (unfold elegivel; simpl; by rewrite Hel).
      apply IH in Hrun as (? & ? & ? & Hr). done.
Qed.

Lemma percorrer_chamadas env path_origem qualidade todos arquivos :
  arquivos ⊆ todos →
  Tk_appends (chamada_do_passo path_origem qualidade todos)
    (percorrer env path_origem qualidade arquivos).
Proof.
  induction arquivos as [|[arquivo e] arquivos IH]; intros Hsub; simpl.
  - apply Tk_appends_ret.
  - apply Tk_appends_bind.
    2: { intros _. apply IH. intros pe Hpe. apply Hsub. by right. }
    destruct (fs.is_file e && Py.in_list (Py.lower (suffix arquivo)) extensoes_validas)
      eqn:Hel; [|apply Tk_appends_ret].
    eapply Tk_appends_weaken; [|apply converter_arquivo_chamadas].
    intros c Hc. right. exists arquivo, e. split; [apply Hsub; by left|]. done.
Qed.

Lemma Tk_appends_try_finally {A} P (body : Tk A) cleanup :
  Tk_appends P body → Tk_appends P cleanup →
  Tk_appends P (try_finally body cleanup).
Proof.
  intros Hb Hc c h r c' h' Hrun. unfold try_finally in Hrun.
  destruct (body c h) as [[r1 c1] h1] eqn:Hbh.
  destruct (cleanup c1 h1) as [[r2 c2] h2] eqn:Hch.
  destruct (Hb _ _ _ _ _ Hbh) as (n1 & -> & H1).
  destruct (Hc _ _ _ _ _ Hch) as (n2 & -> & H2).
  exists (n1 ++ n2). split; [|by apply Forall_app].
  destruct r2; injection Hrun as <- <- <-; by rewrite app_assoc.
Qed.

Lemma converter_imagens_chamadas env path_origem qualidade tree :
  Tk_appends
    (chamada_da_conversao path_origem qualidade (fs.rglob_entries path_origem tree "*"))
    (converter_imagens env path_origem qualidade tree).
Proof.
  unfold converter_imagens.
  assert (∀ m tipo, chamada_da_conversao path_origem qualidade
                      (fs.rglob_entries path_origem tree "*") (adicionar_log m tipo))
    as Hlog by (intros m tipo; right; left; eauto).
  apply Tk_appends_try_finally.
  2: { apply Tk_appends_lift, appends_perform. by left. }
  apply Tk_appends_try_except; [|intros e; by apply Tk_appends_adicionar].
  do 4 (apply Tk_appends_bind; [repeat Tk_appends_step; done|intros _]).
  apply Tk_appends_bind; [|intros _; repeat Tk_appends_step; done].
  eapply Tk_appends_weaken; [|by apply percorrer_chamadas].
  intros c Hc. by right.
Qed.

(** ** Names, stems and suffixes *)

Lemma name_stem_suffix nm :
  pathlib.stem_of_name nm +:+ pathlib.suffix_of_name nm = nm.
Proof.
  unfold pathlib.stem_of_name, pathlib.suffix_of_name.
  destruct (Py.rfind "." nm) as [i|]; [|apply string_app_nil_r].
  destruct ((0 <? i)%nat && (i <? String.length nm - 1)%nat);
    [apply take_drop|apply string_app_nil_r].
Qed.

Lemma string_app_inv_head s a b : s +:+ a = s +:+ b → a = b.
Proof.
  induction s as [|c s IH]; [done|].
  intros Heq. apply IH.
  change (String c (s +:+ a) = String c (s +:+ b)) in Heq. by injection Heq.
Qed.

(** [p.with_suffix(ext)] is another path than [p] unless [ext] is the suffix
    of [p] *)
Lemma with_suffix_differs p ext out :
  pathlib.with_suffix p ext = Some out → pathlib.suffix p ≠ ext → out ≠ p.
Proof.
  unfold pathlib.with_suffix.
  destruct (Py.truthy (pathlib.name p)) eqn:Hname; [|done].
  intros [= <-] Hsuffix Heq.
  assert (last p = Some (pathlib.stem p +:+ ext)) as Hlast
    by (rewrite <- Heq at 1; apply last_snoc).
  assert (pathlib.name p = pathlib.stem p +:+ ext) as Hnm.
  { unfold pathlib.name in Hname |- *. rewrite Hlast in Hname |- *.
    by destruct (pathlib.is_anchor _). }
  apply Hsuffix. unfold pathlib.suffix.
  apply (string_app_inv_head (pathlib.stem_of_name (pathlib.name p))).
  rewrite name_stem_suffix. exact Hnm.
Qed.

(** ** The Tkinter application: a whole conversion *)

(** [converter_imagens] in terms of its loop: the opening lines, the loop,
    the summary if the loop was not left by an exception, and the restoring
    of the interface *)
Lemma converter_imagens_run env path_origem qualidade tree c h rp cp hp :
  percorrer env path_origem qualidade (fs.rglob_entries path_origem tree "*")
    contadores_zerados (h ++ abertura path_origem qualidade) = (rp, cp, hp) →
  converter_imagens env path_origem qualidade tree c h
  = (rp, cp,
     hp ++ (match rp with Ok _ => resumo cp | Raise _ => [] end)
        ++ [restaurar_interface]).
Proof.
  intros Hp.
  pose proof (percorrer_contagem _ _ _ _ _ _ _ _ _ Hp) as (_ & _ & _ & Hclass).
  unfold converter_imagens, try_finally, conversor_webp.try_except.
  unfold mbind, Tk_bind, put, adicionar, lift, perform, get. simpl.
  rewrite <- !app_assoc. simpl.
  unfold abertura, contadores_zerados in Hp. rewrite Hp.
  destruct rp as [[]|e].
  - unfold resumo. destruct (0 <? erros cp); simpl; by rewrite <- !app_assoc.
  - rewrite Hclass. by rewrite app_nil_l.
Qed.

Lemma chamada_do_passo_not_restaurar path_origem qualidade arquivos :
  ¬ chamada_do_passo path_origem qualidade arquivos restaurar_interface.
Proof. intros [(m & tipo & [=])|(arquivo & e & _ & _ & [])]. Qed.

(** X13.  However a pass of the Tkinter application ends, the interface is
    restored: the [finally] block runs as the last step of
    [converter_imagens], exactly once, whether the pass returned or an
    exception left it; and an exception that leaves [converter_imagens] is
    never an [OSError] or a [ValueError]. *)
Theorem interface_always_restored env path_origem qualidade tree c h r c' h' :
  converter_imagens env path_origem qualidade tree c h = (r, c', h') →
  (∃ new, h' = h ++ new ++ [restaurar_interface] ∧ restaurar_interface ∉ new) ∧
  (∀ e, r = Raise e → is_OSError_or_ValueError e = false).
Proof.
  intros Hrun.
  destruct (percorrer env path_origem qualidade (fs.rglob_entries path_origem tree "*")
              contadores_zerados (h ++ abertura path_origem qualidade))
    as [[rp cp] hp] eqn:Hp.
  rewrite (converter_imagens_run _ _ _ _ _ _ _ _ _ Hp) in Hrun.
  injection Hrun as <- <- <-.
  pose proof (percorrer_contagem _ _ _ _ _ _ _ _ _ Hp) as (_ & _ & _ & Hclass).
  destruct (percorrer_chamadas env path_origem qualidade _ _
              (reflexivity (fs.rglob_entries path_origem tree "*")) _ _ _ _ _ Hp)
    as (newp & -> & Hnewp).
  split; [|by intros e ->].
  exists (abertura path_origem qualidade ++ newp
          ++ match rp with Ok _ => resumo cp | Raise _ => [] end).
  split; [by rewrite <- !app_assoc|].
  intros [Hin|[Hin|Hin]%elem_of_app]%elem_of_app.
  - unfold abertura in Hin.
    repeat (apply elem_of_cons in Hin as [[=]|Hin]). by apply elem_of_nil in Hin.
  - apply (proj1 (Forall_forall _ _) Hnewp) in Hin.
    by apply chamada_do_passo_not_restaurar in Hin.
  - destruct rp; [|by apply elem_of_nil in Hin].
    unfold resumo in Hin. destruct (0 <? erros cp); simpl in Hin;
      repeat (apply elem_of_cons in Hin as [[=]|Hin]); by apply elem_of_nil in Hin.
Qed.

Lemma interface_always_restored_witness :
  (∃ new,
     (converter_imagens (env_open_raises (Exn OtherException "decompression bomb"))
        ["/"; "data"; "imgs"] 80 tree_example contadores_zerados []).2
     = [] ++ new ++ [restaurar_interface] ∧ restaurar_interface ∉ new) ∧
  (∀ e,
     (converter_imagens (env_open_raises (Exn OtherException "decompression bomb"))
        ["/"; "data"; "imgs"] 80 tree_example contadores_zerados []).1.1 = Raise e →
     is_OSError_or_ValueError e = false).
Proof.
  apply (interface_always_restored
           (env_open_raises (Exn OtherException "decompression bomb"))
           ["/"; "data"; "imgs"] 80 tree_example contadores_zerados []
           (converter_imagens (env_open_raises (Exn OtherException "decompression bomb"))
              ["/"; "data"; "imgs"] 80 tree_example contadores_zerados []).1.1
           (converter_imagens (env_open_raises (Exn OtherException "decompression bomb"))
              ["/"; "data"; "imgs"] 80 tree_example contadores_zerados []).1.2
           (converter_imagens (env_open_raises (Exn OtherException "decompression bomb"))
              ["/"; "data"; "imgs"] 80 tree_example contadores_zerados []).2).
  reflexivity.
Defined.

(** X14.  When a pass of the Tkinter application returns, every eligible
    file (a regular file below the chosen directory whose suffix is [.png],
    [.jpg] or [.jpeg] in any letter case) was counted exactly once, as
    converted or as an error; the space saved is never negative; and the log
    ends with the summary of these very counters, before the interface is
    restored. *)
Theorem summary_counts_every_eligible_file
    env path_origem qualidade tree c h c' h' :
  converter_imagens env path_origem qualidade tree c h = (Ok (), c', h') →
  convertidos c' + erros c' = Z.of_nat (length (elegiveis path_origem tree)) ∧
  0 ≤ convertidos c' ∧ 0 ≤ erros c' ∧ 0 ≤ total_economia c' ∧
  ∃ front, h' = h ++ front ++ resumo c' ++ [restaurar_interface].
Proof.
  intros Hrun.
  destruct (percorrer env path_origem qualidade (fs.rglob_entries path_origem tree "*")
              contadores_zerados (h ++ abertura path_origem qualidade))
    as [[rp cp] hp] eqn:Hp.
  rewrite (converter_imagens_run _ _ _ _ _ _ _ _ _ Hp) in Hrun.
  injection Hrun as -> <- <-.
  pose proof (percorrer_contagem _ _ _ _ _ _ _ _ _ Hp) as (Hc & He & Ht & Hsum).
  destruct (percorrer_chamadas env path_origem qualidade _ _
              (reflexivity (fs.rglob_entries path_origem tree "*")) _ _ _ _ _ Hp)
    as (newp & -> & _).
  simpl in Hc, He, Ht, Hsum. unfold elegiveis.
  repeat split; [lia..|].
  exists (abertura path_origem qualidade ++ newp). by rewrite <- !app_assoc.
Qed.

Lemma summary_counts_every_eligible_file_witness :
  3 + 0 = Z.of_nat (length (elegiveis ["/"; "data"; "imgs"] tree_example)) ∧
  0 ≤ 3 ∧ 0 ≤ 0 ∧ 0 ≤ 0 ∧
  ∃ front,
    (converter_imagens env_ok ["/"; "data"; "imgs"] 80 tree_example
       contadores_zerados []).2
    = [] ++ front
      ++ resumo {| convertidos := 3; erros := 0; total_economia := 0 |}
      ++ [restaurar_interface].
Proof.
  apply (summary_counts_every_eligible_file env_ok ["/"; "data"; "imgs"] 80
           tree_example contadores_zerados []
           {| convertidos := 3; erros := 0; total_economia := 0 |}).
  by vm_compute.
Defined.

Lemma elegivel_suffix arquivo e :
  elegivel (arquivo, e) = true → pathlib.suffix arquivo ≠ ".webp".
Proof.
  unfold elegivel. simpl. intros [_ Hin]%andb_true_iff Hsuffix.
  rewrite Hsuffix in Hin. by vm_compute in Hin.
Qed.

(** X15.  A pass of the Tkinter application opens only regular files with
    an eligible suffix found below the chosen directory (a directory named
    like an image is skipped); whatever it saves is the WebP file
    [arquivo.with_suffix('.webp')] of such a file, with the chosen quality,
    and this is never the source file itself; and it deletes nothing. *)
Theorem tkinter_saves_beside_the_source
    env path_origem qualidade tree c h r c' h' new :
  converter_imagens env path_origem qualidade tree c h = (r, c', h') →
  h' = h ++ new →
  (∀ p, Image_open p ∈ new →
     ∃ e, (p, e) ∈ fs.rglob_entries path_origem tree "*" ∧
          fs.is_file e = true ∧
          Py.in_list (Py.lower (pathlib.suffix p)) extensoes_validas = true) ∧
  (∀ p fmt kwargs, Image_save p fmt kwargs ∈ new →
     ∃ arquivo e, (arquivo, e) ∈ fs.rglob_entries path_origem tree "*" ∧
                  elegivel (arquivo, e) = true ∧
                  pathlib.with_suffix arquivo ".webp" = Some p ∧
                  p ≠ arquivo ∧ fmt = "webp" ∧
                  kwargs = [("quality", kw_int qualidade); ("optimize", kw_bool true)]) ∧
  (∀ p, unlink p ∉ new).
Proof.
  intros Hrun Hnew.
  destruct (converter_imagens_chamadas _ _ _ _ _ _ _ _ _ Hrun) as (new' & Heq & Hall).
  rewrite Hnew in Heq. apply app_inv_head in Heq as <-.
  rewrite Forall_forall in Hall.
  split; [|split].
  - intros p Hin. destruct (Hall _ Hin) as [[=]|[(m & tipo & [=])|Hc]].
    destruct Hc as (arquivo & e & Hentry & Hel & Hcall). simpl in Hcall. subst p.
    exists e. split; [done|]. by apply andb_true_iff in Hel.
  - intros p fmt kwargs Hin.
    destruct (Hall _ Hin) as [[=]|[(m & tipo & [=])|Hc]].
    destruct Hc as (arquivo & e & Hentry & Hel & Hsaida & -> & ->).
    exists arquivo, e. repeat split; try done.
    eapply with_suffix_differs; [exact Hsaida|]. by eapply elegivel_suffix.
  - intros p Hin. destruct (Hall _ Hin) as [[=]|[(m & tipo & [=])|Hc]].
    by destruct Hc as (arquivo & e & _ & _ & []).
Qed.

Lemma tkinter_saves_beside_the_source_witness :
  (∀ p, Image_open p
          ∈ (converter_imagens env_ok ["/"; "data"; "imgs"] 80 tree_with_album
               contadores_zerados []).2 →
     ∃ e, (p, e) ∈ fs.rglob_entries ["/"; "data"; "imgs"] tree_with_album "*" ∧
          fs.is_file e = true ∧
          Py.in_list (Py.lower (pathlib.suffix p)) extensoes_validas = true) ∧
  (∀ p fmt kwargs,
     Image_save p fmt kwargs
       ∈ (converter_imagens env_ok ["/"; "data"; "imgs"] 80 tree_with_album
            contadores_zerados []).2 →
     ∃ arquivo e,
       (arquivo, e) ∈ fs.rglob_entries ["/"; "data"; "imgs"] tree_with_album "*" ∧
       elegivel (arquivo, e) = true ∧
       pathlib.with_suffix arquivo ".webp" = Some p ∧
       p ≠ arquivo ∧ fmt = "webp" ∧
       kwargs = [("quality", kw_int 80); ("optimize", kw_bool true)]) ∧
  (∀ p, unlink p
          ∉ (converter_imagens env_ok ["/"; "data"; "imgs"] 80 tree_with_album
               contadores_zerados []).2).
Proof.
  apply (tkinter_saves_beside_the_source env_ok ["/"; "data"; "imgs"] 80
           tree_with_album contadores_zerados []
           (converter_imagens env_ok ["/"; "data"; "imgs"] 80 tree_with_album
              contadores_zerados []).1.1
           (converter_imagens env_ok ["/"; "data"; "imgs"] 80 tree_with_album
              contadores_zerados []).1.2
           (converter_imagens env_ok ["/"; "data"; "imgs"] 80 tree_with_album
              contadores_zerados []).2
           (converter_imagens env_ok ["/"; "data"; "imgs"] 80 tree_with_album
              contadores_zerados []).2).
  - reflexivity.
  - reflexivity.
Defined.

(** the Tkinter application skips the directory named like an image and
    converts the one regular file *)
Example tkinter_skips_directories :
  (converter_imagens env_ok ["/"; "data"; "imgs"] 80 tree_with_album
     contadores_zerados []).2
  = abertura ["/"; "data"; "imgs"] 80
    ++ [Image_open ["/"; "data"; "imgs"; "b.jpg"];
        Image_save ["/"; "data"; "imgs"; "b.webp"] "webp"
          [("quality", kw_int 80); ("optimize", kw_bool true)];
        stat ["/"; "data"; "imgs"; "b.jpg"];
        stat ["/"; "data"; "imgs"; "b.webp"];
        adicionar_log (Convertido ["b.jpg"] "b.webp" 250 None) "sucesso"]
    ++ resumo {| convertidos := 1; erros := 0; total_economia := 0 |}
    ++ [restaurar_interface].
Proof. by vm_compute. Qed.

(** ** The window of the PyQt application: a session *)

Lemma foldl_add a l : foldl Z.add a l = a + sum_int l.
Proof.
  unfold sum_int. revert a. induction l as [|x l IH]; intros a; simpl; [lia|].
  rewrite (IH (a + x)), (IH (0 + x)). lia.
Qed.

Lemma sum_int_cons x l : sum_int (x :: l) = x + sum_int l.
Proof. unfold sum_int at 1. simpl. apply foldl_add. Qed.

Lemma successful_of_length results :
  successful_of results
  = Z.of_nat (length (filter (λ r, success r = true) results)).
Proof.
  unfold successful_of.
  induction (filter (λ r, success r = true) results) as [|r l IH]; [done|].
  cbn [map length]. rewrite sum_int_cons, IH. lia.
Qed.

Lemma total_saved_of_cons r results :
  total_saved_of (r :: results)
  = (if success r then size_saved r else 0) + total_saved_of results.
Proof.
  unfold total_saved_of. rewrite filter_cons.
  destruct (success r) eqn:Hr.
  - rewrite decide_True by done. cbn [map]. by rewrite sum_int_cons.
  - rewrite decide_False by done. lia.
Qed.

Lemma total_saved_of_nonneg results : 0 ≤ total_saved_of results.
Proof.
  induction results as [|r results IH]; [done|].
  rewrite total_saved_of_cons. unfold size_saved. destruct (success r); lia.
Qed.

Lemma filter_length_all {A} (P : A → Prop) `{∀ x, Decision (P x)} (l : list A) :
  length (filter P l) = length l ↔ Forall P l.
Proof.
  induction l as [|x l IH]; [by split; [constructor|]|].
  rewrite filter_cons. pose proof (length_filter P l) as Hle.
  destruct (decide (P x)) as [Hx|Hx]; simpl.
  - rewrite Forall_cons. split.
    + intros [= Hlen]. split; [done|]. by apply IH.
    + intros [_ Hall]. f_equal. by apply IH.
  - split; [lia|]. by intros [? _]%Forall_cons.
Qed.

Lemma deliver_all_app s h1 h2 win :
  deliver_all s win (h1 ++ h2)
  = win1 ← deliver_all s win h1; deliver_all s win1 h2.
Proof.
  revert win. induction h1 as [|c h1 IH]; intros win; simpl; [done|].
  destruct (deliver s win c) as [win1|e]; simpl; [apply IH|done].
Qed.

(** the window while the worker runs: the buttons and the history stay, the
    running total grows by what the successful results saved *)
Lemma deliver_all_before_completion s pre :
  completions pre = [] →
  ∀ win win',
    deliver_all s win pre = Ok win' →
    total_saved win' = total_saved win + total_saved_of (reported pre) ∧
    convert_btn win' = convert_btn win ∧ cancel_btn win' = cancel_btn win ∧
    history_table win' = history_table win ∧
    log_area win' = log_area win ++ worker_lines pre.
Proof.
  induction pre as [|c pre IH]; intros Hnone win win' Hrun.
  - injection Hrun as <-. rewrite app_nil_r. repeat split.
    change (total_saved_of (reported [])) with 0. lia.
  - simpl in Hrun.
    destruct (deliver s win c) as [win1|e] eqn:Hc; [|done]. simpl in Hrun.
    assert (completions pre = []) as Hpre.
    { unfold completions in *. simpl in Hnone.
      destruct c as [| | | | | | | | | | |sg| | | | | |]; try done.
      by destruct sg. }
    destruct (IH Hpre _ _ Hrun) as (Htotal & Hconv & Hcanc & Hhist & Hlog).
    rewrite Htotal, Hconv, Hcanc, Hhist, Hlog. clear IH Hrun Htotal Hconv Hcanc Hhist Hlog.
    destruct c as [| | | | | | | | | | |sg| | | | | |];
      try (injection Hc as <-; repeat split; lia).
    destruct sg as [i total|text msg_type|rs|res].
    + injection Hc as <-. repeat split; lia.
    + injection Hc as <-. simpl. repeat split; try lia.
      by rewrite <- app_assoc.
    + done.
    + change (reported (emit (file_converted res) :: pre)) with (res :: reported pre).
      rewrite total_saved_of_cons. simpl in Hc. unfold on_file_converted in Hc.
      destruct (success res).
      * destruct (megabytes _); [|done]. injection Hc as <-. simpl.
        repeat split; lia.
      * injection Hc as <-. repeat split; lia.
Qed.

(** X16.  After a run that returned, once the window has handled the
    signals in the order of emission: the convert button is enabled again
    and the cancel button disabled; the running total that
    [on_file_converted] kept is the total [on_conversion_complete] computes
    from the results it is handed, and is not negative; and one row was
    added to the history, with the number of successful results out of the
    number of results, and with the status Success exactly when no result
    failed (so also for a session without results). *)
Theorem session_summary_matches_running_total
    envs choices clicked w tree h' win win' :
  run envs choices clicked w tree [] = (Ok (), h') →
  deliver_all (settings w) (start_conversion win) h' = Ok win' →
  convert_btn win' = true ∧ cancel_btn win' = false ∧
  total_saved win' = total_saved_of (reported h') ∧
  0 ≤ total_saved win' ∧
  ∃ row,
    history_table win' = history_table win ++ [row] ∧
    row_saved row = total_saved win' ∧
    row_files row
    = (Z.of_nat (length (filter (λ r, success r = true) (reported h'))),
       length (reported h')) ∧
    0 ≤ (row_files row).1 ≤ Z.of_nat (row_files row).2 ∧
    (row_status row = StatusSuccess ↔
     Forall (λ r, success r = true) (reported h')).
Proof.
  intros Hrun Hwin.
  destruct (run_completion _ _ _ _ _ _ _ Hrun) as [_ Hok].
  destruct (Hok eq_refl) as (pre & -> & Hnone). clear Hok.
  rewrite deliver_all_app in Hwin.
  destruct (deliver_all (settings w) (start_conversion win) pre) as [win1|e] eqn:Hpre;
    [|done].
  destruct (deliver_all_before_completion _ _ Hnone _ _ Hpre)
    as (Htotal & _ & _ & Hhist & _).
  simpl in Hwin, Htotal, Hhist.
  assert (reported (pre ++ [emit (conversion_complete (reported pre))]) = reported pre)
    as -> by (rewrite reported_app; apply app_nil_r).
  unfold on_conversion_complete, add_to_history in Hwin.
  destruct (megabytes (total_saved_of (reported pre))); [|done]. simpl in Hwin.
  pose proof (total_saved_of_nonneg (reported pre)) as Hnonneg.
  pose proof (length_filter (λ r, success r = true) (reported pre)) as Hle.
  injection Hwin as <-.
  rewrite successful_of_length.
  assert (∀ x : window,
            convert_btn x = true → cancel_btn x = false →
            total_saved x = total_saved win1 →
            history_table x
            = history_table win1 ++
              [{| row_files :=
                    (Z.of_nat (length (filter (λ r, success r = true) (reported pre))),
                     length (reported pre));
                  row_formats := (input_format (settings w), output_format (settings w));
                  row_saved := total_saved_of (reported pre);
                  row_status :=
                    if Z.of_nat (length (filter (λ r, success r = true) (reported pre)))
                       =? Z.of_nat (length (reported pre))
                    then StatusSuccess else StatusPartial |}] →
            convert_btn x = true ∧ cancel_btn x = false ∧
            total_saved x = total_saved_of (reported pre) ∧
            0 ≤ total_saved x ∧
            ∃ row,
              history_table x = history_table win ++ [row] ∧
              row_saved row = total_saved x ∧
              row_files row
              = (Z.of_nat (length (filter (λ r, success r = true) (reported pre))),
                 length (reported pre)) ∧
              0 ≤ (row_files row).1 ≤ Z.of_nat (row_files row).2 ∧
              (row_status row = StatusSuccess ↔
               Forall (λ r, success r = true) (reported pre))) as Hgoal.
  { intros x Hconv Hcanc Hsaved Htable.
    split; [done|]. split; [done|]. split; [lia|]. split; [lia|].
    eexists. split; [by rewrite Htable, Hhist|]. simpl.
    split; [lia|]. split; [done|]. split; [lia|].
    rewrite <- filter_length_all.
    destruct (Z.eqb_spec
                (Z.of_nat (length (filter (λ r, success r = true) (reported pre))))
                (Z.of_nat (length (reported pre)))) as [Heq|Hne];
      split; intros Hstatus; try done.
    - apply Nat2Z.inj. exact Heq.
    - exfalso. apply Hne. f_equal. exact Hstatus. }
  apply Hgoal; destruct (0 <? _); reflexivity.
Qed.

Lemma session_summary_matches_running_total_witness :
  ∃ win',
    deliver_all (settings worker_example) (start_conversion window_example)
      run_example.2 = Ok win' ∧
    convert_btn win' = true ∧ cancel_btn win' = false ∧
    total_saved win' = total_saved_of (reported run_example.2) ∧
    0 ≤ total_saved win' ∧
    ∃ row,
      history_table win' = history_table window_example ++ [row] ∧
      row_saved row = total_saved win' ∧
      row_files row
      = (Z.of_nat (length (filter (λ r, success r = true) (reported run_example.2))),
         length (reported run_example.2)) ∧
      0 ≤ (row_files row).1 ≤ Z.of_nat (row_files row).2 ∧
      (row_status row = StatusSuccess ↔
       Forall (λ r, success r = true) (reported run_example.2)).
Proof.
  destruct (deliver_all (settings worker_example) (start_conversion window_example)
              run_example.2) as [win'|e] eqn:Hwin; [|by vm_compute in Hwin].
  exists win'. split; [done|].
  apply (session_summary_matches_running_total (λ _, env_ok) [1; 0]%nat
           (λ i, bool_decide (i = 1%nat)) worker_example tree_example
           run_example.2 window_example win').
  - reflexivity.
  - exact Hwin.
Defined.

(** the session of [run_example]: one result before the cancellation *)
Example session_of_run_example :
  (win ← deliver_all (settings worker_example) (start_conversion window_example)
           run_example.2;
   Ok (total_saved win, convert_btn win, cancel_btn win, history_table win))
  = Ok (750, true, false,
        [{| row_files := (1, 1%nat); row_formats := ("All Images", "WebP");
            row_saved := 750; row_status := StatusSuccess |}]).
Proof. by vm_compute. Qed.

(** ** Batch rename *)

Lemma renames_app h1 h2 : renames (h1 ++ h2) = renames h1 ++ renames h2.
Proof. apply omap_app. Qed.

(** the loop of [batch_rename]: the files are renamed in the order of the
    list, the [k]-th of them with the counter [counter + k], until a rename
    raises *)
Lemma rename_each_history env pattern files :
  ∀ counter h r h',
    rename_each env pattern files counter h = (r, h') →
    ∃ new, h' = h ++ new ∧
      (∀ k src dst, renames new !! k = Some (src, dst) →
         ∃ date time, dst = new_path_of pattern src date time (counter + k)) ∧
      match r with
      | Ok counter' =>
          counter' = (counter + length files)%nat ∧ (renames new).*1 = files
      | Raise e =>
          ∃ done failed rest,
            files = done ++ failed :: rest ∧ (renames new).*1 = done ++ [failed]
      end.
Proof.
  induction files as [|file files IH]; intros counter h r h' Hrun.
  - injection Hrun as <- <-. exists []. rewrite app_nil_r.
    split; [done|]. split; [intros k src dst [=]|]. split; [simpl; lia|done].
  - simpl in Hrun.
    set (date := rename_clock env h "%Y%m%d") in *.
    set (time := rename_clock env (h ++ [now_strftime "%Y%m%d"]) "%H%M%S") in *.
    set (new_path := new_path_of pattern file date time counter) in *.
    destruct (do_rename env _ file new_path) as [[]|e].
    + apply IH in Hrun as (new & -> & Hdst & Hr).
      exists (now_strftime "%Y%m%d" :: now_strftime "%H%M%S"
              :: rename file new_path :: new).
      split; [by rewrite <- !app_assoc|].
      change (renames (now_strftime "%Y%m%d" :: now_strftime "%H%M%S"
                       :: rename file new_path :: new))
        with ((file, new_path) :: renames new).
      split.
      * intros [|k] src dst Hk.
        -- injection Hk as <- <-. exists date, time. by rewrite Nat.add_0_r.
        -- destruct (Hdst k src dst Hk) as (d & t & ->). exists d, t.
           by replace (counter + S k)%nat with (S counter + k)%nat by lia.
      * destruct r as [counter'|e].
        -- destruct Hr as [-> Hfiles]. split; [simpl; lia|].
           by rewrite fmap_cons, Hfiles.
        -- destruct Hr as (done & failed & rest & -> & Hfiles).
           exists (file :: done), failed, rest. split; [done|].
           by rewrite fmap_cons, Hfiles.
    + injection Hrun as <- <-.
      exists [now_strftime "%Y%m%d"; now_strftime "%H%M%S"; rename file new_path].
      split; [by rewrite <- !app_assoc|]. split.
      * intros [|[|k]] src dst Hk; try done.
        injection Hk as <- <-. exists date, time. by rewrite Nat.add_0_r.
      * by exists [], file, files.
Qed.

(** X17.  [batch_rename] renames the entries of the directory that have a
    known image suffix in the sorted order of their paths, the [k]-th of
    them with the counter [k] (counting from 1), and stops at the first
    rename that raises: the success box then never appears, the renames
    already made stay, and the box shows the error.  When all renames
    succeed the number in the success box is the number of files renamed.  A
    missing directory or an empty pattern only shows a warning: nothing is
    renamed. *)
Theorem batch_rename_in_order_until_failure env directory isdir pattern tree r h :
  batch_rename env directory isdir pattern tree = (r, h) →
  (∀ text, r = Ok (WarningBox text) →
     h = [] ∧ (directory = "" ∨ isdir = false ∨ pattern = "")) ∧
  (∀ n, r = Ok (InformationBox n) →
     (renames h).*1 = files_to_rename (pathlib.of_str directory) tree ∧
     n = length (renames h)) ∧
  (∀ text, r = Ok (CriticalBox text) →
     ∃ done failed rest,
       files_to_rename (pathlib.of_str directory) tree = done ++ failed :: rest ∧
       (renames h).*1 = done ++ [failed]) ∧
  (∀ k src dst, renames h !! k = Some (src, dst) →
     ∃ date time, dst = new_path_of pattern src date time (S k)).
Proof.
  unfold batch_rename. intros Hrun.
  destruct directory as [|a directory]; [|destruct isdir]; simpl in Hrun.
  1,3: injection Hrun as <- <-;
       (split; [intros text _; split; [done|auto]|]);
       (split; [intros n [=]|]); (split; [intros text [=]|]); by intros k src dst [=].
  destruct pattern as [|b pattern]; simpl in Hrun.
  { injection Hrun as <- <-.
    split; [intros text _; split; [done|auto]|].
    split; [intros n [=]|]. split; [intros text [=]|]. by intros k src dst [=]. }
  destruct (rename_each env (String b pattern)
              (files_to_rename (pathlib.of_str (String a directory)) tree) 1 [])
    as [rc hc] eqn:Hloop.
  apply rename_each_history in Hloop as (new & -> & Hdst & Hr).
  rewrite app_nil_l in Hrun.
  destruct rc as [counter|e].
  - injection Hrun as <- <-. destruct Hr as [-> Hfiles].
    split; [intros text [=]|]. split.
    { intros n [= <-]. split; [done|].
      rewrite <- (length_fmap fst (renames new)), Hfiles. lia. }
    split; [intros text [=]|]. exact Hdst.
  - assert (∀ k src dst, renames new !! k = Some (src, dst) →
              ∃ date time, dst = new_path_of (String b pattern) src date time (S k))
      as Hdst' by exact Hdst.
    destruct (is_Exception e); injection Hrun as <- <-.
    + split; [intros text [=]|]. split; [intros n [=]|].
      split; [intros text _; exact Hr|]. exact Hdst'.
    + split; [intros text [=]|]. split; [intros n [=]|].
      split; [intros text [=]|]. exact Hdst'.
Qed.

Lemma batch_rename_in_order_until_failure_witness :
  (∀ text, Ok (CriticalBox "Rename failed: [Errno 13] Permission denied")
           = Ok (WarningBox text) →
     (batch_rename rename_env_second_fails "/data/imgs" true "img_{counter}"
        tree_example).2 = [] ∧
     ("/data/imgs" = "" ∨ true = false ∨ "img_{counter}" = "")) ∧
  (∀ n, Ok (CriticalBox "Rename failed: [Errno 13] Permission denied")
        = Ok (InformationBox n) →
     (renames (batch_rename rename_env_second_fails "/data/imgs" true "img_{counter}"
                 tree_example).2).*1
     = files_to_rename (pathlib.of_str "/data/imgs") tree_example ∧
     n = length (renames (batch_rename rename_env_second_fails "/data/imgs" true
                            "img_{counter}" tree_example).2)) ∧
  (∀ text, Ok (CriticalBox "Rename failed: [Errno 13] Permission denied")
           = Ok (CriticalBox text) →
     ∃ done failed rest,
       files_to_rename (pathlib.of_str "/data/imgs") tree_example
       = done ++ failed :: rest ∧
       (renames (batch_rename rename_env_second_fails "/data/imgs" true "img_{counter}"
                   tree_example).2).*1
       = done ++ [failed]) ∧
  (∀ k src dst,
     renames (batch_rename rename_env_second_fails "/data/imgs" true "img_{counter}"
                tree_example).2 !! k = Some (src, dst) →
     ∃ date time, dst = new_path_of "img_{counter}" src date time (S k)).
Proof.
  apply (batch_rename_in_order_until_failure rename_env_second_fails "/data/imgs" true
           "img_{counter}" tree_example).
  reflexivity.
Defined.

(** a batch rename that is stopped by the second file *)
Example batch_rename_second_fails :
  batch_rename rename_env_second_fails "/data/imgs" true "img_{counter}" tree_example
  = (Ok (CriticalBox "Rename failed: [Errno 13] Permission denied"),
     [now_strftime "%Y%m%d"; now_strftime "%H%M%S";
      rename ["/"; "data"; "imgs"; "a.PNG"] ["/"; "data"; "imgs"; "img_0001.PNG"];
      now_strftime "%Y%m%d"; now_strftime "%H%M%S";
      rename ["/"; "data"; "imgs"; "b.png"] ["/"; "data"; "imgs"; "img_0002.png"]]).
Proof. by vm_compute. Qed.





(** ** The Tkinter window: one conversion at a time *)

Lemma converting_insert (l : list fase) i old new :
  l !! i = Some old →
  (length (filter (λ f, f = NoTry) (<[i := new]> l))
   + (if decide (old = NoTry) then 1 else 0)
   = length (filter (λ f, f = NoTry) l)
     + (if decide (new = NoTry) then 1 else 0))%nat.
Proof.
  intros Hi. pose proof (lookup_lt_Some _ _ _ Hi) as Hlt.
  rewrite insert_take_drop by done.
  rewrite <- (take_drop_middle l i old Hi) at 3.
  rewrite !filter_app, !filter_cons, !length_app.
  destruct (decide (old = NoTry)), (decide (new = NoTry)); simpl; lia.
Qed.

Lemma converting_delete (l : list fase) i old :
  l !! i = Some old → old ≠ NoTry →
  length (filter (λ f, f = NoTry) (delete i l))
  = length (filter (λ f, f = NoTry) l).
Proof.
  intros Hi Hold. rewrite delete_take_drop.
  rewrite <- (take_drop_middle l i old Hi) at 3.
  rewrite !filter_app, filter_cons, !length_app.
  by rewrite decide_False by done.
Qed.

(** the flag counts the converting threads *)
Lemma passo_invariant j e :
  Z.of_nat (a_converter j) = (if convertendo j then 1 else 0) →
  Z.of_nat (a_converter (passo j e)) = (if convertendo (passo j e) then 1 else 0).
Proof.
  unfold a_converter. intros Hinv. destruct e as [diretorio| |i]; simpl.
  - unfold escolher_diretorio. by destruct (Py.truthy diretorio).
  - unfold iniciar_conversao, avisar.
    destruct (negb (Py.truthy (diretorio_selecionado j))); [done|].
    destruct (convertendo j) eqn:Hflag; simpl; [by rewrite ?Hflag|].
    rewrite filter_app, length_app. simpl. lia.
  - unfold avancar. destruct (threads j !! i) as [[]|] eqn:Hi; simpl; [| | |done].
    + pose proof (converting_insert _ _ _ FlagReposta Hi) as Hcount.
      simpl in Hcount. destruct (convertendo j); lia.
    + pose proof (converting_insert _ _ _ BotaoReposto Hi) as Hcount.
      simpl in Hcount. lia.
    + by rewrite (converting_delete _ _ _ Hi).
Qed.

(** X19.  Whatever the user clicks and however the conversion threads
    advance, the Tkinter window never has two conversions under way: at most
    one thread is in the [try] block of [converter_imagens], and the flag
    [convertendo] is set exactly when there is one.  A click without a
    chosen directory, or while the flag is set, starts no thread. *)
Theorem one_conversion_at_a_time (eventos : list evento) :
  (a_converter (foldl passo janela_inicial eventos) ≤ 1)%nat ∧
  (convertendo (foldl passo janela_inicial eventos) = true ↔
   NoTry ∈ threads (foldl passo janela_inicial eventos)) ∧
  (∀ j, diretorio_selecionado j = "" ∨ convertendo j = true →
        threads (iniciar_conversao j) = threads j).
Proof.
  assert (∀ j, Z.of_nat (a_converter j) = (if convertendo j then 1 else 0) →
               Z.of_nat (a_converter (foldl passo j eventos))
               = (if convertendo (foldl passo j eventos) then 1 else 0)) as Hall.
  { induction eventos as [|e eventos IH]; intros j Hj; [done|].
    simpl. by apply IH, passo_invariant. }
  specialize (Hall janela_inicial eq_refl).
  set (j := foldl passo janela_inicial eventos) in *.
  split; [destruct (convertendo j); lia|]. split.
  - unfold a_converter in Hall. split.
    + intros Hflag. rewrite Hflag in Hall.
      destruct (filter (λ f, f = NoTry) (threads j)) as [|f l] eqn:Hfilter;
        [simpl in Hall; lia|].
      assert (f ∈ filter (λ f, f = NoTry) (threads j)) as Hin
        by (rewrite Hfilter; by left).
      by apply list_elem_of_filter in Hin as [-> ?].
    + intros Hin. destruct (convertendo j); [done|].
      assert (NoTry ∈ filter (λ f, f = NoTry) (threads j)) as Hin'
        by (by apply list_elem_of_filter).
      destruct (filter (λ f, f = NoTry) (threads j)); [by apply elem_of_nil in Hin'|].
      simpl in Hall. lia.
  - intros j' Hj'. unfold iniciar_conversao.
    destruct Hj' as [-> | ->]; [done|].
    by destruct (negb (Py.truthy (diretorio_selecionado j'))).
Qed.

(** a second click while the first conversion runs only adds a warning *)
Example second_click_is_refused :
  foldl passo janela_inicial [Escolher "/data/imgs"; Clicar; Clicar]
  = {| diretorio_selecionado := "/data/imgs"; convertendo := true;
       btn_converter := false; progress_bar := true;
       avisos := [ConversaoEmAndamento]; threads := [NoTry] |}.
Proof. reflexivity. Qed.
